(** * veb daemon: a model of [daemon.ts] and [browser.ts]

    The development follows the two source files of the daemon side:

    - [browser.ts]: the [BrowserManager] class, whose methods are
      asynchronous and suspend at every Playwright call;
    - [daemon.ts]: the instance marker and socket artefacts
      ([isDaemonRunning], [cleanupSocket]), the start-up sequence, the
      per-connection ['data'] handler with its line buffer, the grace timer
      of the close command and the signal-driven [shutdown].

    Asynchronous code is embedded in a small resumption monad [Async]: a
    computation runs synchronously up to the next external call and is
    resumed with that call's outcome.  Two semantics are given for it: a
    sequential one ([run]), in which every external call is answered at
    once by an oracle, and the event loop ([fire]), in which suspended
    handlers are kept in a pool and reads, signals, the timer and the
    settlement of pending calls interleave freely. *)

From stdpp Require Import gmap strings list pretty.
From Stdlib Require Import Ascii ZArith Lia.

Open Scope Z_scope.

(** ** JavaScript string primitives used by the daemon

    Text is modelled as a sequence of 8-bit code units; [on_data] takes the
    text of a read, and [on_chunk] its bytes, which it decodes first. *)

Module JS.

Definition newline : ascii := "010"%char.

(** White space as seen by [String.prototype.trim] and [parseInt], on the
    code units below 256. *)
Definition is_space (a : ascii) : bool :=
  match a with
  | "009" | "010" | "011" | "012" | "013" | " " | "160" => true
  | _ => false
  end%char.

(** [s.indexOf(c)], with [None] for [-1]. *)
Fixpoint indexOf (c : ascii) (s : string) : option nat :=
  match s with
  | EmptyString => None
  | String a r => if Ascii.eqb a c then Some 0%nat else S <$> indexOf c r
  end.

(** [s.includes(c)]. *)
Definition includes (c : ascii) (s : string) : bool :=
  match indexOf c s with Some _ => true | None => false end.

Fixpoint take (n : nat) (s : string) : string :=
  match n, s with
  | S n', String a r => String a (take n' r)
  | _, _ => EmptyString
  end.

Fixpoint drop (n : nat) (s : string) : string :=
  match n, s with
  | S n', String _ r => drop n' r
  | _, _ => s
  end.

(** [s.substring(i, j)] for [i <= j], and [s.substring(i)]. *)
Definition substring (i j : nat) (s : string) : string := take (j - i) (drop i s).
Definition substring_from (i : nat) (s : string) : string := drop i s.

Fixpoint trimStart (s : string) : string :=
  match s with
  | EmptyString => EmptyString
  | String a r => if is_space a then trimStart r else s
  end.

Definition trimEnd (s : string) : string :=
  String.rev (trimStart (String.rev s)).

(** [s.trim()]. *)
Definition trim (s : string) : string := trimEnd (trimStart s).

(** The falsiness test [!s] on a string. *)
Definition is_empty (s : string) : bool :=
  match s with EmptyString => true | _ => false end.

(** The value of a decimal digit, by its code unit (48 to 57). *)
Definition digit (a : ascii) : option Z :=
  let code := Z.of_N (N_of_ascii a) in
  if (48 <=? code) && (code <=? 57) then Some (code - 48) else None.

(** The longest prefix of decimal digits, read with accumulator [acc];
    [None] when there is no digit at all. *)
Fixpoint digits (acc : option Z) (s : string) : option Z :=
  match s with
  | EmptyString => acc
  | String a r =>
      match digit a with
      | Some d => digits (Some (10 * default 0 acc + d)) r
      | None => acc
      end
  end.

(** [parseInt(s, 10)], with [None] for [NaN]: leading white space is
    skipped, one sign is accepted, digits are read up to the first other
    character.  The result is kept exact, as a JavaScript number holds it
    up to [2 ^ 53] in absolute value. *)
Definition parseInt (s : string) : option Z :=
  match trimStart s with
  | String "-" r => Z.opp <$> digits None r
  | String "+" r => digits None r
  | r => digits None r
  end.

End JS.

(** ** The operating system as seen by the daemon *)

(** A path holds a regular file or a bound Unix socket; a socket remembers
    the process that bound it. *)
Inductive File :=
| Regular (content : string)
| Socket (owner : Z).

Record OS := mkOS {
  files : gmap string File;
  procs : gset Z                   (* the process ids that exist *)
}.

Definition with_files (f : gmap string File) (os : OS) : OS :=
  {| files := f; procs := procs os |}.

(** [path.join(os.tmpdir(), 'veb.sock')] and [... 'veb.pid'], at the POSIX
    default temporary directory. *)
Definition SOCKET_PATH : string := "/tmp/veb.sock".
Definition PID_FILE : string := "/tmp/veb.pid".

Definition getSocketPath : string := SOCKET_PATH.
Definition getPidFile : string := PID_FILE.

(** Synchronous [fs] calls.  [None] stands for a thrown error; permission
    errors are outside the model. *)
Definition existsSync (p : string) (os : OS) : bool :=
  bool_decide (is_Some (files os !! p)).

Definition unlinkSync (p : string) (os : OS) : option OS :=
  match files os !! p with
  | Some _ => Some (with_files (delete p (files os)) os)
  | None => None
  end.

Definition readFileSync (p : string) (os : OS) : option string :=
  match files os !! p with
  | Some (Regular content) => Some content
  | _ => None
  end.

Definition writeFileSync (p : string) (content : string) (os : OS) : OS :=
  with_files (<[p := Regular content]> (files os)) os.

(** [process.kill(pid, 0)]: the existence probe.  It throws for [NaN] and
    for a process id that does not exist; every process that exists may be
    signalled by the caller (no [EPERM]). *)
Definition process_kill0 (pid : option Z) (os : OS) : option unit :=
  match pid with
  | Some n => if bool_decide (n ∈ procs os) then Some tt else None
  | None => None
  end.

(** [cleanupSocket]: each [unlinkSync] is guarded by [existsSync]; an error
    leaves the function through the empty [catch]. *)
Definition cleanupSocket (os : OS) : OS :=
  match (if existsSync SOCKET_PATH os then unlinkSync SOCKET_PATH os else Some os) with
  | None => os
  | Some os1 =>
      match (if existsSync PID_FILE os1 then unlinkSync PID_FILE os1 else Some os1) with
      | None => os1
      | Some os2 => os2
      end
  end.

(** [isDaemonRunning]: the answer and the file system it leaves. *)
Definition isDaemonRunning (os : OS) : bool * OS :=
  if negb (existsSync PID_FILE os) then (false, os)
  else
    match
      content ← readFileSync PID_FILE os;
      process_kill0 (JS.parseInt (JS.trim content)) os
    with
    | Some _ => (true, os)
    | None => (false, cleanupSocket os)
    end.

(** ** Protocol data ([types.ts], [protocol.ts]) *)

(** JSON values: the payload of a frame. *)
#[warnings="-register-all"]
Inductive json :=
| JNull
| JBool (b : bool)
| JNum (n : Z)
| JStr (s : string)
| JArr (items : list json)
| JObj (members : list (string * json)).

Record Viewport := mkViewport { width : Z; height : Z }.

(** A command: [id] and [action] are always present; [browser], [headless]
    and [viewport] are the optional fields read by [BrowserManager.launch];
    the other action-specific fields are kept as they came. *)
Record Command := mkCommand {
  cmd_id : string;
  cmd_action : string;
  cmd_browser : option string;
  cmd_headless : option bool;
  cmd_viewport : option Viewport;
  cmd_params : list (string * json)
}.

Record Response := mkResponse {
  resp_id : string;
  success : bool;
  data : option json;
  error : option string
}.

(** The result of [parseCommand], as the daemon reads it:
    [parseResult.success], [.command], [.id] and [.error]. *)
Inductive ParseResult :=
| ParseOk (command : Command)
| ParseFail (id : option string) (error : string).

(** The interface of [protocol.ts] used by the daemon. *)
Class Protocol := {
  parseCommand : string → ParseResult;
  serializeResponse : Response → string
}.

(** Modelled from the spec: [protocol.ts] is not part of the sources;
    [errorResponse] is the spec's makeError, which builds a failure
    Response carrying the id and the message. *)
Definition errorResponse (id : string) (message : string) : Response :=
  {| resp_id := id; success := false; data := None; error := Some message |}.

(** Modelled from the spec: a success Response carries a data payload. *)
Definition successResponse (id : string) (payload : json) : Response :=
  {| resp_id := id; success := true; data := Some payload; error := None |}.

(** ** Daemon state *)

Definition handle := nat.
Definition conn := nat.

(** [BrowserState] of [types.ts]: the three nullable Playwright handles. *)
Record BrowserState := mkBrowserState {
  browser : option handle;
  context : option handle;
  page : option handle
}.

(** The mutable variables shared by all handlers of one daemon: the state
    of the [BrowserManager] instance and the [shuttingDown] flag. *)
Record Heap := mkHeap {
  state : BrowserState;
  shuttingDown : bool
}.

Definition set_browser (v : option handle) (h : Heap) : Heap :=
  {| state := {| browser := v; context := context (state h); page := page (state h) |};
     shuttingDown := shuttingDown h |}.
Definition set_context (v : option handle) (h : Heap) : Heap :=
  {| state := {| browser := browser (state h); context := v; page := page (state h) |};
     shuttingDown := shuttingDown h |}.
Definition set_page (v : option handle) (h : Heap) : Heap :=
  {| state := {| browser := browser (state h); context := context (state h); page := v |};
     shuttingDown := shuttingDown h |}.
Definition set_shuttingDown (v : bool) (h : Heap) : Heap :=
  {| state := state h; shuttingDown := v |}.

(** ** External calls and synchronous effects *)

Inductive Engine := Chromium | Firefox | Webkit.

(** The calls on which a handler suspends: Playwright, and the execution of
    an action against the page. *)
Inductive ExtOp :=
| LauncherLaunch (engine : Engine) (headless : bool)
| NewContext (b : handle) (v : Viewport)
| NewPage (ctx : handle)
| PageClose (p : handle)
| ContextClose (ctx : handle)
| BrowserClose (b : handle)
| RunAction (cmd : Command) (p : handle).

Definition ret_ty (op : ExtOp) : Type :=
  match op with
  | LauncherLaunch _ _ | NewContext _ _ | NewPage _ => handle
  | PageClose _ | ContextClose _ | BrowserClose _ => unit
  | RunAction _ _ => json
  end.

(** A promise settles with a value or with an error message. *)
Inductive Outcome (X : Type) :=
| Resolved (x : X)
| Rejected (message : string).
Arguments Resolved {X} x.
Arguments Rejected {X} message.

Inductive Effect :=
| SocketWrite (c : conn) (frame : string)
| ConsoleError (message : string)
| SetTimeout (ms : Z)
| ServerClose
| CleanupSocket.

Inductive Event :=
| Called (op : ExtOp)
| Did (e : Effect)
| Exited (code : Z).

(** ** The resumption monad *)

Inductive Async (A : Type) : Type :=
| Ret (a : A)
| Throw (message : string)
| Get (k : Heap → Async A)
| Put (h : Heap) (k : Async A)
| Do (e : Effect) (k : Async A)
| Exit (code : Z)
| Await (op : ExtOp) (k : Outcome (ret_ty op) → Async A).
Arguments Ret {A} a.
Arguments Throw {A} message.
Arguments Get {A} k.
Arguments Put {A} h k.
Arguments Do {A} e k.
Arguments Exit {A} code.
Arguments Await {A} op k.

Fixpoint bind {A B : Type} (m : Async A) (f : A → Async B) : Async B :=
  match m with
  | Ret a => f a
  | Throw e => Throw e
  | Get k => Get (λ h, bind (k h) f)
  | Put h k => Put h (bind k f)
  | Do e k => Do e (bind k f)
  | Exit code => Exit code
  | Await op k => Await op (λ r, bind (k r) f)
  end.

(** [try { m } catch (err) { handler(message of err) }]. *)
Fixpoint try_catch {A : Type} (m : Async A) (handler : string → Async A) : Async A :=
  match m with
  | Ret a => Ret a
  | Throw e => handler e
  | Get k => Get (λ h, try_catch (k h) handler)
  | Put h k => Put h (try_catch k handler)
  | Do e k => Do e (try_catch k handler)
  | Exit code => Exit code
  | Await op k => Await op (λ r, try_catch (k r) handler)
  end.

#[export] Instance Async_ret : MRet Async := @Ret.
#[export] Instance Async_bind : MBind Async := λ A B f m, bind m f.

Definition get : Async Heap := Get Ret.
Definition modify (f : Heap → Heap) : Async unit := Get (λ h, Put (f h) (Ret tt)).
Definition effect (e : Effect) : Async unit := Do e (Ret tt).

(** [await p]: a rejection is rethrown. *)
Definition await (op : ExtOp) : Async (ret_ty op) :=
  Await op (λ r, match r with Resolved x => Ret x | Rejected e => Throw e end).

(** [await p.catch(() => {})]: a rejection is swallowed. *)
Definition await_caught (op : ExtOp) : Async unit :=
  Await op (λ _, Ret tt).

(** ** [browser.ts]: the BrowserManager *)

Module BrowserManager.

(** The initial value of the private [state] field. *)
Definition initial : BrowserState :=
  {| browser := None; context := None; page := None |}.

(** [isLaunched()]: [this.state.browser !== null]. *)
Definition isLaunched (h : Heap) : bool :=
  match browser (state h) with Some _ => true | None => false end.

(** [getPage()]. *)
Definition getPage : Async handle :=
  h ← get;
  match page (state h) with
  | Some p => Ret p
  | None => Throw "Browser not launched. Call launch first."
  end.

Definition getBrowser (h : Heap) : option handle := browser (state h).
Definition getContext (h : Heap) : option handle := context (state h).

(** [close()]: each handle that is set is closed, the failure of the call
    swallowed, and the field reset; the fields are read again after every
    suspension. *)
Definition close : Async unit :=
  h ← get;
  match page (state h) with
  | Some p => await_caught (PageClose p);; modify (set_page None)
  | None => Ret tt
  end;;
  h ← get;
  match context (state h) with
  | Some c => await_caught (ContextClose c);; modify (set_context None)
  | None => Ret tt
  end;;
  h ← get;
  match browser (state h) with
  | Some b => await_caught (BrowserClose b);; modify (set_browser None)
  | None => Ret tt
  end.

(** The engine selected by [options.browser ?? 'chromium']. *)
Definition launcher (options : Command) : Engine :=
  let browserType := default "chromium" (cmd_browser options) in
  if bool_decide (browserType = "firefox") then Firefox
  else if bool_decide (browserType = "webkit") then Webkit
  else Chromium.

Definition default_viewport : Viewport := {| width := 1280; height := 720 |}.

(** [launch(options)]. *)
Definition launch (options : Command) : Async unit :=
  h ← get;
  match browser (state h) with
  | Some _ => close
  | None => Ret tt
  end;;
  b ← await (LauncherLaunch (launcher options) (default true (cmd_headless options)));
  modify (set_browser (Some b));;
  c ← await (NewContext b (default default_viewport (cmd_viewport options)));
  modify (set_context (Some c));;
  p ← await (NewPage c);
  modify (set_page (Some p)).

End BrowserManager.

(** ** Command execution ([actions.ts]) *)

(** Modelled from the spec: [actions.ts] is not part of the sources.  Per
    the dispatcher policy, [launch] acquires the resource with the supplied
    options and [close] releases it, each answering with a success marker;
    every other action is run against the current page by the execution
    capability, here one external call; a failure becomes an error Response
    with the command's id and leaves the resource as it is. *)
Definition executeCommand (cmd : Command) : Async Response :=
  try_catch
    (if bool_decide (cmd_action cmd = "launch") then
       BrowserManager.launch cmd;;
       Ret (successResponse (cmd_id cmd) (JObj [("launched", JBool true)]))
     else if bool_decide (cmd_action cmd = "close") then
       BrowserManager.close;;
       Ret (successResponse (cmd_id cmd) (JObj [("closed", JBool true)]))
     else
       p ← BrowserManager.getPage;
       d ← await (RunAction cmd p);
       Ret (successResponse (cmd_id cmd) d))
    (λ message, Ret (errorResponse (cmd_id cmd) message)).

(** ** The daemon process *)

Record Machine := mkMachine {
  heap : Heap;
  os : OS;
  listening : bool;                (* the server accepts connections *)
  timers : nat;                    (* grace timers not yet fired *)
  exited : option Z;               (* the exit status, once exited *)
  trace : list Event;              (* what the process did, oldest first *)
  calls : nat                      (* external calls issued so far *)
}.

Definition set_heap (h : Heap) (m : Machine) : Machine :=
  {| heap := h; os := os m; listening := listening m; timers := timers m;
     exited := exited m; trace := trace m; calls := calls m |}.

Definition log (ev : Event) (m : Machine) : Machine :=
  {| heap := heap m; os := os m; listening := listening m; timers := timers m;
     exited := exited m; trace := trace m ++ [ev]; calls := calls m |}.

(** A synchronous effect, applied to the process. *)
Definition perform (e : Effect) (m : Machine) : Machine :=
  let m := log (Did e) m in
  match e with
  | SocketWrite _ _ | ConsoleError _ => m
  | SetTimeout _ =>
      {| heap := heap m; os := os m; listening := listening m; timers := S (timers m);
         exited := exited m; trace := trace m; calls := calls m |}
  | ServerClose =>
      {| heap := heap m; os := os m; listening := false; timers := timers m;
         exited := exited m; trace := trace m; calls := calls m |}
  | CleanupSocket =>
      {| heap := heap m; os := cleanupSocket (os m); listening := listening m;
         timers := timers m; exited := exited m; trace := trace m; calls := calls m |}
  end.

(** [process.exit(code)]. *)
Definition halt (code : Z) (m : Machine) : Machine :=
  let m := log (Exited code) m in
  {| heap := heap m; os := os m; listening := listening m; timers := timers m;
     exited := Some code; trace := trace m; calls := calls m |}.

(** An external call is issued. *)
Definition issue (op : ExtOp) (m : Machine) : Machine :=
  let m := log (Called op) m in
  {| heap := heap m; os := os m; listening := listening m; timers := timers m;
     exited := exited m; trace := trace m; calls := S (calls m) |}.

(** *** Sequential semantics: every call is answered at once *)

(** The environment: the outcome of the [n]-th external call. *)
Definition Oracle := ∀ (n : nat) (op : ExtOp), Outcome (ret_ty op).

Inductive Completion (A : Type) :=
| Returned (a : A)
| Thrown (message : string)
| Terminated.
Arguments Returned {A} a.
Arguments Thrown {A} message.
Arguments Terminated {A}.

Fixpoint run {A : Type} (o : Oracle) (c : Async A) (m : Machine) : Completion A * Machine :=
  match c with
  | Ret a => (Returned a, m)
  | Throw e => (Thrown e, m)
  | Get k => run o (k (heap m)) m
  | Put h k => run o k (set_heap h m)
  | Do e k => run o k (perform e m)
  | Exit code => (Terminated, halt code m)
  | Await op k => run o (k (o (calls m) op)) (issue op m)
  end.

(** *** One synchronous segment: up to the next suspension *)

Inductive Status (A : Type) :=
| Finished (a : A)
| Raised (message : string)
| Halted
| Blocked (op : ExtOp) (k : Outcome (ret_ty op) → Async A).
Arguments Finished {A} a.
Arguments Raised {A} message.
Arguments Halted {A}.
Arguments Blocked {A} op k.

Fixpoint advance {A : Type} (c : Async A) (m : Machine) : Status A * Machine :=
  match c with
  | Ret a => (Finished a, m)
  | Throw e => (Raised e, m)
  | Get k => advance (k (heap m)) m
  | Put h k => advance k (set_heap h m)
  | Do e k => advance k (perform e m)
  | Exit code => (Halted, halt code m)
  | Await op k => (Blocked op k, issue op m)
  end.

(** ** [daemon.ts]: the connection handler and the shutdown paths *)

(** How one turn of the [while] loop ends: [continue] (or falling out of the
    [try]), or the [return] of the close branch. *)
Inductive LoopCtl := Continue | Return.

Definition newline_str : string := String JS.newline EmptyString.

(** The literal [{ id: 'auto', action: 'launch', headless: true }]. *)
Definition auto_launch : Command :=
  {| cmd_id := "auto"; cmd_action := "launch"; cmd_browser := None;
     cmd_headless := Some true; cmd_viewport := None; cmd_params := [] |}.

(** The callback given to [setTimeout] by the close branch. *)
Definition grace_callback : Async unit :=
  effect ServerClose;;
  effect CleanupSocket;;
  Exit 0.

(** The [shutdown] closure registered for SIGINT and SIGTERM. *)
Definition shutdown : Async unit :=
  h ← get;
  if shuttingDown h then Ret tt
  else
    modify (set_shuttingDown true);;
    BrowserManager.close;;
    effect ServerClose;;
    effect CleanupSocket;;
    Exit 0.

(** The server's ['error'] handler. *)
Definition server_error (message : string) : Async unit :=
  effect (ConsoleError message);;
  effect CleanupSocket;;
  Exit 1.

Section Handler.
Context `{Protocol}.

(** [serializeResponse(resp) + '\n']. *)
Definition frame (resp : Response) : string :=
  serializeResponse resp +:+ newline_str.

(** The body of the [while] loop of the ['data'] handler, once [line] has
    been cut off the buffer. *)
Definition process_line (c : conn) (line : string) : Async LoopCtl :=
  if JS.is_empty (JS.trim line) then Ret Continue
  else
    try_catch
      (match parseCommand line with
       | ParseFail id error =>
           effect (SocketWrite c (frame (errorResponse (default "unknown" id) error)));;
           Ret Continue
       | ParseOk command =>
           h ← get;
           (if negb (BrowserManager.isLaunched h)
               && bool_decide (cmd_action command ≠ "launch")
               && bool_decide (cmd_action command ≠ "close")
            then BrowserManager.launch auto_launch
            else Ret tt);;
           if bool_decide (cmd_action command = "close") then
             response ← executeCommand command;
             effect (SocketWrite c (frame response));;
             h ← get;
             (if negb (shuttingDown h) then
                modify (set_shuttingDown true);;
                effect (SetTimeout 100)
              else Ret tt);;
             Ret Return
           else
             response ← executeCommand command;
             effect (SocketWrite c (frame response));;
             Ret Continue
       end)
      (λ message,
         effect (SocketWrite c (frame (errorResponse "error" message)));;
         Ret Continue).

(** *** One connection, reads handled one after the other *)

(** The [while (buffer.includes('\n'))] loop.  Every turn shortens the
    buffer, so its length bounds the number of turns ([fuel]). *)
Fixpoint drain (fuel : nat) (o : Oracle) (c : conn) (buffer : string) (m : Machine)
  : string * Machine :=
  match fuel with
  | O => (buffer, m)
  | S fuel' =>
      if JS.includes JS.newline buffer then
        let newlineIdx := default 0%nat (JS.indexOf JS.newline buffer) in
        let line := JS.substring 0 newlineIdx buffer in
        let buffer := JS.substring_from (newlineIdx + 1) buffer in
        match run o (process_line c line) m with
        | (Returned Continue, m') => drain fuel' o c buffer m'
        | (_, m') => (buffer, m')
        end
      else (buffer, m)
  end.

(** The ['data'] handler run to completion on [chunk], the text
    [data.toString()] of one read: [buffer += chunk], then the loop. *)
Definition on_data (o : Oracle) (c : conn) (chunk : string) (bm : string * Machine)
  : string * Machine :=
  let buffer := fst bm +:+ chunk in
  drain (S (String.length buffer)) o c buffer (snd bm).

(** A sequence of reads on one connection. *)
Definition on_reads (o : Oracle) (c : conn) (chunks : list string) (bm : string * Machine)
  : string * Machine :=
  foldl (λ bm chunk, on_data o c chunk bm) bm chunks.

(** *** The event loop *)

(** Who is suspended: the ['data'] handler of a connection, or the signal
    handler. *)
Inductive Owner := Handler (c : conn) | Shutdown.

Record Task := mkTask {
  owner : Owner;
  pending : ExtOp;
  resume : Outcome (ret_ty pending) → Async LoopCtl
}.

Record World := mkWorld {
  machine : Machine;
  buffers : gmap conn string;      (* the [buffer] of every connection *)
  pool : list Task                 (* the suspended handlers *)
}.

Definition buffer_of (c : conn) (w : World) : string :=
  default EmptyString (buffers w !! c).

Definition set_machine (m : Machine) (w : World) : World :=
  {| machine := m; buffers := buffers w; pool := pool w |}.
Definition set_buffer (c : conn) (b : string) (w : World) : World :=
  {| machine := machine w; buffers := <[c := b]> (buffers w); pool := pool w |}.
Definition suspend (t : Task) (w : World) : World :=
  {| machine := machine w; buffers := buffers w; pool := pool w ++ [t] |}.
Definition set_pool (p : list Task) (w : World) : World :=
  {| machine := machine w; buffers := buffers w; pool := p |}.

(** The loop of the handler of connection [c], entered at its head; it
    leaves the handler suspended in the pool when a line awaits an
    external call. *)
Fixpoint pump (fuel : nat) (c : conn) (w : World) : World :=
  match fuel with
  | O => w
  | S fuel' =>
      let buffer := buffer_of c w in
      if JS.includes JS.newline buffer then
        let newlineIdx := default 0%nat (JS.indexOf JS.newline buffer) in
        let line := JS.substring 0 newlineIdx buffer in
        let w := set_buffer c (JS.substring_from (newlineIdx + 1) buffer) w in
        match advance (process_line c line) (machine w) with
        | (Finished Continue, m) => pump fuel' c (set_machine m w)
        | (Blocked op k, m) => suspend (mkTask (Handler c) op k) (set_machine m w)
        | (_, m) => set_machine m w
        end
      else w
  end.

Definition loop (c : conn) (w : World) : World :=
  pump (S (String.length (buffer_of c w))) c w.

(** What follows a synchronous segment of a handler. *)
Definition continue (ow : Owner) (r : Status LoopCtl * Machine) (w : World) : World :=
  match r with
  | (Blocked op k, m) => suspend (mkTask ow op k) (set_machine m w)
  | (Finished Continue, m) =>
      match ow with
      | Handler c => loop c (set_machine m w)
      | Shutdown => set_machine m w
      end
  | (_, m) => set_machine m w
  end.

(** The values with which the environment settles a pending call. *)
Inductive Val := VHandle (n : handle) | VUnit | VJson (j : json).

Definition cast_val (op : ExtOp) (v : Val) : option (ret_ty op) :=
  match op, v with
  | LauncherLaunch _ _, VHandle n | NewContext _ _, VHandle n | NewPage _, VHandle n => Some n
  | PageClose _, VUnit | ContextClose _, VUnit | BrowserClose _, VUnit => Some tt
  | RunAction _ _, VJson j => Some j
  | _, _ => None
  end.

Definition cast (op : ExtOp) (r : Outcome Val) : option (Outcome (ret_ty op)) :=
  match r with
  | Resolved v => Resolved <$> cast_val op v
  | Rejected e => Some (Rejected e)
  end.

(** What the environment can do to a running daemon. *)
Inductive Label :=
| Data (c : conn) (chunk : string)       (* a read on connection [c] *)
| Settle (i : nat) (r : Outcome Val)     (* the pending call of task [i] settles *)
| Signal                                 (* SIGINT or SIGTERM *)
| TimerFire                              (* a grace timer expires *)
| ServerError (message : string).        (* the server emits ['error'] *)

Definition fire (l : Label) (w : World) : option World :=
  match exited (machine w) with
  | Some _ => None
  | None =>
      match l with
      | Data c chunk =>
          Some (loop c (set_buffer c (buffer_of c w +:+ chunk) w))
      | Settle i r =>
          t ← pool w !! i;
          r' ← cast (pending t) r;
          let w := set_pool (delete i (pool w)) w in
          Some (continue (owner t) (advance (resume t r') (machine w)) w)
      | Signal =>
          Some (continue Shutdown (advance (shutdown;; Ret Return) (machine w)) w)
      | TimerFire =>
          match timers (machine w) with
          | O => None
          | S n =>
              let m := machine w in
              let m := {| heap := heap m; os := os m; listening := listening m;
                          timers := n; exited := exited m; trace := trace m;
                          calls := calls m |} in
              Some (continue Shutdown (advance (grace_callback;; Ret Return) m) w)
          end
      | ServerError message =>
          Some (continue Shutdown (advance (server_error message;; Ret Return) (machine w)) w)
      end
  end.

(** A schedule: the labels in the order in which they occur. *)
Fixpoint fire_all (ls : list Label) (w : World) : option World :=
  match ls with
  | [] => Some w
  | l :: ls => w' ← fire l w; fire_all ls w'
  end.

(** *** Start-up *)

(** [server.listen(path)]: binding fails when the path exists. *)
Definition listen (path : string) (pid : Z) (os : OS) : option OS :=
  if existsSync path os then None
  else Some (with_files (<[path := Socket pid]> (files os)) os).

Definition boot (os : OS) : Machine :=
  {| heap := {| state := BrowserManager.initial; shuttingDown := false |};
     os := os; listening := false; timers := 0; exited := None; trace := []; calls := 0 |}.

Definition serving (m : Machine) : Machine :=
  {| heap := heap m; os := os m; listening := true; timers := timers m;
     exited := exited m; trace := trace m; calls := calls m |}.

(** [startDaemon()] run by process [pid]: the artefacts are cleaned, the
    marker is written, the socket is bound; a failed bind is reported to
    the ['error'] handler. *)
Definition startDaemon (pid : Z) (os : OS) : World :=
  let os := cleanupSocket os in
  let os := writeFileSync PID_FILE (pretty pid) os in
  let w := {| machine := boot os; buffers := ∅; pool := [] |} in
  match listen SOCKET_PATH pid os with
  | Some os' => set_machine (serving (boot os')) w
  | None =>
      continue Shutdown (advance (server_error "EADDRINUSE";; Ret Return) (machine w)) w
  end.

(** The states a daemon started by [startDaemon] can reach. *)
Inductive reachable (pid : Z) (os : OS) : World → Prop :=
| reach_start : reachable pid os (startDaemon pid os)
| reach_fire l w w' :
    reachable pid os w → fire l w = Some w' → reachable pid os w'.

End Handler.

(** ** A codec for the wire protocol *)

(** Modelled from the spec: [protocol.ts] is not part of the sources.  A
    frame is one JSON object on one line; a request carries a string [id]
    and an [action] out of a fixed set; decoding rejects text that is not
    well-formed, a missing id and a missing or unknown action, recovering
    the id where it can.  The codec covers the JSON subset whose numbers are
    integer literals and whose strings hold 8-bit code units. *)
Module Codec.

Definition quote : ascii := "034"%char.
Definition backslash : ascii := "092"%char.

(** A string literal of the wire format: [q "id"] is the text of the JSON
    string for id. *)
Definition q (s : string) : string :=
  String quote s +:+ String quote EmptyString.

Fixpoint skip_ws (s : string) : string :=
  match s with
  | String a r =>
      match a with
      | " " | "009" | "010" | "013" => skip_ws r
      | _ => s
      end%char
  | EmptyString => EmptyString
  end.

(** [literal w v s]: the rest of a keyword. *)
Fixpoint literal (w : string) (v : json) (s : string) : option (json * string) :=
  match w with
  | EmptyString => Some (v, s)
  | String a w' =>
      match s with
      | String b r => if Ascii.eqb a b then literal w' v r else None
      | EmptyString => None
      end
  end.

(** The body of a string literal, after its opening quote. *)
Fixpoint string_body (s : string) : option (string * string) :=
  match s with
  | EmptyString => None
  | String a r =>
      if Ascii.eqb a quote then Some (EmptyString, r)
      else if Ascii.eqb a backslash then
        match r with
        | String e r' =>
            c ← match e with
                | "034" => Some "034" | "092" => Some "092" | "/" => Some "/"
                | "b" => Some "008" | "f" => Some "012" | "n" => Some "010"
                | "r" => Some "013" | "t" => Some "009" | _ => None
                end%char;
            '(body, rest) ← string_body r';
            Some (String c body, rest)
        | EmptyString => None
        end
      else if (N_of_ascii a <? 32)%N then None
      else '(body, rest) ← string_body r; Some (String a body, rest)
  end.

Definition number (s : string) : option (json * string) :=
  let '(neg, s) := match s with
                   | String "-" r => (true, r)
                   | _ => (false, s)
                   end%char in
  let fix rest_of (s : string) : string :=
    match s with
    | String a r => match JS.digit a with Some _ => rest_of r | None => s end
    | EmptyString => EmptyString
    end in
  n ← JS.digits None s;
  Some (JNum (if neg then - n else n), rest_of s).

Fixpoint value (fuel : nat) (s : string) : option (json * string) :=
  match fuel with
  | O => None
  | S f =>
      match skip_ws s with
      | String "n" r => literal "ull" JNull r
      | String "t" r => literal "rue" (JBool true) r
      | String "f" r => literal "alse" (JBool false) r
      | String "034" r => '(str, r') ← string_body r; Some (JStr str, r')
      | String "[" r =>
          match skip_ws r with
          | String "]" r' => Some (JArr [], r')
          | _ => '(items, r') ← elements f r; Some (JArr items, r')
          end
      | String "{" r =>
          match skip_ws r with
          | String "}" r' => Some (JObj [], r')
          | _ => '(ms, r') ← members f r; Some (JObj ms, r')
          end
      | r => number r
      end%char
  end
with elements (fuel : nat) (s : string) : option (list json * string) :=
  match fuel with
  | O => None
  | S f =>
      '(v, r) ← value f s;
      match skip_ws r with
      | String "," r' => '(vs, r'') ← elements f r'; Some (v :: vs, r'')
      | String "]" r' => Some ([v], r')
      | _ => None
      end%char
  end
with members (fuel : nat) (s : string) : option (list (string * json) * string) :=
  match fuel with
  | O => None
  | S f =>
      match skip_ws s with
      | String "034" r =>
          '(key, r) ← string_body r;
          match skip_ws r with
          | String ":" r =>
              '(v, r) ← value f r;
              match skip_ws r with
              | String "," r' => '(ms, r'') ← members f r'; Some ((key, v) :: ms, r'')
              | String "}" r' => Some ([(key, v)], r')
              | _ => None
              end
          | _ => None
          end
      | _ => None
      end%char
  end.

(** [JSON.parse]: [None] for a syntax error. *)
Definition parse (s : string) : option json :=
  '(v, r) ← value (2 * String.length s + 2) s;
  match skip_ws r with
  | EmptyString => Some v
  | _ => None
  end.

(** Property access on a parsed object; a repeated key takes its last
    value. *)
Fixpoint field (k : string) (ms : list (string * json)) : option json :=
  match ms with
  | [] => None
  | (k', v) :: ms =>
      match field k ms with
      | Some v' => Some v'
      | None => if bool_decide (k = k') then Some v else None
      end
  end.

Definition as_string (j : option json) : option string :=
  match j with Some (JStr s) => Some s | _ => None end.
Definition as_bool (j : option json) : option bool :=
  match j with Some (JBool b) => Some b | _ => None end.
Definition as_viewport (j : option json) : option Viewport :=
  match j with
  | Some (JObj ms) =>
      match field "width" ms, field "height" ms with
      | Some (JNum w), Some (JNum h) => Some {| width := w; height := h |}
      | _, _ => None
      end
  | _ => None
  end.

Definition actions : list string :=
  [ "navigate"; "click"; "type"; "press"; "wait"; "screenshot"; "snapshot";
    "content"; "evaluate"; "scroll"; "hover"; "select"; "launch"; "close" ].

(** The spec's decode. *)
Definition decode (line : string) : ParseResult :=
  match parse line with
  | None => ParseFail None "Invalid JSON: the frame is malformed"
  | Some (JObj ms) =>
      match as_string (field "id" ms) with
      | None => ParseFail None "Missing id"
      | Some id =>
          match as_string (field "action" ms) with
          | None => ParseFail (Some id) "Missing action"
          | Some a =>
              if bool_decide (a ∈ actions) then
                ParseOk {| cmd_id := id; cmd_action := a;
                           cmd_browser := as_string (field "browser" ms);
                           cmd_headless := as_bool (field "headless" ms);
                           cmd_viewport := as_viewport (field "viewport" ms);
                           cmd_params := ms |}
              else ParseFail (Some id) ("Unknown action: " +:+ a)
          end
      end
  | Some _ => ParseFail None "Invalid command: the frame is not an object"
  end.

Definition hex_digit (n : N) : ascii :=
  ascii_of_N (if (n <? 10)%N then 48 + n else 87 + n).

(** The text of a string value, escaped so that it holds no raw control
    character, in particular no newline. *)
Fixpoint escape (s : string) : string :=
  match s with
  | EmptyString => EmptyString
  | String a r =>
      (if Ascii.eqb a quote then String backslash (String quote EmptyString)
       else if Ascii.eqb a backslash then String backslash (String backslash EmptyString)
       else if Ascii.eqb a "010" then String backslash "n"
       else if Ascii.eqb a "013" then String backslash "r"
       else if Ascii.eqb a "009" then String backslash "t"
       else if (N_of_ascii a <? 32)%N then
         String backslash "u00" +:+
         String (hex_digit (N_of_ascii a / 16)) (String (hex_digit (N_of_ascii a mod 16)) EmptyString)
       else String a EmptyString) +:+ escape r
  end.

Definition join (sep : string) (l : list string) : string :=
  match l with
  | [] => EmptyString
  | x :: l => foldl (λ acc y, acc +:+ sep +:+ y) x l
  end.

(** [JSON.stringify]. *)
Fixpoint stringify (j : json) : string :=
  match j with
  | JNull => "null"
  | JBool true => "true"
  | JBool false => "false"
  | JNum n => pretty n
  | JStr s => q (escape s)
  | JArr items => "[" +:+ join "," (map stringify items) +:+ "]"
  | JObj ms =>
      "{" +:+ join "," (map (λ kv, q (escape (fst kv)) +:+ ":" +:+ stringify (snd kv)) ms) +:+ "}"
  end.

(** The spec's encode. *)
Definition encode (resp : Response) : string :=
  stringify (JObj (
    [("id", JStr (resp_id resp)); ("success", JBool (success resp))]
    ++ match data resp with Some d => [("data", d)] | None => [] end
    ++ match error resp with Some e => [("error", JStr e)] | None => [] end)).

#[export] Instance protocol : Protocol :=
  {| parseCommand := decode; serializeResponse := encode |}.

(** The request frames [{"id":id,"action":action}] and
    [{"id":id,"action":action,"url":url}], without their newline. *)
Definition request (id action : string) : string :=
  "{" +:+ q "id" +:+ ":" +:+ q id +:+ "," +:+ q "action" +:+ ":" +:+ q action +:+ "}".

Definition navigate (id url : string) : string :=
  "{" +:+ q "id" +:+ ":" +:+ q id +:+ "," +:+ q "action" +:+ ":" +:+ q "navigate"
      +:+ "," +:+ q "url" +:+ ":" +:+ q url +:+ "}".

End Codec.

(** ** Observations used to state the properties *)

(** The close calls that [BrowserManager.close] issues from a given state:
    page, context, browser, each only when set. *)
Definition closes_of (s : BrowserState) : list ExtOp :=
  match page s with Some p => [PageClose p] | None => [] end ++
  match context s with Some c => [ContextClose c] | None => [] end ++
  match browser s with Some b => [BrowserClose b] | None => [] end.

Fixpoint count (f : Event → bool) (tr : list Event) : nat :=
  match tr with
  | [] => 0%nat
  | ev :: tr => ((if f ev then 1 else 0) + count f tr)%nat
  end.

Definition is_launch (ev : Event) : bool :=
  match ev with Called (LauncherLaunch _ _) => true | _ => false end.
Definition is_timeout (ev : Event) : bool :=
  match ev with Did (SetTimeout _) => true | _ => false end.
Definition is_server_close (ev : Event) : bool :=
  match ev with Did ServerClose => true | _ => false end.
Definition is_cleanup (ev : Event) : bool :=
  match ev with Did CleanupSocket => true | _ => false end.
Definition is_exit (ev : Event) : bool :=
  match ev with Exited _ => true | _ => false end.

Definition is_write (ev : Event) : bool :=
  match ev with Did (SocketWrite _ _) => true | _ => false end.
Definition is_grace (ev : Event) : bool :=
  match ev with Did (SetTimeout ms) => bool_decide (ms = 100) | _ => false end.

(** Every [setTimeout] of a trace is a grace timer of 100 ms that comes
    directly after a write to a socket; [prev] tells whether the event
    before the trace is such a write. *)
Fixpoint armed_from (prev : bool) (tr : list Event) : bool :=
  match tr with
  | [] => true
  | ev :: tr =>
      (if is_timeout ev then prev && is_grace ev else true) && armed_from (is_write ev) tr
  end.

Fixpoint last_is_write (prev : bool) (tr : list Event) : bool :=
  match tr with
  | [] => prev
  | ev :: tr => last_is_write (is_write ev) tr
  end.

(** The socket output of a trace, per connection and in order. *)
Definition written (c : conn) (tr : list Event) : list string :=
  omap (λ ev, match ev with
              | Did (SocketWrite c' s) => if bool_decide (c' = c) then Some s else None
              | _ => None
              end) tr.

(** The stream of a connection cut at its newlines: the complete lines, and
    the text after the last newline. *)
Fixpoint split_lines (s : string) : list string * string :=
  match s with
  | EmptyString => ([], EmptyString)
  | String a r =>
      let '(ls, part) := split_lines r in
      if Ascii.eqb a JS.newline then (EmptyString :: ls, part)
      else match ls with
           | [] => ([], String a part)
           | l :: ls => (String a l :: ls, part)
           end
  end.

Definition lines (s : string) : list string := fst (split_lines s).

(** A text without newline. *)
Definition newline_free (s : string) : Prop := JS.indexOf JS.newline s = None.

(** The text of a list of lines, each closed by its newline. *)
Fixpoint unlines (ls : list string) : string :=
  match ls with
  | [] => EmptyString
  | l :: ls => l +:+ newline_str +:+ unlines ls
  end.

(** The whole stream of a sequence of reads. *)
Definition stream (chunks : list string) : string :=
  foldr String.app EmptyString chunks.

Section Observations.
Context `{Protocol}.

(** A line that the handler takes for a close command. *)
Definition is_close (line : string) : bool :=
  negb (JS.is_empty (JS.trim line)) &&
  match parseCommand line with
  | ParseOk command => bool_decide (cmd_action command = "close")
  | ParseFail _ _ => false
  end.

(** The lines up to and including the first close command. *)
Fixpoint upto_close (ls : list string) : list string :=
  match ls with
  | [] => []
  | l :: ls => if is_close l then [l] else l :: upto_close ls
  end.

(** The loop of the handler over lines already cut: it stops after the
    first line on which the body does not continue, and yields the lines
    left. *)
Fixpoint dispatch (o : Oracle) (c : conn) (ls : list string) (m : Machine)
  : list string * Machine :=
  match ls with
  | [] => ([], m)
  | l :: ls =>
      match run o (process_line c l) m with
      | (Returned Continue, m') => dispatch o c ls m'
      | (_, m') => (ls, m')
      end
  end.

(** The given lines dispatched one after the other, each exactly once. *)
Definition dispatch_all (o : Oracle) (c : conn) (ls : list string) (m : Machine) : Machine :=
  foldl (λ m line, snd (run o (process_line c line) m)) m ls.

(** The number of suspended signal handlers. *)
Definition is_shutdown_task (t : Task) : bool :=
  match owner t with Shutdown => true | Handler _ => false end.

Definition shutdowns_in_flight (w : World) : nat :=
  (timers (machine w) + length (List.filter is_shutdown_task (pool w)))%nat.

End Observations.

(** ** Reasoning about asynchronous code *)

(** [returns Q c]: whatever the heap and the outcomes of its calls, [c]
    neither throws nor exits, and its result satisfies [Q]. *)
Fixpoint returns {A : Type} (Q : A → Prop) (c : Async A) : Prop :=
  match c with
  | Ret a => Q a
  | Throw _ | Exit _ => False
  | Get k => ∀ h, returns Q (k h)
  | Put _ k | Do _ k => returns Q k
  | Await _ k => ∀ r, returns Q (k r)
  end.

(** [ends Q c]: [c] never exits, and when it returns its result satisfies
    [Q]; it may throw. *)
Fixpoint ends {A : Type} (Q : A → Prop) (c : Async A) : Prop :=
  match c with
  | Ret a => Q a
  | Throw _ => True
  | Exit _ => False
  | Get k => ∀ h, ends Q (k h)
  | Put _ k | Do _ k => ends Q k
  | Await _ k => ∀ r, ends Q (k r)
  end.

(** [obeys P R X c m0 m]: the segment of [c] that started in machine [m0]
    and has reached [m] ends in a machine related to [m0], by [X] when it
    ends in [process.exit] and by [R] otherwise; and so does every later
    segment of [c], whatever the outcome it is resumed with, in any machine
    that satisfies [P]. *)
Fixpoint obeys {A : Type} (P : Machine → Prop) (R X : Machine → Machine → Prop)
    (c : Async A) (m0 m : Machine) : Prop :=
  match c with
  | Ret _ | Throw _ => R m0 m
  | Get k => obeys P R X (k (heap m)) m0 m
  | Put h k => obeys P R X k m0 (set_heap h m)
  | Do e k => obeys P R X k m0 (perform e m)
  | Exit code => X m0 (halt code m)
  | Await op k => R m0 (issue op m) ∧ ∀ r m1, P m1 → obeys P R X (k r) m1 m1
  end.

(** ** What shutdown depends on *)

(** The part of a machine that the shutdown paths read and change. *)
Record Footprint := mkFootprint {
  f_exited : option Z;             (* the exit status *)
  f_flag : bool;                   (* [shuttingDown] *)
  f_timers : nat;                  (* grace timers pending *)
  f_timeouts : nat;                (* [setTimeout] calls so far *)
  f_closes : nat;                  (* [server.close()] calls so far *)
  f_cleanups : nat;                (* [cleanupSocket()] calls so far *)
  f_exits : nat                    (* [process.exit] calls so far *)
}.

Definition footprint (m : Machine) : Footprint :=
  {| f_exited := exited m;
     f_flag := shuttingDown (heap m);
     f_timers := timers m;
     f_timeouts := count is_timeout (trace m);
     f_closes := count is_server_close (trace m);
     f_cleanups := count is_cleanup (trace m);
     f_exits := count is_exit (trace m) |}.

(** What a segment of a ['data'] handler may do: it never tears down or
    exits; it arms the grace timer at most once, and only by taking the
    flag from false to true. *)
Definition handler_step (m0 m : Machine) : Prop :=
  let a := footprint m0 in
  let b := footprint m in
  f_exited b = f_exited a ∧ f_closes b = f_closes a ∧
  f_cleanups b = f_cleanups a ∧ f_exits b = f_exits a ∧
  ((f_timeouts b = f_timeouts a ∧ f_timers b = f_timers a ∧
    (f_flag a = true → f_flag b = true)) ∨
   (f_flag a = false ∧ f_flag b = true ∧
    f_timeouts b = S (f_timeouts a) ∧ f_timers b = S (f_timers a))).

(** What a segment of the signal handler may do before it tears down: it
    holds the flag and changes nothing else of the footprint. *)
Definition shutdown_step (m0 m : Machine) : Prop :=
  let a := footprint m0 in
  let b := footprint m in
  f_exited b = f_exited a ∧ f_closes b = f_closes a ∧
  f_cleanups b = f_cleanups a ∧ f_exits b = f_exits a ∧
  f_timeouts b = f_timeouts a ∧ f_timers b = f_timers a ∧ f_flag b = true.

(** The segment that tears down: one [server.close()] at most, one
    [cleanupSocket()], one [process.exit]. *)
Definition teardown_step (m0 m : Machine) : Prop :=
  let a := footprint m0 in
  let b := footprint m in
  is_Some (f_exited b) ∧
  (f_closes b ≤ S (f_closes a))%nat ∧
  f_cleanups b = S (f_cleanups a) ∧ f_exits b = S (f_exits a) ∧
  f_timeouts b = f_timeouts a ∧ f_timers b = f_timers a ∧
  (f_flag a = true → f_flag b = true).

Definition never (m0 m : Machine) : Prop := False.
Definition always (m : Machine) : Prop := True.
Definition flag_held (m : Machine) : Prop := shuttingDown (heap m) = true.

(** What any segment may do to the order of the trace: it arms the grace
    timer only directly after a write. *)
Definition in_order (m0 m : Machine) : Prop :=
  armed_from false (trace m0) = true → armed_from false (trace m) = true.

Section Invariant.
Context `{Protocol}.

(** A suspended handler keeps to its discipline whatever it is resumed
    with. *)
Definition task_ok (t : Task) : Prop :=
  match owner t with
  | Handler _ => ∀ r m, obeys always handler_step never (resume t r) m m
  | Shutdown =>
      ∀ r m, flag_held m → obeys flag_held shutdown_step teardown_step (resume t r) m m
  end.

(** The invariant of the event loop. *)
Definition settled (w : World) : Prop :=
  let f := footprint (machine w) in
  let suspended := length (List.filter is_shutdown_task (pool w)) in
  (f_exited f = None → f_closes f = 0 ∧ f_cleanups f = 0 ∧ f_exits f = 0)%nat ∧
  (f_closes f ≤ 1 ∧ f_cleanups f ≤ 1 ∧ f_exits f ≤ 1)%nat ∧
  (f_timers f ≤ f_timeouts f)%nat ∧
  (f_timeouts f + suspended ≤ 1)%nat ∧
  (1 ≤ f_timeouts f + suspended → f_flag f = true)%nat ∧
  Forall task_ok (pool w).

(** The invariant of the event loop about the order of the trace. *)
Definition ordered (w : World) : Prop :=
  armed_from false (trace (machine w)) = true ∧
  Forall (λ t, ∀ r m, obeys always in_order in_order (resume t r) m m) (pool w).

End Invariant.

(** [safe P R X c]: [c] can be run from any point of a segment that [R]
    allows. *)
Definition safe {A : Type} (P : Machine → Prop) (R X : Machine → Machine → Prop)
    (c : Async A) : Prop :=
  ∀ m0 m, R m0 m → obeys P R X c m0 m.

(** ** The artefacts on a shared host

    [OS] above is the host as the daemon leaves it: every artefact can be
    unlinked and every process can be signalled.  [isDaemonRunning] and
    [cleanupSocket] are exported and also meet a temporary directory that
    is shared: an artefact left by another user, a directory at one of the
    paths, a recorded process that belongs to somebody else, a marker that
    holds anything.  The two functions are therefore given once more over
    the four calls they make, each of which may throw. *)

Class Host (St : Type) := {
  host_existsSync : string → St → bool;           (* [fs.existsSync(p)] *)
  host_unlinkSync : string → St → option St;      (* [fs.unlinkSync(p)] *)
  host_readFileSync : string → St → option string; (* [fs.readFileSync(p, 'utf8')] *)
  host_kill0 : option Z → St → option unit        (* [process.kill(pid, 0)] *)
}.

Module Artefacts.
Section Artefacts.
Context `{Host St}.

(** [cleanupSocket]: one [try] around the two guarded [unlinkSync]; the
    first call that throws ends the function through the empty [catch]. *)
Definition cleanupSocket (s : St) : St :=
  match (if host_existsSync SOCKET_PATH s then host_unlinkSync SOCKET_PATH s
         else Some s) with
  | None => s
  | Some s1 =>
      match (if host_existsSync PID_FILE s1 then host_unlinkSync PID_FILE s1
             else Some s1) with
      | None => s1
      | Some s2 => s2
      end
  end.

(** [isDaemonRunning]: whatever is thrown between the read of the marker
    and the probe is caught, the clean-up runs and the answer is false. *)
Definition isDaemonRunning (s : St) : bool * St :=
  if negb (host_existsSync PID_FILE s) then (false, s)
  else
    match
      content ← host_readFileSync PID_FILE s;
      host_kill0 (JS.parseInt (JS.trim content)) s
    with
    | Some _ => (true, s)
    | None => (false, cleanupSocket s)
    end.

End Artefacts.
End Artefacts.

(** The host of the daemon's own runs. *)
#[export] Instance own_host : Host OS := {|
  host_existsSync := existsSync;
  host_unlinkSync := unlinkSync;
  host_readFileSync := readFileSync;
  host_kill0 := process_kill0
|}.

Module Unix.

(** What a path holds. *)
Inductive Kind :=
| Regular (content : string)
| Socket
| Directory.

(** [readable]: the caller may open the entry for reading.  [removable]:
    the caller may unlink it; in a sticky temporary directory that is the
    owner of the entry. *)
Record Entry := mkEntry {
  kind : Kind;
  readable : bool;
  removable : bool
}.

(** [processes] maps each process id that exists to whether the caller is
    allowed to signal it.  [groups] holds the [g] for which [kill(-g, 0)]
    succeeds: the ids of the process groups in which the caller may signal
    a process, and 1 when [kill(-1, 0)], which addresses every process,
    finds one. *)
Record State := mkState {
  entries : gmap string Entry;
  processes : gmap Z bool;
  groups : gset Z
}.

Definition with_entries (f : gmap string Entry) (s : State) : State :=
  {| entries := f; processes := processes s; groups := groups s |}.

Definition existsSync (p : string) (s : State) : bool :=
  bool_decide (is_Some (entries s !! p)).

(** [unlink(2)]: [ENOENT] for a missing path, [EISDIR] or [EPERM] for a
    directory, [EPERM] or [EACCES] for an entry of somebody else. *)
Definition unlinkSync (p : string) (s : State) : option State :=
  match entries s !! p with
  | Some e =>
      match kind e with
      | Directory => None
      | _ => if removable e then Some (with_entries (delete p (entries s)) s) else None
      end
  | None => None
  end.

(** [ENOENT], [EISDIR], [ENXIO] for a socket, [EACCES]. *)
Definition readFileSync (p : string) (s : State) : option string :=
  match entries s !! p with
  | Some e =>
      match kind e with
      | Regular content => if readable e then Some content else None
      | _ => None
      end
  | None => None
  end.

Definition int32 (n : Z) : bool := (-2147483648 <=? n) && (n <=? 2147483647).

(** [process.kill(pid, 0)].  Node throws a [TypeError] unless [pid] is a
    32-bit integer; then [kill(2)] with signal 0: a positive [pid] names one
    process ([ESRCH] when there is none, [EPERM] when the caller may not
    signal it); 0 is the caller's own process group, in which the caller is;
    a negative [pid] is the process group [-pid], or every process for
    -1. *)
Definition process_kill0 (pid : option Z) (s : State) : option unit :=
  match pid with
  | None => None
  | Some n =>
      if negb (int32 n) then None
      else if 0 <? n then
        match processes s !! n with
        | Some true => Some tt
        | _ => None
        end
      else if n =? 0 then Some tt
      else if bool_decide (- n ∈ groups s) then Some tt else None
  end.

#[global] Instance host : Host State := {|
  host_existsSync := existsSync;
  host_unlinkSync := unlinkSync;
  host_readFileSync := readFileSync;
  host_kill0 := process_kill0
|}.

(** [unlink(p)] would succeed or has nothing to do. *)
Definition clearable (p : string) (s : State) : bool :=
  match entries s !! p with
  | Some e =>
      match kind e with
      | Directory => false
      | _ => removable e
      end
  | None => true
  end.

End Unix.

(** The daemon's own host seen as a shared one: every entry is the caller's
    and every process may be signalled. *)
Definition shared_file (f : File) : Unix.Entry :=
  match f with
  | Regular content => Unix.mkEntry (Unix.Regular content) true true
  | Socket _ => Unix.mkEntry Unix.Socket true true
  end.

Definition shared (os : OS) : Unix.State :=
  {| Unix.entries := shared_file <$> files os;
     Unix.processes := gset_to_gmap true (procs os);
     Unix.groups := ∅ |}.

(** ** Further observations *)

(** A text without white space. *)
Fixpoint spaceless (s : string) : bool :=
  match s with
  | EmptyString => true
  | String a r => negb (JS.is_space a) && spaceless r
  end.

(** [responds c T Q w body]: along every path, whatever the heap it reads
    and the outcomes of its calls, [body] never exits and writes to no socket
    but that of connection [c], and at most once; [w] tells whether the
    write has happened.  It may return a result [a] with [Q w a] and throw
    with [T w], for the final [w]. *)
Fixpoint responds {A : Type} (c : conn) (T : bool → Prop) (Q : bool → A → Prop)
    (w : bool) (body : Async A) : Prop :=
  match body with
  | Ret a => Q w a
  | Throw _ => T w
  | Exit _ => False
  | Get k => ∀ h, responds c T Q w (k h)
  | Put _ k => responds c T Q w k
  | Do (SocketWrite c' _) k => c' = c ∧ w = false ∧ responds c T Q true k
  | Do _ k => responds c T Q w k
  | Await _ k => ∀ r, responds c T Q w (k r)
  end.

(** The throws and returns of code that has not answered yet, and of code
    that has. *)
Definition unanswered (w : bool) : Prop := w = false.
Definition answered {A : Type} (w : bool) (_ : A) : Prop := w = true.
Definition no_throw (w : bool) : Prop := False.

(** What a run from [m] to [m'] has written: one frame more on connection
    [c] when [w] went from false to true, nothing otherwise; nothing on any
    other connection; and the process has not exited. *)
Definition wrote (c : conn) (w w' : bool) (m m' : Machine) : Prop :=
  (∀ c', c' ≠ c → written c' (trace m') = written c' (trace m)) ∧
  exited m' = exited m ∧
  ((w' = w ∧ written c (trace m') = written c (trace m)) ∨
   (w = false ∧ w' = true ∧
    ∃ frame, written c (trace m') = written c (trace m) ++ [frame])).

(** What a segment that does not tear down leaves alone: the file system,
    the listening server and the exit status. *)
Definition untouched (m0 m : Machine) : Prop :=
  os m = os m0 ∧ listening m = listening m0 ∧ exited m = exited m0.

(** A segment that ends in [process.exit]. *)
Definition gone (m0 m : Machine) : Prop := is_Some (exited m).

(** The invariant of the event loop about the artefacts: as long as the
    process has not exited, the file system is the one [startDaemon] left
    and the server listens. *)
Definition in_service (os1 : OS) (w : World) : Prop :=
  (exited (machine w) = None → os (machine w) = os1 ∧ listening (machine w) = true) ∧
  Forall (λ t, ∀ r m, obeys always untouched gone (resume t r) m m) (pool w).

(** A process is killed out of band: it is gone, the files it left stay. *)
Definition kill (pid : Z) (os : OS) : OS :=
  {| files := files os; procs := procs os ∖ {[ pid ]} |}.

(** ** Reads as bytes *)

(** [data.toString()]: the UTF-8 decoding that Node applies to the bytes of
    one read.  It belongs to the runtime and is a parameter here; the
    handler applies it to each read on its own, so a character whose bytes
    are cut by the end of a read is not decoded as it is in the whole
    stream. *)
Class Decoder := toString : list Byte.byte → string.

(** A decoder for the scenarios: one code unit per byte, which is what UTF-8
    gives on ASCII bytes. *)
Definition one_unit_per_byte : Decoder := String.string_of_list_byte.

Section Chunks.
Context `{Protocol} `{Decoder}.

(** The ['data'] handler on the [Buffer] of one read:
    [buffer += data.toString()], then the loop. *)
Definition on_chunk (o : Oracle) (c : conn) (data : list Byte.byte)
    (bm : string * Machine) : string * Machine :=
  on_data o c (toString data) bm.

(** Successive reads, each handled to completion. *)
Definition on_chunks (o : Oracle) (c : conn) (reads : list (list Byte.byte))
    (bm : string * Machine) : string * Machine :=
  foldl (λ bm data, on_chunk o c data bm) bm reads.

End Chunks.

(** ** [index.ts]: the command line client

    [main] is modelled as a function of the arguments after the script
    name, of the id drawn by [genId] and of the answer of [send] (the
    transport in [client.ts] is not part of the sources).  What is printed is
    recorded as the calls to [console.log] and [console.error] with their
    arguments; the rendering of a value by the console and by
    [JSON.stringify] is left to them. *)

Module Cli.

(** The values of the fields of a command object. *)
Inductive jsval :=
| Undefined
| Str (s : string)
| Num (n : Z)
| Bool (b : bool).

Definition Cmd := list (string * jsval).

(** *** ANSI colours *)

Inductive Color := Reset | Bold | Dim | Red | Green | Yellow | Blue | Magenta | Cyan.

Definition esc : string := String "027"%char "[".

Definition colors (color : Color) : string :=
  esc +:+ match color with
          | Reset => "0m" | Bold => "1m" | Dim => "2m" | Red => "31m" | Green => "32m"
          | Yellow => "33m" | Blue => "34m" | Magenta => "35m" | Cyan => "36m"
          end.

(** [c(color, text)]. *)
Definition c (color : Color) (text : string) : string :=
  colors color +:+ text +:+ colors Reset.

(** *** Array and string primitives *)

Fixpoint startsWith (prefix s : string) : bool :=
  match prefix, s with
  | EmptyString, _ => true
  | String a p, String b r => Ascii.eqb a b && startsWith p r
  | String _ _, EmptyString => false
  end.

Definition includes (x : string) (l : list string) : bool := bool_decide (x ∈ l).

Fixpoint findIndex (f : string → bool) (l : list string) : option nat :=
  match l with
  | [] => None
  | x :: l => if f x then Some 0%nat else S <$> findIndex f l
  end.

(** [l.join(sep)]. *)
Definition join (sep : string) (l : list string) : string :=
  match l with
  | [] => EmptyString
  | x :: l => foldl (λ acc y, acc +:+ sep +:+ y) x l
  end.

(** [!x] for a string that may be undefined. *)
Definition falsy (x : option string) : bool :=
  match x with
  | None => true
  | Some s => JS.is_empty s
  end.

(** A field that may be undefined. *)
Definition opt (x : option string) : jsval :=
  match x with Some s => Str s | None => Undefined end.

(** [parseInt(x, 10) || 300]: [NaN] and zero give 300. *)
Definition or_300 (x : option string) : Z :=
  match JS.parseInt (default "undefined" x) with
  | Some n => if bool_decide (n = 0) then 300 else n
  | None => 300
  end.

(** *** The arguments *)

Definition is_selector_flag (a : string) : bool :=
  bool_decide (a = "--selector") || bool_decide (a = "-s").

(** [args.filter((a, i) => ...)]: the arguments that start with a dash are
    dropped, and so is the argument after [--selector] or [-s]; [prev] is
    [args[i - 1]]. *)
Fixpoint cleanArgs_from (prev : option string) (args : list string) : list string :=
  match args with
  | [] => []
  | a :: rest =>
      (if startsWith "-" a then []
       else if from_option is_selector_flag false prev then []
       else [a]) ++ cleanArgs_from (Some a) rest
  end.

Definition cleanArgs (args : list string) : list string := cleanArgs_from None args.

(** The value of [--selector]: the argument after the first [--selector] or
    [-s], when it is there and not empty. *)
Definition selectorOverride (args : list string) : option string :=
  match findIndex is_selector_flag args with
  | Some sIdx =>
      if falsy (args !! (sIdx + 1)%nat) then None else args !! (sIdx + 1)%nat
  | None => None
  end.

Definition debugMode (args : list string) : bool := includes "--debug" args.
Definition jsonMode (args : list string) : bool := includes "--json" args.
Definition fullPage (args : list string) : bool :=
  includes "--full" args || includes "-f" args.
Definition textMode (args : list string) : bool :=
  includes "--text" args || includes "-t" args.

(** *** The command *)

(** How the first part of [main] ends: with the help screen and status 0,
    with lines on [console.error] and status 1, or with the command to
    send. *)
Inductive Parsed :=
| Help
| Usage (errors : list (list string))
| Send (cmd : Cmd).

Definition required (what : string) : Parsed :=
  Usage [[c Red "Error:"; what]].

(** The [switch] of [main]. *)
Definition command_of (args : list string) (id : string) : Parsed :=
  let clean := cleanArgs args in
  let command := clean !! 0%nat in
  let sel := selectorOverride args in
  let named (names : list string) : bool :=
    match command with Some name => bool_decide (name ∈ names) | None => false end in
  if named ["open"; "goto"; "navigate"] then
    let url := clean !! 1%nat in
    if falsy url then required "URL required"
    else
      let url := default EmptyString url in
      let fullUrl := if startsWith "http" url then url else "https://" +:+ url in
      Send [("id", Str id); ("action", Str "navigate"); ("url", Str fullUrl)]
  else if named ["click"] then
    let selector := clean !! 1%nat in
    if falsy selector then required "Selector required"
    else Send [("id", Str id); ("action", Str "click"); ("selector", opt selector)]
  else if named ["type"] then
    let selector := clean !! 1%nat in
    let text := join " " (drop 2 clean) in
    if falsy selector || JS.is_empty text then required "Selector and text required"
    else Send [("id", Str id); ("action", Str "type"); ("selector", opt selector);
               ("text", Str text); ("clear", Bool true)]
  else if named ["press"] then
    let key := clean !! 1%nat in
    if falsy key then required "Key required"
    else Send [("id", Str id); ("action", Str "press"); ("key", opt key);
               ("selector", opt sel)]
  else if named ["wait"] then
    let target := clean !! 1%nat in
    if falsy target then required "Selector, text, or milliseconds required"
    else
      let target := default EmptyString target in
      match JS.parseInt target with
      | Some ms => Send [("id", Str id); ("action", Str "wait"); ("timeout", Num ms)]
      | None =>
          if textMode args then
            Send [("id", Str id); ("action", Str "wait"); ("selector", Str ("text=" +:+ target))]
          else
            Send [("id", Str id); ("action", Str "wait"); ("selector", Str target)]
      end
  else if named ["screenshot"; "ss"] then
    Send [("id", Str id); ("action", Str "screenshot"); ("path", opt (clean !! 1%nat));
          ("fullPage", Bool (fullPage args)); ("selector", opt sel)]
  else if named ["snapshot"; "aria"; "a11y"] then
    Send [("id", Str id); ("action", Str "snapshot")]
  else if named ["extract"; "html"; "content"] then
    let selector := if falsy (clean !! 1%nat) then sel else clean !! 1%nat in
    Send [("id", Str id); ("action", Str "content"); ("selector", opt selector)]
  else if named ["eval"; "js"] then
    let script := join " " (drop 1 clean) in
    if JS.is_empty script then required "Script required"
    else Send [("id", Str id); ("action", Str "evaluate"); ("script", Str script)]
  else if named ["scroll"] then
    let dirOrAmount := clean !! 1%nat in
    let amount := or_300 (clean !! 2%nat) in
    if from_option (λ d, bool_decide (d ∈ ["up"; "down"; "left"; "right"])) false dirOrAmount
    then Send [("id", Str id); ("action", Str "scroll"); ("direction", opt dirOrAmount);
               ("amount", Num amount); ("selector", opt sel)]
    else Send [("id", Str id); ("action", Str "scroll"); ("y", Num (or_300 dirOrAmount));
               ("selector", opt sel)]
  else if named ["hover"] then
    let selector := clean !! 1%nat in
    if falsy selector then required "Selector required"
    else Send [("id", Str id); ("action", Str "hover"); ("selector", opt selector)]
  else if named ["select"] then
    let selector := clean !! 1%nat in
    let value := clean !! 2%nat in
    if falsy selector || falsy value then required "Selector and value required"
    else Send [("id", Str id); ("action", Str "select"); ("selector", opt selector);
               ("values", opt value)]
  else if named ["close"; "quit"; "exit"] then
    Send [("id", Str id); ("action", Str "close")]
  else
    Usage [[c Red "Error:"; "Unknown command: " +:+ default "undefined" command];
           [c Dim "Run veb --help for usage"]].

(** [main] up to the call of [send]. *)
Definition parse (args : list string) (id : string) : Parsed :=
  if bool_decide (args = []) || includes "--help" args || includes "-h" args then Help
  else command_of args id.

(** The value of a field of a command; a field given twice takes its last
    value. *)
Fixpoint get (k : string) (cmd : Cmd) : jsval :=
  match cmd with
  | [] => Undefined
  | (k', v) :: cmd =>
      match get k cmd with
      | Undefined => if bool_decide (k = k') then v else Undefined
      | v' => v'
      end
  end.

(** *** The response *)

(** What is handed to the console: text, and values whose rendering is left
    to the console, to a template string or to [JSON.stringify]; [None]
    stands for [undefined]. *)
Inductive piece :=
| Text (s : string)
| Coerced (v : option json)         (* a value inside a template string *)
| Raw (v : option json)             (* a value given to the console as it is *)
| LengthOf (v : option json)        (* the [length] of a value, inside a template string *)
| Stringified (v : json)            (* [JSON.stringify(v)] *)
| Indented (v : json)               (* [JSON.stringify(v, null, 2)] *)
| StringifiedResponse (r : Response).

(** A call to [console.log] or [console.error]; an argument is the
    concatenation of its pieces. *)
Inductive out :=
| HelpScreen
| Log (args : list (list piece))
| Err (args : list (list piece)).

(** [c(color, text)] for a text that is a value. *)
Definition c_of (color : Color) (text : list piece) : list piece :=
  [Text (colors color)] ++ text ++ [Text (colors Reset)].

(** Property access on the data of a response: only an object has the
    properties that [printResponse] reads. *)
Fixpoint field (k : string) (ms : list (string * json)) : option json :=
  match ms with
  | [] => None
  | (k', v) :: ms =>
      match field k ms with
      | Some v' => Some v'
      | None => if bool_decide (k = k') then Some v else None
      end
  end.

Definition prop (k : string) (data : json) : option json :=
  match data with
  | JObj ms => field k ms
  | _ => None
  end.

(** The truth value of a value in a condition. *)
Definition truthy (v : option json) : bool :=
  match v with
  | None | Some JNull => false
  | Some (JBool b) => b
  | Some (JNum n) => negb (bool_decide (n = 0))
  | Some (JStr s) => negb (JS.is_empty s)
  | Some (JArr _) | Some (JObj _) => true
  end.

(** [typeof v === 'object']. *)
Definition is_object (v : json) : bool :=
  match v with
  | JNull | JArr _ | JObj _ => true
  | _ => false
  end.

(** How [printResponse] ends: it returns, it exits with status 1, or the
    access to a property of a missing [data] throws. *)
Inductive Printed :=
| Done (outs : list out)
| Exit1 (outs : list out)
| TypeError (message : string).

Definition ok : list piece := [Text (c Green "✓")].

(** The message of the error thrown by [data.url] when [data] is
    [undefined] or [null]. *)
Definition cannot_read (data : option json) : string :=
  "Cannot read properties of " +:+
  match data with None => "undefined" | Some _ => "null" end +:+
  " (reading 'url')".

Definition printResponse (response : Response) (jsonMode : bool) : Printed :=
  if jsonMode then Done [Log [[StringifiedResponse response]]]
  else if negb (success response) then
    Exit1 [Err [[Text (c Red "✗ Error:")]; [Raw (JStr <$> error response)]]]
  else
    match data response with
    | None | Some JNull => TypeError (cannot_read (data response))
    | Some data =>
        let p k := prop k data in
        Done
          (if truthy (p "url") && truthy (p "title") then
             [Log [ok; c_of Bold [Coerced (p "title")]];
              Log [c_of Dim [Text "  "; Coerced (p "url")]]]
           else if truthy (p "html") then [Log [[Raw (p "html")]]]
           else if truthy (p "snapshot") then [Log [[Raw (p "snapshot")]]]
           else
             match p "result" with
             | Some result =>
                 if is_object result then [Log [[Indented result]]]
                 else [Log [[Raw (Some result)]]]
             | None =>
                 if truthy (p "base64") then
                   [Log [ok; [Text "Screenshot captured (base64)"]];
                    Log [c_of Dim [Text "  "; LengthOf (p "base64"); Text " bytes"]]]
                 else if truthy (p "path") then
                   [Log [ok; [Text "Saved to "; Coerced (p "path")]]]
                 else if truthy (p "clicked") || truthy (p "typed") || truthy (p "pressed")
                         || truthy (p "hovered") || truthy (p "scrolled")
                         || truthy (p "selected") || truthy (p "waited") then
                   [Log [ok; [Text "Done"]]]
                 else if truthy (p "launched") then [Log [ok; [Text "Browser launched"]]]
                 else if truthy (p "closed") then [Log [ok; [Text "Browser closed"]]]
                 else [Log [ok; [Stringified data]]]
             end)
    end.

(** *** [main] *)

(** A run of the client: whether debugging was switched on, what was
    printed, the command handed to [send] and the exit status. *)
Record Run := mkRun {
  debug : bool;
  outs : list out;
  sent : option Cmd;
  status : Z
}.

(** The [catch] of [main]. *)
Definition failed (json : bool) (id message : string) : list out :=
  if json then
    [Log [[StringifiedResponse
             {| resp_id := id; success := false; data := None; error := Some message |}]]]
  else [Err [[Text (c Red "✗ Error:")]; [Text message]]].

Definition main (args : list string) (id : string) (send : Cmd → Outcome Response) : Run :=
  let debug := debugMode args in
  match parse args id with
  | Help => {| debug := debug; outs := [HelpScreen]; sent := None; status := 0 |}
  | Usage errors =>
      {| debug := debug; outs := (λ e, Err ((λ s, [Text s]) <$> e)) <$> errors;
         sent := None; status := 1 |}
  | Send cmd =>
      match send cmd with
      | Rejected message =>
          {| debug := debug; outs := failed (jsonMode args) id message;
             sent := Some cmd; status := 1 |}
      | Resolved response =>
          match printResponse response (jsonMode args) with
          | Done outs => {| debug := debug; outs := outs; sent := Some cmd; status := 0 |}
          | Exit1 outs => {| debug := debug; outs := outs; sent := Some cmd; status := 1 |}
          | TypeError message =>
              {| debug := debug; outs := failed (jsonMode args) id message;
                 sent := Some cmd; status := 1 |}
          end
      end
  end.

End Cli.

(** ** Scenarios *)

(** A daemon 4242 that was killed, leaving its marker and its socket. *)
Definition stale_os : OS :=
  {| files := {[ SOCKET_PATH := Socket 4242; PID_FILE := Regular "4242" ]};
     procs := {[ 1; 77 ]} |}.

(** A daemon 4242 that is running, and a process 5000 about to start a
    second one. *)
Definition live_os : OS :=
  {| files := {[ SOCKET_PATH := Socket 4242; PID_FILE := Regular "4242" ]};
     procs := {[ 1; 77; 4242; 5000 ]} |}.

(** No daemon and no artefact. *)
Definition clean_os : OS := {| files := ∅; procs := {[ 1; 77 ]} |}.

(** An environment in which every call succeeds; the [n]-th call returns
    handle [n]. *)
Definition all_succeed : Oracle := λ n op,
  match op return Outcome (ret_ty op) with
  | LauncherLaunch _ _ | NewContext _ _ | NewPage _ => Resolved n
  | PageClose _ | ContextClose _ | BrowserClose _ => Resolved tt
  | RunAction _ _ => Resolved (JObj [("done", JBool true)])
  end.

(** A daemon that has just started, with no browser. *)
Definition idle_machine : Machine := serving (boot clean_os).

(** A machine whose manager holds browser 0, context 1 and page 2. *)
Definition launched_machine : Machine :=
  snd (run all_succeed (BrowserManager.launch auto_launch) idle_machine).

(** The frames of the concrete scenarios, each closed by its newline. *)
Definition close_frame : string := Codec.request "b2" "close" +:+ newline_str.
Definition navigate_frame : string :=
  Codec.navigate "a1" "https://example.com" +:+ newline_str.
Definition snapshot_frame : string := Codec.request "s3" "snapshot" +:+ newline_str.

(** The world after a schedule; a label that cannot fire ends it. *)
Definition after (ls : list Label) (w : World) : World :=
  default w (fire_all (H := Codec.protocol) ls w).

(** A fresh daemon, started by process 4242. *)
Definition fresh_daemon : World := startDaemon (H := Codec.protocol) 4242 clean_os.

(** A close command, then a termination signal during the grace delay, then
    the grace timer. *)
Definition close_then_signal : list Label :=
  [Data 7%nat close_frame; Signal; TimerFire].

(** A close command and, in a later read during the grace delay, a navigate
    command; the calls of the implicit launch and of the action then settle.
    The grace timer has not expired yet. *)
Definition close_then_command : list Label :=
  [Data 7%nat close_frame;
   Data 7%nat navigate_frame;
   Settle 0%nat (Resolved (VHandle 10%nat));
   Settle 0%nat (Resolved (VHandle 11%nat));
   Settle 0%nat (Resolved (VHandle 12%nat));
   Settle 0%nat (Resolved (VJson (JObj [("url", JStr "https://example.com")])))].

(** The Responses that the daemon writes in the scenarios. *)
Definition closed_response : string :=
  frame (H := Codec.protocol)
    (successResponse "b2" (JObj [("closed", JBool true)])).
Definition navigated_response : string :=
  frame (H := Codec.protocol)
    (successResponse "a1" (JObj [("url", JStr "https://example.com")])).

(** A close command and, in a later read during the grace delay, a second
    close command. *)
Definition close_then_close : list Label :=
  [Data 7%nat close_frame;
   Data 7%nat (Codec.request "c3" "close" +:+ newline_str)].
Definition closed_again_response : string :=
  frame (H := Codec.protocol)
    (successResponse "c3" (JObj [("closed", JBool true)])).

(** Two action commands on a fresh daemon, in two reads; the second read
    arrives while the launch for the first command is pending. *)
Definition overlapping_commands : list Label :=
  [Data 7%nat navigate_frame; Data 7%nat snapshot_frame].

(** The two pending launches settle, with browsers 20 and 30. *)
Definition launches_settle : list Label :=
  [Settle 0%nat (Resolved (VHandle 20%nat)); Settle 0%nat (Resolved (VHandle 30%nat))].

(** An action command, and a malformed line in a later read that arrives
    while the launch for the command is pending. *)
Definition overlapping_reads : list Label :=
  [Data 7%nat navigate_frame; Data 7%nat ("not json" +:+ newline_str)].

(** An environment in which no engine can be launched. *)
Definition launch_fails : Oracle := λ n op,
  match op return Outcome (ret_ty op) with
  | LauncherLaunch _ _ => Rejected "Executable not found"
  | op => all_succeed n op
  end.

(** An environment in which no context can be created. *)
Definition context_fails : Oracle := λ n op,
  match op return Outcome (ret_ty op) with
  | NewContext _ _ => Rejected "no context"
  | op => all_succeed n op
  end.

(** The daemon after a close command: the grace timer is pending. *)
Definition closing_machine : Machine :=
  snd (run all_succeed
         (process_line (H := Codec.protocol) 7%nat (Codec.request "b2" "close"))
         launched_machine).

(** Lines that are blank: an empty line, two spaces, a carriage return. *)
Definition blank_lines : list string :=
  [EmptyString; "  "; String "013"%char EmptyString].

(** The command records of the scenario frames. *)
Definition close_command (id : string) : Command :=
  {| cmd_id := id; cmd_action := "close"; cmd_browser := None;
     cmd_headless := None; cmd_viewport := None;
     cmd_params := [("id", JStr id); ("action", JStr "close")] |}.
Definition snapshot_command (id : string) : Command :=
  {| cmd_id := id; cmd_action := "snapshot"; cmd_browser := None;
     cmd_headless := None; cmd_viewport := None;
     cmd_params := [("id", JStr id); ("action", JStr "snapshot")] |}.

(** The actions that the client puts in a command. *)
Definition cli_actions : list string :=
  ["navigate"; "click"; "type"; "press"; "wait"; "screenshot"; "snapshot";
   "content"; "evaluate"; "scroll"; "hover"; "select"; "close"].

(** Entries on a shared host: made by the caller, or by another user. *)
Definition own (k : Unix.Kind) : Unix.Entry := Unix.mkEntry k true true.
Definition foreign (k : Unix.Kind) : Unix.Entry := Unix.mkEntry k true false.

(** The caller's daemon 4242 was killed; its artefacts are left. *)
Definition own_stale : Unix.State :=
  {| Unix.entries := {[ SOCKET_PATH := own Unix.Socket;
                        PID_FILE := own (Unix.Regular "4242") ]};
     Unix.processes := {[ 1 := false; 77 := true ]};
     Unix.groups := {[ 1; 77 ]} |}.

(** The caller's daemon 4242 is running. *)
Definition own_live : Unix.State :=
  {| Unix.entries := {[ SOCKET_PATH := own Unix.Socket;
                        PID_FILE := own (Unix.Regular "4242") ]};
     Unix.processes := {[ 1 := false; 77 := true; 4242 := true ]};
     Unix.groups := {[ 1; 77; 4242 ]} |}.

(** No artefact at all. *)
Definition bare : Unix.State :=
  {| Unix.entries := ∅;
     Unix.processes := {[ 1 := false; 77 := true ]};
     Unix.groups := {[ 1; 77 ]} |}.

(** The daemon 4242 of another user was killed; its artefacts are left in
    the sticky temporary directory. *)
Definition foreign_stale : Unix.State :=
  {| Unix.entries := {[ SOCKET_PATH := foreign Unix.Socket;
                        PID_FILE := foreign (Unix.Regular "4242") ]};
     Unix.processes := {[ 1 := false; 77 := true ]};
     Unix.groups := {[ 1; 77 ]} |}.

(** The daemon 4242 of another user is running. *)
Definition foreign_live : Unix.State :=
  {| Unix.entries := {[ SOCKET_PATH := foreign Unix.Socket;
                        PID_FILE := foreign (Unix.Regular "4242") ]};
     Unix.processes := {[ 1 := false; 77 := true; 4242 := false ]};
     Unix.groups := {[ 1; 77 ]} |}.

(** A marker of the caller that holds [0]; no process has that id. *)
Definition marker_zero : Unix.State :=
  {| Unix.entries := {[ SOCKET_PATH := own Unix.Socket;
                        PID_FILE := own (Unix.Regular "0") ]};
     Unix.processes := {[ 1 := false; 77 := true ]};
     Unix.groups := {[ 1; 77 ]} |}.

(** A stale marker of the caller beside a socket of another user. *)
Definition foreign_socket : Unix.State :=
  {| Unix.entries := {[ SOCKET_PATH := foreign Unix.Socket;
                        PID_FILE := own (Unix.Regular "4242") ]};
     Unix.processes := {[ 1 := false; 77 := true ]};
     Unix.groups := {[ 1; 77 ]} |}.

(** A directory at the marker path. *)
Definition directory_marker : Unix.State :=
  {| Unix.entries := {[ SOCKET_PATH := own Unix.Socket;
                        PID_FILE := own Unix.Directory ]};
     Unix.processes := {[ 1 := false; 77 := true ]};
     Unix.groups := {[ 1; 77 ]} |}.

(** The bytes of a navigate and a snapshot command in two reads, the first
    of which ends inside the navigate frame. *)
Definition split_reads : list (list Byte.byte) :=
  [ String.list_byte_of_string (JS.take 12 navigate_frame);
    String.list_byte_of_string (JS.drop 12 navigate_frame +:+ snapshot_frame) ].

(** * Properties *)

(** ** The artefacts *)

Lemma paths_distinct : SOCKET_PATH ≠ PID_FILE.
Proof. discriminate. Qed.

Lemma existsSync_true p os f : files os !! p = Some f → existsSync p os = true.
Proof. intros E. unfold existsSync. rewrite E. reflexivity. Qed.

Lemma existsSync_false p os : files os !! p = None → existsSync p os = false.
Proof.
  intros E. unfold existsSync. rewrite E.
  apply bool_decide_eq_false. intros [x Hx]. discriminate.
Qed.

(** [cleanupSocket] never takes its [catch]: it leaves exactly the file
    system without the two artefacts. *)
Lemma cleanupSocket_files os :
  files (cleanupSocket os) = delete PID_FILE (delete SOCKET_PATH (files os)).
Proof.
  unfold cleanupSocket.
  destruct (files os !! SOCKET_PATH) as [f|] eqn:Es.
  - rewrite (existsSync_true _ _ _ Es). unfold unlinkSync at 1. rewrite Es.
    destruct (files os !! PID_FILE) as [g|] eqn:Ep.
    + assert (files (with_files (delete SOCKET_PATH (files os)) os) !! PID_FILE = Some g) as E'.
      { cbn. rewrite lookup_delete_ne; [assumption | apply paths_distinct]. }
      rewrite (existsSync_true _ _ _ E'). unfold unlinkSync. rewrite E'. reflexivity.
    + assert (files (with_files (delete SOCKET_PATH (files os)) os) !! PID_FILE = None) as E'.
      { cbn. rewrite lookup_delete_ne; [assumption | apply paths_distinct]. }
      rewrite (existsSync_false _ _ E'). cbn.
      symmetry. apply delete_id. 
      rewrite lookup_delete_ne; [assumption | apply paths_distinct].
  - rewrite (existsSync_false _ _ Es).
    rewrite (delete_id (files os) SOCKET_PATH Es).
    destruct (files os !! PID_FILE) as [g|] eqn:Ep.
    + rewrite (existsSync_true _ _ _ Ep). unfold unlinkSync. rewrite Ep. reflexivity.
    + rewrite (existsSync_false _ _ Ep). symmetry. apply delete_id, Ep.
Qed.

Lemma cleanupSocket_procs os : procs (cleanupSocket os) = procs os.
Proof.
  unfold cleanupSocket, unlinkSync.
  repeat (case_match; simplify_eq; cbn; try reflexivity).
Qed.

Lemma cleanupSocket_eq os :
  cleanupSocket os = with_files (delete PID_FILE (delete SOCKET_PATH (files os))) os.
Proof.
  pose proof (cleanupSocket_files os) as Hf. pose proof (cleanupSocket_procs os) as Hp.
  destruct (cleanupSocket os) as [f p]. cbn in *. subst. reflexivity.
Qed.

Lemma cleanupSocket_removes os :
  files (cleanupSocket os) !! SOCKET_PATH = None ∧
  files (cleanupSocket os) !! PID_FILE = None.
Proof.
  rewrite cleanupSocket_files. split.
  - rewrite lookup_delete_ne by (symmetry; apply paths_distinct). apply lookup_delete_eq.
  - apply lookup_delete_eq.
Qed.

Lemma cleanupSocket_other os p :
  p ≠ SOCKET_PATH → p ≠ PID_FILE →
  files (cleanupSocket os) !! p = files os !! p.
Proof.
  intros H1 H2. rewrite cleanupSocket_files.
  rewrite !lookup_delete_ne by congruence. reflexivity.
Qed.

(** ** Start-up *)

(** After its own [cleanupSocket] the start-up always finds the socket path
    free: it binds, whatever was there, and the artefacts are its own. *)
Lemma startDaemon_always_binds `{Protocol} (pid : Z) (os0 : OS) :
  startDaemon pid os0 =
    {| machine := serving (boot (with_files
         (<[SOCKET_PATH := Socket pid]>
            (<[PID_FILE := Regular (pretty pid)]>
               (delete PID_FILE (delete SOCKET_PATH (files os0))))) os0));
       buffers := ∅; pool := [] |}.
Proof.
  unfold startDaemon, listen.
  rewrite existsSync_false.
  - rewrite cleanupSocket_eq. reflexivity.
  - cbn. rewrite lookup_insert_ne by (symmetry; apply paths_distinct).
    apply cleanupSocket_removes.
Qed.

(** The ['error'] handler of the server removes both artefacts, whoever owns
    them, before it exits with status 1. *)
Lemma server_error_removes_artifacts `{Protocol} (message : string) (w : World) :
  exited (machine w) = None →
  ∃ w', fire (ServerError message) w = Some w' ∧
        exited (machine w') = Some 1 ∧
        files (os (machine w')) !! SOCKET_PATH = None ∧
        files (os (machine w')) !! PID_FILE = None.
Proof.
  intros Hrun. unfold fire. rewrite Hrun. eexists. split; [reflexivity|].
  cbn. repeat split; apply cleanupSocket_removes.
Qed.

(** C2. Process 5000 starts a daemon while the daemon of process 4242 is
    running and holds the socket path: no bind failure occurs and nothing is
    reported; the start-up has removed the socket and the marker of 4242,
    the marker now records 5000 and the socket path is bound by 5000. *)
Theorem second_start_takes_over :
  fst (isDaemonRunning live_os) = true ∧
  let w := @startDaemon Codec.protocol 5000 live_os in
  exited (machine w) = None ∧
  listening (machine w) = true ∧
  trace (machine w) = [] ∧
  files (os (machine w)) !! SOCKET_PATH = Some (Socket 5000) ∧
  files (os (machine w)) !! PID_FILE = Some (Regular "5000").
Proof. vm_compute. repeat split. Qed.

(** ** The artefacts on a shared host *)

(** On the daemon's own host the two functions are those given first. *)
Lemma own_cleanupSocket (os : OS) : Artefacts.cleanupSocket os = cleanupSocket os.
Proof. reflexivity. Qed.

Lemma own_isDaemonRunning (os : OS) : Artefacts.isDaemonRunning os = isDaemonRunning os.
Proof. reflexivity. Qed.

Lemma unix_existsSync_true p s e :
  Unix.entries s !! p = Some e → Unix.existsSync p s = true.
Proof. intros E. unfold Unix.existsSync. rewrite E. reflexivity. Qed.

Lemma unix_existsSync_false p s :
  Unix.entries s !! p = None → Unix.existsSync p s = false.
Proof.
  intros E. unfold Unix.existsSync. rewrite E.
  apply bool_decide_eq_false. intros [x Hx]. discriminate.
Qed.

(** A guarded [unlinkSync] on a path that can be cleared: the path is free
    afterwards and nothing is thrown. *)
Lemma guarded_unlink_clears p s :
  Unix.clearable p s = true →
  (if Unix.existsSync p s then Unix.unlinkSync p s else Some s) =
    Some (Unix.with_entries (delete p (Unix.entries s)) s).
Proof.
  unfold Unix.clearable, Unix.unlinkSync. intros Hclear.
  destruct (Unix.entries s !! p) as [e|] eqn:E.
  - rewrite (unix_existsSync_true _ _ _ E).
    destruct (Unix.kind e); try discriminate; rewrite Hclear; reflexivity.
  - rewrite (unix_existsSync_false _ _ E). rewrite (delete_id _ _ E).
    destruct s; reflexivity.
Qed.

(** A guarded [unlinkSync] on a path that cannot be cleared throws. *)
Lemma guarded_unlink_throws p s :
  Unix.clearable p s = false →
  (if Unix.existsSync p s then Unix.unlinkSync p s else Some s) = None.
Proof.
  unfold Unix.clearable, Unix.unlinkSync. intros Hclear.
  destruct (Unix.entries s !! p) as [e|] eqn:E; [|discriminate].
  rewrite (unix_existsSync_true _ _ _ E).
  destruct (Unix.kind e); try reflexivity; rewrite Hclear; reflexivity.
Qed.

Lemma clearable_after_unlink p q s :
  p ≠ q →
  Unix.clearable p (Unix.with_entries (delete q (Unix.entries s)) s) = Unix.clearable p s.
Proof.
  intros Hne. unfold Unix.clearable. cbn.
  rewrite lookup_delete_ne by congruence. reflexivity.
Qed.

(** The socket cannot be unlinked: the [catch] is taken at once and the
    marker is not tried. *)
Lemma cleanupSocket_socket_stuck (s : Unix.State) :
  Unix.clearable SOCKET_PATH s = false → Artefacts.cleanupSocket s = s.
Proof.
  intros Hs. unfold Artefacts.cleanupSocket. cbn [host_existsSync host_unlinkSync Unix.host].
  rewrite (guarded_unlink_throws _ _ Hs). reflexivity.
Qed.

(** The socket is cleared and the marker cannot be unlinked. *)
Lemma cleanupSocket_marker_stuck (s : Unix.State) :
  Unix.clearable SOCKET_PATH s = true → Unix.clearable PID_FILE s = false →
  Artefacts.cleanupSocket s = Unix.with_entries (delete SOCKET_PATH (Unix.entries s)) s.
Proof.
  intros Hs Hp. unfold Artefacts.cleanupSocket. cbn [host_existsSync host_unlinkSync Unix.host].
  rewrite (guarded_unlink_clears _ _ Hs).
  rewrite guarded_unlink_throws; [reflexivity|].
  rewrite clearable_after_unlink by (symmetry; apply paths_distinct). exact Hp.
Qed.

(** Both can be cleared. *)
Lemma cleanupSocket_clears (s : Unix.State) :
  Unix.clearable SOCKET_PATH s = true → Unix.clearable PID_FILE s = true →
  Artefacts.cleanupSocket s =
    Unix.with_entries (delete PID_FILE (delete SOCKET_PATH (Unix.entries s))) s.
Proof.
  intros Hs Hp. unfold Artefacts.cleanupSocket. cbn [host_existsSync host_unlinkSync Unix.host].
  rewrite (guarded_unlink_clears _ _ Hs).
  rewrite guarded_unlink_clears; [reflexivity|].
  rewrite clearable_after_unlink by (symmetry; apply paths_distinct). exact Hp.
Qed.

(** The three outcomes of [cleanupSocket] in one equation. *)
Lemma cleanupSocket_outcome (s : Unix.State) :
  Artefacts.cleanupSocket s =
    if Unix.clearable SOCKET_PATH s then
      if Unix.clearable PID_FILE s then
        Unix.with_entries (delete PID_FILE (delete SOCKET_PATH (Unix.entries s))) s
      else Unix.with_entries (delete SOCKET_PATH (Unix.entries s)) s
    else s.
Proof.
  destruct (Unix.clearable SOCKET_PATH s) eqn:Hs.
  - destruct (Unix.clearable PID_FILE s) eqn:Hp.
    + apply cleanupSocket_clears; assumption.
    + apply cleanupSocket_marker_stuck; assumption.
  - apply cleanupSocket_socket_stuck; assumption.
Qed.

(** The probe of a positive process id. *)
Lemma kill0_positive (pid : Z) (s : Unix.State) :
  0 < pid →
  Unix.process_kill0 (Some pid) s =
    if Unix.int32 pid then
      match Unix.processes s !! pid with
      | Some true => Some tt
      | _ => None
      end
    else None.
Proof.
  intros Hpos. unfold Unix.process_kill0.
  destruct (Unix.int32 pid); [|reflexivity]. cbn [negb].
  rewrite (proj2 (Z.ltb_lt 0 pid) Hpos). reflexivity.
Qed.

(** [isDaemonRunning] on a marker that can be read. *)
Lemma isDaemonRunning_readable (s : Unix.State) (e : Unix.Entry) (content : string) :
  Unix.entries s !! PID_FILE = Some e →
  Unix.kind e = Unix.Regular content → Unix.readable e = true →
  Artefacts.isDaemonRunning s =
    match Unix.process_kill0 (JS.parseInt (JS.trim content)) s with
    | Some _ => (true, s)
    | None => (false, Artefacts.cleanupSocket s)
    end.
Proof.
  intros E Hkind Hread. unfold Artefacts.isDaemonRunning.
  cbn [host_existsSync host_readFileSync host_kill0 Unix.host].
  rewrite (unix_existsSync_true _ _ _ E). cbn [negb].
  unfold Unix.readFileSync. rewrite E, Hkind, Hread. reflexivity.
Qed.

(** [isDaemonRunning] on a marker that cannot be read. *)
Lemma isDaemonRunning_unreadable (s : Unix.State) (e : Unix.Entry) :
  Unix.entries s !! PID_FILE = Some e →
  Unix.readFileSync PID_FILE s = None →
  Artefacts.isDaemonRunning s = (false, Artefacts.cleanupSocket s).
Proof.
  intros E Hread. unfold Artefacts.isDaemonRunning.
  cbn [host_existsSync host_readFileSync host_kill0 Unix.host].
  rewrite (unix_existsSync_true _ _ _ E). cbn [negb]. rewrite Hread. reflexivity.
Qed.

(** C7 (amended). [isDaemonRunning] answers false and touches nothing when
    the marker is absent.  When the marker can be read and records a
    positive process id: if no process has that id, the answer is false
    after [cleanupSocket]; if the process exists and the caller may signal
    it, the answer is true and nothing is touched.  [cleanupSocket] is a
    best effort: it removes socket and marker when both can be unlinked and
    removes nothing when the socket cannot be. *)
Theorem isDaemonRunning_probe_and_best_effort_cleanup (s : Unix.State) :
  (Unix.entries s !! PID_FILE = None → Artefacts.isDaemonRunning s = (false, s)) ∧
  (∀ e content pid,
     Unix.entries s !! PID_FILE = Some e →
     Unix.kind e = Unix.Regular content → Unix.readable e = true →
     JS.parseInt (JS.trim content) = Some pid → 0 < pid →
     (Unix.processes s !! pid = None →
        Artefacts.isDaemonRunning s = (false, Artefacts.cleanupSocket s)) ∧
     (pid ≤ 2147483647 → Unix.processes s !! pid = Some true →
        Artefacts.isDaemonRunning s = (true, s))) ∧
  (Unix.clearable SOCKET_PATH s = true → Unix.clearable PID_FILE s = true →
     Artefacts.cleanupSocket s =
       Unix.with_entries (delete PID_FILE (delete SOCKET_PATH (Unix.entries s))) s) ∧
  (Unix.clearable SOCKET_PATH s = false → Artefacts.cleanupSocket s = s).
Proof.
  split; [|split; [|split]].
  - intros E. unfold Artefacts.isDaemonRunning. cbn [host_existsSync Unix.host].
    rewrite (unix_existsSync_false _ _ E). reflexivity.
  - intros e content pid E Hkind Hread Hpid Hpos.
    rewrite (isDaemonRunning_readable s e content E Hkind Hread), Hpid.
    rewrite (kill0_positive pid s Hpos). split.
    + intros ->. destruct (Unix.int32 pid); reflexivity.
    + intros Hmax ->. unfold Unix.int32.
      rewrite (proj2 (Z.leb_le _ _)) by lia. rewrite (proj2 (Z.leb_le _ _)) by lia.
      reflexivity.
  - apply cleanupSocket_clears.
  - apply cleanupSocket_socket_stuck.
Qed.

Lemma isDaemonRunning_probe_and_best_effort_cleanup_witness :
  Artefacts.isDaemonRunning bare = (false, bare) ∧
  Artefacts.isDaemonRunning own_stale = (false, Artefacts.cleanupSocket own_stale) ∧
  Artefacts.isDaemonRunning own_live = (true, own_live) ∧
  Artefacts.cleanupSocket own_stale =
    Unix.with_entries (delete PID_FILE (delete SOCKET_PATH (Unix.entries own_stale)))
      own_stale ∧
  Artefacts.cleanupSocket foreign_stale = foreign_stale.
Proof.
  split; [|split; [|split; [|split]]].
  - apply (proj1 (isDaemonRunning_probe_and_best_effort_cleanup bare)). reflexivity.
  - apply (proj1 (proj2 (isDaemonRunning_probe_and_best_effort_cleanup own_stale))
             (own (Unix.Regular "4242")) "4242" 4242);
      first [reflexivity | lia].
  - apply (proj1 (proj2 (isDaemonRunning_probe_and_best_effort_cleanup own_live))
             (own (Unix.Regular "4242")) "4242" 4242);
      first [reflexivity | lia].
  - apply (proj1 (proj2 (proj2 (isDaemonRunning_probe_and_best_effort_cleanup own_stale))));
      reflexivity.
  - apply (proj2 (proj2 (proj2 (isDaemonRunning_probe_and_best_effort_cleanup foreign_stale)))).
    reflexivity.
Defined.

(** C7 (as stated). The marker records process 4242, which does not exist;
    marker and socket were left by another user, so neither can be
    unlinked: the answer is false and both artefacts are still there. *)
Lemma stale_artefacts_of_another_user_stay :
  Unix.processes foreign_stale !! 4242 = None ∧
  Artefacts.isDaemonRunning foreign_stale = (false, foreign_stale) ∧
  Unix.entries foreign_stale !! PID_FILE = Some (foreign (Unix.Regular "4242")) ∧
  Unix.entries foreign_stale !! SOCKET_PATH = Some (foreign Unix.Socket).
Proof. vm_compute. repeat split. Qed.

(** A stale marker of the caller beside a socket that cannot be unlinked:
    the marker is not removed either, because the first [unlinkSync] throws
    inside the [try] that holds both. *)
Lemma stuck_socket_keeps_stale_marker :
  Unix.clearable PID_FILE foreign_socket = true ∧
  Artefacts.isDaemonRunning foreign_socket = (false, foreign_socket).
Proof. vm_compute. split; reflexivity. Qed.

(** The recorded process exists but belongs to another user: the probe
    throws [EPERM], which the [catch] takes for a dead process; the answer
    is false and the clean-up is run against the other user's artefacts. *)
Lemma foreign_process_is_taken_for_dead :
  Unix.processes foreign_live !! 4242 = Some false ∧
  Artefacts.isDaemonRunning foreign_live =
    (false, Artefacts.cleanupSocket foreign_live).
Proof. vm_compute. split; reflexivity. Qed.

(** A marker that holds [0]: the probe addresses the caller's own process
    group and succeeds; the answer is true although no process has id 0,
    and nothing is removed.  So it is for [-1]. *)
Lemma marker_zero_is_taken_for_running :
  Unix.processes marker_zero !! 0 = None ∧
  Artefacts.isDaemonRunning marker_zero = (true, marker_zero) ∧
  Unix.process_kill0 (JS.parseInt "-1") marker_zero = Some tt.
Proof. vm_compute. repeat split. Qed.

(** *** The daemon's own host is a shared host without strangers *)

Lemma shared_with_files (f : gmap string File) (os : OS) :
  shared (with_files f os) = Unix.with_entries (shared_file <$> f) (shared os).
Proof. reflexivity. Qed.

Lemma shared_existsSync (p : string) (os : OS) :
  Unix.existsSync p (shared os) = existsSync p os.
Proof.
  unfold Unix.existsSync, existsSync. cbn. rewrite lookup_fmap.
  destruct (files os !! p); reflexivity.
Qed.

Lemma shared_unlinkSync (p : string) (os : OS) :
  Unix.unlinkSync p (shared os) = shared <$> unlinkSync p os.
Proof.
  unfold Unix.unlinkSync, unlinkSync. cbn. rewrite lookup_fmap.
  destruct (files os !! p) as [[content|owner]|]; cbn; try reflexivity;
    rewrite shared_with_files, fmap_delete; reflexivity.
Qed.

Lemma shared_readFileSync (p : string) (os : OS) :
  Unix.readFileSync p (shared os) = readFileSync p os.
Proof.
  unfold Unix.readFileSync, readFileSync. cbn. rewrite lookup_fmap.
  destruct (files os !! p) as [[content|owner]|]; reflexivity.
Qed.

Lemma shared_cleanupSocket (os : OS) :
  Artefacts.cleanupSocket (shared os) = shared (cleanupSocket os).
Proof.
  unfold Artefacts.cleanupSocket, cleanupSocket.
  cbn [host_existsSync host_unlinkSync Unix.host].
  rewrite shared_existsSync, shared_unlinkSync.
  destruct (existsSync SOCKET_PATH os).
  - destruct (unlinkSync SOCKET_PATH os) as [os1|]; cbn [fmap option_fmap option_map];
      [|reflexivity].
    rewrite shared_existsSync, shared_unlinkSync.
    destruct (existsSync PID_FILE os1); [|reflexivity].
    destruct (unlinkSync PID_FILE os1); reflexivity.
  - rewrite shared_existsSync, shared_unlinkSync.
    destruct (existsSync PID_FILE os); [|reflexivity].
    destruct (unlinkSync PID_FILE os); reflexivity.
Qed.

(** The probes agree on the process ids that a process can have. *)
Lemma shared_process_kill0 (pid : option Z) (os : OS) :
  (∀ n, n ∈ procs os → 0 < n ≤ 2147483647) →
  (∀ n, pid = Some n → 0 < n) →
  Unix.process_kill0 pid (shared os) = process_kill0 pid os.
Proof.
  intros Hprocs Hpid. destruct pid as [n|]; [|reflexivity].
  rewrite (kill0_positive n _ (Hpid n eq_refl)). cbn.
  rewrite lookup_gset_to_gmap.
  destruct (decide (n ∈ procs os)) as [Hin|Hout].
  - rewrite bool_decide_eq_true_2 by assumption.
    rewrite option_guard_True by assumption.
    destruct (Hprocs n Hin) as [Hlo Hhi]. unfold Unix.int32.
    rewrite (proj2 (Z.leb_le _ _)) by lia. rewrite (proj2 (Z.leb_le _ _)) by lia.
    reflexivity.
  - rewrite bool_decide_eq_false_2 by assumption.
    rewrite option_guard_False by assumption.
    destruct (Unix.int32 n); reflexivity.
Qed.

(** When the process ids are those of processes and the marker, if it holds
    a number, holds a positive one, [isDaemonRunning] gives on the shared
    host what it gives on the daemon's own. *)
Lemma shared_isDaemonRunning (os : OS) :
  (∀ n, n ∈ procs os → 0 < n ≤ 2147483647) →
  (∀ content n, files os !! PID_FILE = Some (Regular content) →
     JS.parseInt (JS.trim content) = Some n → 0 < n) →
  Artefacts.isDaemonRunning (shared os) =
    (fst (isDaemonRunning os), shared (snd (isDaemonRunning os))).
Proof.
  intros Hprocs Hmarker. unfold Artefacts.isDaemonRunning, isDaemonRunning.
  cbn [host_existsSync host_readFileSync host_kill0 Unix.host].
  rewrite shared_existsSync, shared_readFileSync.
  destruct (existsSync PID_FILE os); [|reflexivity]. cbn [negb].
  unfold readFileSync.
  destruct (files os !! PID_FILE) as [[content|owner]|] eqn:E; cbn [mbind option_bind];
    try (rewrite shared_cleanupSocket; reflexivity).
  rewrite (shared_process_kill0 _ os Hprocs (λ n, Hmarker content n eq_refl)).
  destruct (process_kill0 _ os); [reflexivity|].
  rewrite shared_cleanupSocket. reflexivity.
Qed.

(** ** [BrowserManager] *)

(** Normalisation of machine terms built on constructors: setters and
    projections are unfolded together, innermost first. *)
Ltac unfold_machine :=
  cbv [set_heap set_browser set_context set_page set_shuttingDown issue log halt perform
       heap os listening timers exited trace calls state shuttingDown
       browser context page fst snd].

Ltac destruct_machine m :=
  let b := fresh "b" in let c := fresh "c" in let p := fresh "p" in
  let sd := fresh "sd" in let os := fresh "os" in let li := fresh "li" in
  let ti := fresh "ti" in let ex := fresh "ex" in let tr := fresh "tr" in
  let ca := fresh "ca" in
  destruct m as [[[b c p] sd] os li ti ex tr ca].

Lemma run_close (o : Oracle) (m : Machine) :
  run o BrowserManager.close m =
    (Returned tt,
     {| heap := {| state := BrowserManager.initial; shuttingDown := shuttingDown (heap m) |};
        os := os m; listening := listening m; timers := timers m; exited := exited m;
        trace := trace m ++ (Called <$> closes_of (state (heap m)));
        calls := (length (closes_of (state (heap m))) + calls m)%nat |}).
Proof.
  destruct m as [[[b c p] sd] os li ti ex tr ca].
  destruct b, c, p; cbn; unfold_machine; cbn.
  all: rewrite <- ?app_assoc, ?app_nil_r; reflexivity.
Qed.

(** [close] returns, whatever state it finds after each suspension and
    whatever the outcome of each call. *)
Lemma returns_close (Q : unit → Prop) : Q tt → returns Q BrowserManager.close.
Proof.
  intros HQ. unfold BrowserManager.close. cbn. intros h.
  destruct (page (state h)); cbn; intros; repeat (case_match; cbn; intros); assumption.
Qed.

(** C10. [close] never raises, whatever the outcome of the calls it makes,
    and leaves all three handles null, so that [isLaunched] answers false;
    it issues the close calls of the handles that were set and nothing
    else; on a manager that was never launched it changes nothing.  It
    returns also when other handlers change the state while it is
    suspended. *)
Theorem close_never_raises_and_resets (o : Oracle) (m : Machine) :
  let r := run o BrowserManager.close m in
  let idle := {| state := BrowserManager.initial; shuttingDown := shuttingDown (heap m) |} in
  fst r = Returned tt ∧
  state (heap (snd r)) = BrowserManager.initial ∧
  BrowserManager.isLaunched (heap (snd r)) = false ∧
  trace (snd r) = trace m ++ (Called <$> closes_of (state (heap m))) ∧
  exited (snd r) = exited m ∧
  run o BrowserManager.close (set_heap idle m) = (Returned tt, set_heap idle m) ∧
  returns (λ _, True) BrowserManager.close.
Proof.
  cbn zeta. rewrite !run_close. cbn [fst snd]. repeat split.
  - cbn. rewrite app_nil_r. reflexivity.
  - apply returns_close. exact I.
Qed.

Lemma run_bind {A B} (o : Oracle) (c : Async A) (f : A → Async B) (m : Machine) :
  run o (c ≫= f) m =
    match run o c m with
    | (Returned a, m') => run o (f a) m'
    | (Thrown e, m') => (Thrown e, m')
    | (Terminated, m') => (Terminated, m')
    end.
Proof.
  revert m. induction c as [a|e|k IH|h k IH|e k IH|code|op k IH]; intros m; cbn;
    try reflexivity; apply IH.
Qed.

(** C9. [launch] on a manager that holds a browser first closes what is set
    (page, context, browser, in that order), then launches the selected
    engine, creates a context with the supplied or default viewport and an
    initial page, and holds exactly the three new handles, provided the
    three creating calls succeed. *)
Theorem launch_replaces_resource (o : Oracle) (m : Machine) (options : Command)
    (old b c p : handle) :
  let n := (length (closes_of (state (heap m))) + calls m)%nat in
  let engine := BrowserManager.launcher options in
  let headless := default true (cmd_headless options) in
  let viewport := default BrowserManager.default_viewport (cmd_viewport options) in
  browser (state (heap m)) = Some old →
  o n (LauncherLaunch engine headless) = Resolved b →
  o (S n) (NewContext b viewport) = Resolved c →
  o (S (S n)) (NewPage c) = Resolved p →
  ∃ m',
    run o (BrowserManager.launch options) m = (Returned tt, m') ∧
    trace m' = trace m ++ (Called <$> closes_of (state (heap m))) ++
               [Called (LauncherLaunch engine headless);
                Called (NewContext b viewport);
                Called (NewPage c)] ∧
    state (heap m') = {| browser := Some b; context := Some c; page := Some p |} ∧
    exited m' = exited m.
Proof.
  destruct_machine m. cbv zeta. unfold_machine. intros Hold; subst b0. intros H1 H2 H3.
  unfold BrowserManager.launch.
  change (run o (get ≫= ?f) ?m) with (run o (f (heap m)) m).
  cbn [heap state browser].
  rewrite run_bind, run_close.
  cbn [run mbind Async_bind bind await modify]. unfold_machine.
  rewrite H1. cbn [run bind]. unfold_machine.
  rewrite H2. cbn [run bind]. unfold_machine.
  rewrite H3. cbn [run bind]. unfold_machine.
  eexists. split; [reflexivity|]. unfold_machine. repeat split.
  rewrite <- !app_assoc. reflexivity.
Qed.

Lemma launch_replaces_resource_witness :
  ∃ m',
    run all_succeed (BrowserManager.launch auto_launch) launched_machine = (Returned tt, m') ∧
    trace m' = trace launched_machine ++
               [Called (PageClose 2%nat); Called (ContextClose 1%nat); Called (BrowserClose 0%nat)] ++
               [Called (LauncherLaunch Chromium true);
                Called (NewContext 6%nat BrowserManager.default_viewport);
                Called (NewPage 7%nat)] ∧
    state (heap m') = {| browser := Some 6%nat; context := Some 7%nat; page := Some 8%nat |} ∧
    exited m' = exited launched_machine.
Proof.
  apply (launch_replaces_resource all_succeed launched_machine auto_launch
           0%nat 6%nat 7%nat 8%nat); reflexivity.
Defined.

(** ** Sequential reasoning *)

Lemma run_try_catch {A} (o : Oracle) (c : Async A) (handler : string → Async A) (m : Machine) :
  run o (try_catch c handler) m =
    match run o c m with
    | (Thrown e, m') => run o (handler e) m'
    | r => r
    end.
Proof.
  revert m. induction c as [a|e|k IH|h k IH|e k IH|code|op k IH]; intros m; cbn;
    try reflexivity; apply IH.
Qed.

(** Induction over a computation, for statements that hold of [Ret] and
    pass through every other constructor. *)
Ltac async_induction c :=
  induction c as [?a|?e|?k IH|?h ?k IH|?e ?k IH|?code|?op ?k IH];
  cbn in *; intros;
  try (exact I || contradiction || assumption);
  eauto.

Lemma ends_mono {A} (Q Q' : A → Prop) (c : Async A) :
  (∀ a, Q a → Q' a) → ends Q c → ends Q' c.
Proof. intros HQ. async_induction c. Qed.

Lemma ends_bind {A B} (Q : B → Prop) (c : Async A) (f : A → Async B) :
  ends (λ a, ends Q (f a)) c → ends Q (c ≫= f).
Proof. unfold mbind, Async_bind. async_induction c. Qed.

Lemma ends_try_catch {A} (Q : A → Prop) (c : Async A) (handler : string → Async A) :
  ends Q c → (∀ e, ends Q (handler e)) → ends Q (try_catch c handler).
Proof. intros Hc Hh. async_induction c. Qed.

Lemma returns_ends {A} (Q : A → Prop) (c : Async A) : returns Q c → ends Q c.
Proof. async_induction c. Qed.

Lemma returns_mono {A} (Q Q' : A → Prop) (c : Async A) :
  (∀ a, Q a → Q' a) → returns Q c → returns Q' c.
Proof. intros HQ. async_induction c. Qed.

Lemma returns_bind {A B} (Q : B → Prop) (c : Async A) (f : A → Async B) :
  returns (λ a, returns Q (f a)) c → returns Q (c ≫= f).
Proof. unfold mbind, Async_bind. async_induction c. Qed.

(** A [try] whose handler returns always returns. *)
Lemma returns_try_catch {A} (Q : A → Prop) (c : Async A) (handler : string → Async A) :
  ends Q c → (∀ e, returns Q (handler e)) → returns Q (try_catch c handler).
Proof. intros Hc Hh. async_induction c. Qed.

(** A [try] around code that cannot throw is that code. *)
Lemma returns_try_catch_id {A} (Q : A → Prop) (c : Async A) (handler : string → Async A) :
  returns Q c → returns Q (try_catch c handler).
Proof. async_induction c. Qed.

Lemma returns_run {A} (Q : A → Prop) (c : Async A) (o : Oracle) (m : Machine) :
  returns Q c → ∃ a m', run o c m = (Returned a, m') ∧ Q a.
Proof. revert m. async_induction c. Qed.

(** Unfolding of the primitive operations of the monad. *)
Ltac async_simpl :=
  unfold effect, get, modify, await, await_caught, mbind, mret, Async_bind, Async_ret;
  cbn.

Lemma ends_close (Q : unit → Prop) : Q tt → ends Q BrowserManager.close.
Proof.
  intros HQ. unfold BrowserManager.close. cbn. intros h.
  destruct (page (state h)); cbn; intros; repeat (case_match; cbn; intros); assumption.
Qed.

Lemma ends_launch (Q : unit → Prop) (options : Command) :
  Q tt → ends Q (BrowserManager.launch options).
Proof.
  intros HQ. unfold BrowserManager.launch.
  apply ends_bind. cbn. intros h. apply ends_bind.
  destruct (browser (state h)).
  - apply ends_close. cbn. intros [b|e]; cbn; [|exact I].
    intros h1 [c|e]; cbn; [|exact I]. intros h2 [p|e]; cbn; [|exact I]. intros h3. exact HQ.
  - cbn. intros [b|e]; cbn; [|exact I].
    intros h1 [c|e]; cbn; [|exact I]. intros h2 [p|e]; cbn; [|exact I]. intros h3. exact HQ.
Qed.

(** [executeCommand] always returns a Response. *)
Lemma returns_executeCommand (cmd : Command) :
  returns (λ _, True) (executeCommand cmd).
Proof.
  unfold executeCommand. apply returns_try_catch; [|intros e; exact I].
  destruct (bool_decide (cmd_action cmd = "launch")); [|destruct (bool_decide (cmd_action cmd = "close"))].
  - apply ends_bind, ends_launch. exact I.
  - apply ends_bind, ends_close. exact I.
  - apply ends_bind. cbn. intros h. destruct (page (state h)); cbn; [|exact I].
    intros [d|e]; exact I.
Qed.

Section Line.
Context `{Protocol}.

(** The body of the loop always returns; it returns [Return] exactly for a
    close command. *)
Lemma returns_process_line (c : conn) (line : string) :
  returns (λ ctl, ctl = if is_close line then Return else Continue) (process_line c line).
Proof.
  unfold process_line, is_close.
  destruct (JS.is_empty (JS.trim line)); [reflexivity|]. cbn [negb andb].
  destruct (parseCommand line) as [command|id error].
  - destruct (bool_decide (cmd_action command = "close")) eqn:Hclose.
    + apply returns_try_catch_id. apply returns_bind. cbn [returns get]. intros h.
      apply bool_decide_eq_true in Hclose.
      rewrite (bool_decide_eq_false_2 (cmd_action command ≠ "close")) by (intros Hn; contradiction).
      rewrite andb_false_r. cbn [returns mbind Async_bind bind].
      apply returns_bind.
      apply (returns_mono (λ _, True)); [|apply returns_executeCommand].
      intros response _. async_simpl. intros h'.
      destruct (shuttingDown h'); async_simpl; reflexivity.
    + apply returns_try_catch; [|intros e; async_simpl; reflexivity].
      apply ends_bind. cbn [ends get]. intros h. apply ends_bind.
      assert (ends (λ ctl, ctl = Continue)
                (executeCommand command ≫= λ response,
                   effect (SocketWrite c (frame response));; Ret Continue)) as Hrest.
      { apply ends_bind, returns_ends.
        apply (returns_mono (λ _, True)); [|apply returns_executeCommand].
        intros response _. async_simpl. reflexivity. }
      destruct (negb (BrowserManager.isLaunched h) && _ && _).
      * apply ends_launch. exact Hrest.
      * exact Hrest.
  - apply returns_try_catch_id. async_simpl. reflexivity.
Qed.

(** What [run] makes of one line. *)
Lemma run_process_line (o : Oracle) (c : conn) (line : string) (m : Machine) :
  ∃ m', run o (process_line c line) m =
          (Returned (if is_close line then Return else Continue), m').
Proof.
  destruct (returns_run _ _ o m (returns_process_line c line)) as (ctl & m' & Hrun & ->).
  eauto.
Qed.

End Line.

(** ** Framing: the line buffer *)

Lemma app_cons (a : ascii) (s t : string) : String a s +:+ t = String a (s +:+ t).
Proof. reflexivity. Qed.

Lemma app_empty_l (s : string) : EmptyString +:+ s = s.
Proof. reflexivity. Qed.

Lemma app_empty_r (s : string) : s +:+ EmptyString = s.
Proof. induction s as [|a s IH]; [reflexivity|]. rewrite app_cons, IH. reflexivity. Qed.

Lemma app_assoc_s (s t u : string) : (s +:+ t) +:+ u = s +:+ t +:+ u.
Proof. induction s as [|a s IH]; [reflexivity|]. rewrite !app_cons, IH. reflexivity. Qed.

Lemma length_app_s (s t : string) :
  String.length (s +:+ t) = (String.length s + String.length t)%nat.
Proof. induction s as [|a s IH]; [reflexivity|]. rewrite app_cons. cbn. rewrite IH. reflexivity. Qed.

(** [buffer.indexOf('\n')] on a buffer that starts with a line. *)
Lemma indexOf_line (line rest : string) :
  JS.indexOf JS.newline line = None →
  JS.indexOf JS.newline (line +:+ String JS.newline rest) = Some (String.length line).
Proof.
  induction line as [|a line IH]; intros Hfree.
  - reflexivity.
  - rewrite app_cons. cbn in *. destruct (Ascii.eqb a JS.newline); [discriminate|].
    destruct (JS.indexOf JS.newline line); [discriminate|].
    rewrite IH by reflexivity. reflexivity.
Qed.

Lemma indexOf_free_app (s t : string) :
  JS.indexOf JS.newline s = None →
  JS.indexOf JS.newline (s +:+ t) = (λ i, String.length s + i)%nat <$> JS.indexOf JS.newline t.
Proof.
  induction s as [|a s IH]; intros Hfree.
  - rewrite app_empty_l. destruct (JS.indexOf JS.newline t); reflexivity.
  - rewrite app_cons. cbn in *. destruct (Ascii.eqb a JS.newline); [discriminate|].
    destruct (JS.indexOf JS.newline s); [discriminate|].
    rewrite IH by reflexivity. destruct (JS.indexOf JS.newline t); reflexivity.
Qed.

Lemma take_line (line rest : string) : JS.take (String.length line) (line +:+ rest) = line.
Proof.
  induction line as [|a line IH].
  - cbn. destruct rest; reflexivity.
  - rewrite app_cons. cbn. rewrite IH. reflexivity.
Qed.

Lemma drop_line (line rest : string) : JS.drop (String.length line) (line +:+ rest) = rest.
Proof.
  induction line as [|a line IH].
  - cbn. destruct rest; reflexivity.
  - rewrite app_cons. cbn. exact IH.
Qed.

Lemma drop_line_newline (line rest : string) :
  JS.drop (String.length line + 1) (line +:+ String JS.newline rest) = rest.
Proof.
  induction line as [|a line IH].
  - reflexivity.
  - rewrite app_cons. cbn. exact IH.
Qed.

(** The three string operations of one turn of the loop, on a buffer that
    starts with a line. *)
Lemma cut_line (line rest : string) :
  JS.indexOf JS.newline line = None →
  let buffer := line +:+ String JS.newline rest in
  JS.includes JS.newline buffer = true ∧
  JS.substring 0 (default 0%nat (JS.indexOf JS.newline buffer)) buffer = line ∧
  JS.substring_from (default 0%nat (JS.indexOf JS.newline buffer) + 1) buffer = rest.
Proof.
  intros Hfree buffer. unfold JS.includes, JS.substring, JS.substring_from, buffer.
  rewrite (indexOf_line _ _ Hfree). cbn [default]. repeat split.
  - rewrite Nat.sub_0_r. change (JS.drop 0 ?s) with s. apply take_line.
  - apply drop_line_newline.
Qed.


Lemma includes_free (s : string) :
  JS.indexOf JS.newline s = None → JS.includes JS.newline s = false.
Proof. unfold JS.includes. intros ->. reflexivity. Qed.

(** *** The stream cut into lines *)

Lemma split_lines_free (s : string) :
  JS.indexOf JS.newline s = None → split_lines s = ([], s).
Proof.
  induction s as [|a s IH]; cbn; [reflexivity|].
  destruct (Ascii.eqb a JS.newline); [discriminate|].
  destruct (JS.indexOf JS.newline s); [discriminate|]. intros _.
  rewrite IH by reflexivity. reflexivity.
Qed.

Lemma split_lines_line (line rest : string) :
  JS.indexOf JS.newline line = None →
  split_lines (line +:+ String JS.newline rest) =
    (line :: fst (split_lines rest), snd (split_lines rest)).
Proof.
  induction line as [|a line IH]; intros Hfree.
  - rewrite app_empty_l. cbn. destruct (split_lines rest). reflexivity.
  - rewrite app_cons. cbn in *. destruct (Ascii.eqb a JS.newline); [discriminate|].
    destruct (JS.indexOf JS.newline line); [discriminate|].
    rewrite IH by reflexivity. reflexivity.
Qed.

Lemma split_lines_newline_free (s : string) :
  Forall newline_free (lines s) ∧ newline_free (snd (split_lines s)).
Proof.
  unfold lines, newline_free. induction s as [|a s [IHl IHp]]; cbn.
  - split; [constructor | reflexivity].
  - destruct (split_lines s) as [ls part]. cbn in *.
    destruct (Ascii.eqb a JS.newline) eqn:Ha; cbn.
    + split; [constructor; [reflexivity | assumption] | assumption].
    + destruct ls as [|l ls]; cbn.
      * split; [constructor|]. rewrite Ha, IHp. reflexivity.
      * inversion IHl as [|? ? Hl Hls]; subst. split; [|assumption].
        constructor; [|assumption]. cbn. rewrite Ha, Hl. reflexivity.
Qed.

Lemma unlines_app (xs ys : list string) : unlines (xs ++ ys) = unlines xs +:+ unlines ys.
Proof.
  induction xs as [|x xs IH]; [reflexivity|]. cbn [unlines app].
  rewrite IH, !app_assoc_s. reflexivity.
Qed.

(** Cutting is inverse to joining. *)
Lemma split_lines_unlines (ls : list string) (t : string) :
  Forall newline_free ls →
  split_lines (unlines ls +:+ t) = (ls ++ lines t, snd (split_lines t)).
Proof.
  unfold lines. induction 1 as [|l ls Hl Hls IH]; cbn [unlines].
  - rewrite app_empty_l. destruct (split_lines t); reflexivity.
  - unfold newline_str. rewrite !app_assoc_s, app_cons, app_empty_l.
    rewrite split_lines_line by assumption. rewrite IH. reflexivity.
Qed.

Lemma unlines_split_lines (s : string) : unlines (lines s) +:+ snd (split_lines s) = s.
Proof.
  unfold lines. induction s as [|a s IH]; [reflexivity|]. cbn [split_lines].
  destruct (split_lines s) as [ls part]. cbn [fst snd] in *.
  destruct (Ascii.eqb a JS.newline) eqn:Ha; cbn [fst snd].
  - apply Ascii.eqb_eq in Ha. subst a. cbn [unlines]. unfold newline_str.
    rewrite app_empty_l, !app_cons, app_empty_l, IH. reflexivity.
  - destruct ls as [|l ls]; cbn [fst snd unlines] in *.
    + rewrite app_empty_l in *. rewrite IH. reflexivity.
    + rewrite !app_cons, IH. reflexivity.
Qed.

(** The lines of a stream extended by a read. *)
Lemma split_lines_app (s t : string) :
  split_lines (s +:+ t) =
    (lines s ++ lines (snd (split_lines s) +:+ t),
     snd (split_lines (snd (split_lines s) +:+ t))).
Proof.
  rewrite <- (unlines_split_lines s) at 1. rewrite app_assoc_s.
  apply split_lines_unlines, split_lines_newline_free.
Qed.

Section Framing.
Context `{Protocol}.

(** One turn of the loop on a buffer that starts with a line. *)
Lemma drain_line (fuel : nat) (o : Oracle) (c : conn) (line rest : string) (m : Machine) :
  JS.indexOf JS.newline line = None →
  drain (S fuel) o c (line +:+ String JS.newline rest) m =
    match run o (process_line c line) m with
    | (Returned Continue, m') => drain fuel o c rest m'
    | (_, m') => (rest, m')
    end.
Proof.
  intros Hfree. destruct (cut_line line rest Hfree) as (Hinc & Hline & Hrest).
  cbn [drain]. rewrite Hinc, Hline, Hrest. reflexivity.
Qed.

(** The loop leaves a buffer without newline as it is. *)
Lemma drain_partial (fuel : nat) (o : Oracle) (c : conn) (part : string) (m : Machine) :
  JS.indexOf JS.newline part = None → drain fuel o c part m = (part, m).
Proof.
  intros Hfree. destruct fuel; [reflexivity|]. cbn [drain].
  rewrite (includes_free _ Hfree). reflexivity.
Qed.


(** The loop on a buffer of whole lines followed by a partial one is the
    dispatch of these lines. *)
Lemma drain_dispatch (fuel : nat) (o : Oracle) (c : conn) (ls : list string)
    (part : string) (m : Machine) :
  Forall newline_free ls → newline_free part →
  (String.length (unlines ls +:+ part) < fuel)%nat →
  drain fuel o c (unlines ls +:+ part) m =
    (unlines (fst (dispatch o c ls m)) +:+ part, snd (dispatch o c ls m)).
Proof.
  intros Hls Hpart. revert fuel m. induction Hls as [|l ls Hl Hls IH]; intros fuel m Hfuel.
  - cbn. rewrite app_empty_l. apply drain_partial, Hpart.
  - destruct fuel as [|fuel]; [lia|].
    cbn [unlines dispatch] in *. unfold newline_str in *.
    rewrite !app_assoc_s, app_cons, app_empty_l in *.
    rewrite drain_line by assumption.
    rewrite length_app_s in Hfuel. cbn in Hfuel.
    destruct (run o (process_line c l) m) as [[[]| |] m']; try reflexivity.
    apply IH. lia.
Qed.

Lemma upto_close_prefix (ls : list string) :
  upto_close ls = take (length (upto_close ls)) ls.
Proof.
  induction ls as [|l ls IH]; [reflexivity|]. cbn.
  destruct (is_close l); cbn; [reflexivity|]. rewrite <- IH. reflexivity.
Qed.

Lemma upto_close_length (ls : list string) : (length (upto_close ls) ≤ length ls)%nat.
Proof.
  induction ls as [|l ls IH]; cbn; [lia|]. destruct (is_close l); cbn; lia.
Qed.

Lemma upto_close_app (xs ys : list string) :
  upto_close (xs ++ ys) = upto_close xs ∨
  (upto_close xs = xs ∧ upto_close (xs ++ ys) = xs ++ upto_close ys).
Proof.
  induction xs as [|x xs IH]; cbn; [right; split; reflexivity|].
  destruct (is_close x); [left; reflexivity|].
  destruct IH as [-> | [Hx ->]]; [left; reflexivity|].
  right. rewrite Hx. split; reflexivity.
Qed.

Lemma dispatch_all_app (o : Oracle) (c : conn) (xs ys : list string) (m : Machine) :
  dispatch_all o c (xs ++ ys) m = dispatch_all o c ys (dispatch_all o c xs m).
Proof. apply foldl_app. Qed.

(** The loop dispatches the lines up to and including the first close
    command, each once and in order, and leaves the others. *)
Lemma dispatch_upto_close (o : Oracle) (c : conn) (ls : list string) (m : Machine) :
  dispatch o c ls m =
    (drop (length (upto_close ls)) ls, dispatch_all o c (upto_close ls) m).
Proof.
  revert m. induction ls as [|l ls IH]; intros m; [reflexivity|].
  cbn [dispatch upto_close].
  destruct (run_process_line o c l m) as [m' Hrun]. rewrite Hrun.
  destruct (is_close l).
  - cbn. unfold dispatch_all. cbn. rewrite Hrun. reflexivity.
  - rewrite IH. cbn. unfold dispatch_all. cbn. rewrite Hrun. reflexivity.
Qed.

(** One read, from a buffer that holds the lines not yet dispatched. *)
Lemma on_data_step (o : Oracle) (c : conn) (m0 : Machine) (s0 chunk : string) (n : nat) :
  (length (upto_close (lines s0)) ≤ n ≤ length (lines s0))%nat →
  ∃ n',
    (length (upto_close (lines (s0 +:+ chunk))) ≤ n' ≤ length (lines (s0 +:+ chunk)))%nat ∧
    on_data o c chunk
      (unlines (drop n (lines s0)) +:+ snd (split_lines s0),
       dispatch_all o c (take n (lines s0)) m0) =
      (unlines (drop n' (lines (s0 +:+ chunk))) +:+ snd (split_lines (s0 +:+ chunk)),
       dispatch_all o c (take n' (lines (s0 +:+ chunk))) m0).
Proof.
  intros [Hlo Hhi].
  set (L0 := lines s0) in *. set (P0 := snd (split_lines s0)) in *.
  set (L1 := lines (P0 +:+ chunk)). set (P1 := snd (split_lines (P0 +:+ chunk))).
  assert (lines (s0 +:+ chunk) = L0 ++ L1) as HL
    by (unfold lines; rewrite split_lines_app; reflexivity).
  assert (snd (split_lines (s0 +:+ chunk)) = P1) as HP
    by (rewrite split_lines_app; reflexivity).
  rewrite HL, HP.
  destruct (split_lines_newline_free s0) as [HfL0 _].
  destruct (split_lines_newline_free (P0 +:+ chunk)) as [HfL1 HfP1].
  fold L0 in HfL0. fold L1 in HfL1. fold P1 in HfP1.
  set (rest := drop n L0 ++ L1).
  assert (Forall newline_free rest) as Hfrest.
  { apply Forall_app. split; [|assumption].
    rewrite <- (take_drop n L0) in HfL0. apply Forall_app in HfL0. apply HfL0. }
  assert ((unlines (drop n L0) +:+ P0) +:+ chunk = unlines rest +:+ P1) as Hbuf.
  { unfold rest. rewrite unlines_app, !app_assoc_s. f_equal.
    symmetry. apply unlines_split_lines. }
  exists (n + length (upto_close rest))%nat.
  assert (drop n (L0 ++ L1) = rest) as Hdrop.
  { unfold rest. rewrite drop_app_le by lia. reflexivity. }
  split.
  - split.
    + destruct (upto_close_app L0 L1) as [-> | [Hall ->]]; [lia|].
      rewrite Hall in Hlo. assert (n = length L0) as -> by lia.
      unfold rest. rewrite drop_all. cbn. rewrite length_app. lia.
    + pose proof (upto_close_length rest) as Hle. rewrite <- Hdrop in Hle at 2.
      rewrite length_drop in Hle. rewrite length_app in *. lia.
  - unfold on_data. cbn [fst snd]. rewrite Hbuf.
    rewrite drain_dispatch by (assumption || lia).
    rewrite dispatch_upto_close. cbn [fst snd].
    pose proof (upto_close_prefix rest) as Hk.
    remember (length (upto_close rest)) as k eqn:Ek. clear Ek.
    f_equal.
    + f_equal. rewrite <- Hdrop. rewrite drop_drop. reflexivity.
    + rewrite <- dispatch_all_app. f_equal. rewrite Hk, <- Hdrop.
      rewrite <- (take_app_le L0 L1 n) by lia. apply take_take_drop.
Qed.

End Framing.

(** ** Reads on one connection *)

Section Reads.
Context `{Protocol}.

Lemma on_reads_from (o : Oracle) (c : conn) (m0 : Machine) (chunks : list string)
    (s0 : string) (n : nat) :
  (length (upto_close (lines s0)) ≤ n ≤ length (lines s0))%nat →
  ∃ n',
    (length (upto_close (lines (s0 +:+ stream chunks))) ≤ n'
       ≤ length (lines (s0 +:+ stream chunks)))%nat ∧
    on_reads o c chunks
      (unlines (drop n (lines s0)) +:+ snd (split_lines s0),
       dispatch_all o c (take n (lines s0)) m0) =
      (unlines (drop n' (lines (s0 +:+ stream chunks)))
         +:+ snd (split_lines (s0 +:+ stream chunks)),
       dispatch_all o c (take n' (lines (s0 +:+ stream chunks))) m0).
Proof.
  revert s0 n. induction chunks as [|chunk chunks IH]; intros s0 n Hn.
  - exists n. cbn [stream foldr]. rewrite app_empty_r. split; [assumption | reflexivity].
  - destruct (on_data_step o c m0 s0 chunk n Hn) as (n1 & Hn1 & Hstep).
    destruct (IH (s0 +:+ chunk) n1 Hn1) as (n' & Hn' & Hrest).
    exists n'. cbn [stream foldr]. rewrite <- app_assoc_s.
    split; [assumption|].
    unfold on_reads in *. cbn [foldl]. rewrite Hstep. exact Hrest.
Qed.

(** Reads given as texts, handled one after the other: the lines dispatched
    are the first [n] newline-terminated lines of their concatenation, each
    dispatched exactly once and in order; they include every line up to and
    including the first close command; the lines not dispatched and the
    unfinished line stay in the buffer. *)
Lemma texts_dispatch_lines_in_order (o : Oracle) (c : conn) (chunks : list string)
    (m : Machine) :
  let all := lines (stream chunks) in
  ∃ n,
    (length (upto_close all) ≤ n ≤ length all)%nat ∧
    on_reads o c chunks (EmptyString, m) =
      (unlines (drop n all) +:+ snd (split_lines (stream chunks)),
       dispatch_all o c (take n all) m).
Proof.
  cbn zeta.
  destruct (on_reads_from o c m chunks EmptyString 0) as (n & Hn & Hrun).
  - cbn. lia.
  - exists n. split; [exact Hn|]. exact Hrun.
Qed.

(** Without a close command every line of the stream is dispatched. *)
Corollary reads_without_close (o : Oracle) (c : conn) (chunks : list string) (m : Machine) :
  upto_close (lines (stream chunks)) = lines (stream chunks) →
  on_reads o c chunks (EmptyString, m) =
    (snd (split_lines (stream chunks)), dispatch_all o c (lines (stream chunks)) m).
Proof.
  intros Hnone. destruct (on_reads_from o c m chunks EmptyString 0) as (n & Hn & Hrun).
  - cbn. lia.
  - rewrite app_empty_l in *. cbn in Hrun. rewrite Hrun. rewrite Hnone in Hn.
    assert (n = length (lines (stream chunks))) as -> by lia.
    rewrite drop_all, firstn_all. reflexivity.
Qed.


Section Chunks.
Context `{Decoder}.

Lemma on_chunks_on_reads (o : Oracle) (c : conn) (reads : list (list Byte.byte))
    (bm : string * Machine) :
  on_chunks o c reads bm = on_reads o c (toString <$> reads) bm.
Proof.
  revert bm. induction reads as [|data reads IH]; intros bm; [reflexivity|].
  unfold on_chunks, on_reads in *. cbn [foldl fmap list_fmap]. apply IH.
Qed.

(** C1 (amended). Whatever the way the bytes of a connection are split into
    reads, handled one after the other, the daemon works on the text made
    of the reads, each decoded on its own: the lines dispatched are the
    first [n] newline-terminated lines of that text, each dispatched
    exactly once and in order; they include every line up to and including
    the first close command, hence all lines when there is none; the lines
    not dispatched and the unfinished line stay in the buffer.  When
    decoding read by read gives the text of the whole stream, that is, when
    no read ends inside a character, these are the lines of the stream. *)
Theorem reads_dispatch_decoded_lines_in_order (o : Oracle) (c : conn)
    (reads : list (list Byte.byte)) (m : Machine) :
  let text := stream (toString <$> reads) in
  (∃ n,
     (length (upto_close (lines text)) ≤ n ≤ length (lines text))%nat ∧
     on_chunks o c reads (EmptyString, m) =
       (unlines (drop n (lines text)) +:+ snd (split_lines text),
        dispatch_all o c (take n (lines text)) m)) ∧
  (toString (mjoin reads) = text →
   ∃ n,
     (length (upto_close (lines (toString (mjoin reads)))) ≤ n
        ≤ length (lines (toString (mjoin reads))))%nat ∧
     on_chunks o c reads (EmptyString, m) =
       (unlines (drop n (lines (toString (mjoin reads))))
          +:+ snd (split_lines (toString (mjoin reads))),
        dispatch_all o c (take n (lines (toString (mjoin reads)))) m)).
Proof.
  cbn zeta.
  assert (∃ n,
    (length (upto_close (lines (stream (toString <$> reads)))) ≤ n
       ≤ length (lines (stream (toString <$> reads))))%nat ∧
    on_chunks o c reads (EmptyString, m) =
      (unlines (drop n (lines (stream (toString <$> reads))))
         +:+ snd (split_lines (stream (toString <$> reads))),
       dispatch_all o c (take n (lines (stream (toString <$> reads)))) m)) as Hreads.
  { rewrite on_chunks_on_reads.
    destruct (on_reads_from o c m (toString <$> reads) EmptyString 0) as (n & Hn & Hrun).
    - cbn. lia.
    - exists n. split; [exact Hn | exact Hrun]. }
  split; [exact Hreads|].
  intros ->. exact Hreads.
Qed.

End Chunks.

End Reads.


Lemma reads_dispatch_decoded_lines_in_order_witness :
  let whole := toString (Decoder := one_unit_per_byte) (mjoin split_reads) in
  let after := @on_chunks Codec.protocol one_unit_per_byte all_succeed 7%nat split_reads
                 (EmptyString, idle_machine) in
  whole = navigate_frame +:+ snapshot_frame ∧
  length (written 7%nat (trace (snd after))) = 2%nat ∧
  ∃ n,
    (length (upto_close (H := Codec.protocol) (lines whole)) ≤ n
       ≤ length (lines whole))%nat ∧
    after =
      (unlines (drop n (lines whole)) +:+ snd (split_lines whole),
       dispatch_all (H := Codec.protocol) all_succeed 7%nat (take n (lines whole))
         idle_machine).
Proof.
  cbv zeta. split; [vm_compute; reflexivity|]. split; [vm_compute; reflexivity|].
  apply (proj2 (@reads_dispatch_decoded_lines_in_order Codec.protocol one_unit_per_byte
                  all_succeed 7%nat split_reads idle_machine)).
  vm_compute. reflexivity.
Defined.


(** C1 (as stated). One read that carries a close command followed by a
    navigate command: the navigate line is never dispatched; it stays in the
    buffer and only the close command is answered, whereas the same stream
    delivered in two reads has both commands answered. *)
Lemma line_after_close_not_dispatched :
  let one_read := on_reads (H := Codec.protocol) all_succeed 7%nat
                    [close_frame +:+ navigate_frame] (EmptyString, idle_machine) in
  let two_reads := on_reads (H := Codec.protocol) all_succeed 7%nat
                     [close_frame; navigate_frame] (EmptyString, idle_machine) in
  snd one_read ≠
    dispatch_all (H := Codec.protocol) all_succeed 7%nat
      (lines (stream [close_frame +:+ navigate_frame])) idle_machine ∧
  fst one_read = navigate_frame ∧
  length (written 7%nat (trace (snd one_read))) = 1%nat ∧
  length (written 7%nat (trace (snd two_reads))) = 2%nat.
Proof.
  cbn zeta. split; [|vm_compute; repeat split].
  intros Heq. apply (f_equal (λ m, length (trace m))) in Heq.
  vm_compute in Heq. discriminate.
Qed.

(** ** Implicit acquisition *)

Lemma count_app (f : Event → bool) (xs ys : list Event) :
  count f (xs ++ ys) = (count f xs + count f ys)%nat.
Proof. induction xs as [|x xs IH]; cbn; [reflexivity|]. rewrite IH. lia. Qed.

Lemma launcher_auto_launch : BrowserManager.launcher auto_launch = Chromium.
Proof. reflexivity. Qed.

(** The interpreter on the primitive operations. *)
Lemma run_get (o : Oracle) (m : Machine) : run o get m = (Returned (heap m), m).
Proof. reflexivity. Qed.

Lemma run_modify (o : Oracle) (f : Heap → Heap) (m : Machine) :
  run o (modify f) m = (Returned tt, set_heap (f (heap m)) m).
Proof. reflexivity. Qed.

Lemma run_effect (o : Oracle) (e : Effect) (m : Machine) :
  run o (effect e) m = (Returned tt, perform e m).
Proof. reflexivity. Qed.

Lemma run_await (o : Oracle) (op : ExtOp) (m : Machine) :
  run o (await op) m =
    (match o (calls m) op with Resolved x => Returned x | Rejected e => Thrown e end,
     issue op m).
Proof. cbn. destruct (o (calls m) op); reflexivity. Qed.

Lemma run_getPage (o : Oracle) (m : Machine) :
  run o BrowserManager.getPage m =
    (match page (state (heap m)) with
     | Some p => Returned p
     | None => Thrown "Browser not launched. Call launch first."
     end, m).
Proof. cbn. destruct (page (state (heap m))); reflexivity. Qed.

Lemma run_ret {A} (o : Oracle) (a : A) (m : Machine) : run o (Ret a) m = (Returned a, m).
Proof. reflexivity. Qed.

(** Stepwise evaluation of [run] by rewriting. *)
Ltac run_step :=
  match goal with
  | |- context [run ?o (?c ≫= ?f) _] => rewrite (run_bind o c)
  | |- context [run ?o (try_catch ?c ?h) _] => rewrite (run_try_catch o c)
  | |- context [run ?o get _] => rewrite (run_get o)
  | |- context [run ?o (modify ?f) _] => rewrite (run_modify o f)
  | |- context [run ?o (effect ?e) _] => rewrite (run_effect o e)
  | |- context [run ?o BrowserManager.getPage _] => rewrite (run_getPage o)
  | |- context [run ?o BrowserManager.close _] => rewrite (run_close o)
  | |- context [run ?o (await ?op) _] => rewrite (run_await o op)
  | |- context [run ?o (Ret ?a) _] => rewrite (run_ret o a)
  end;
  cbv beta iota;
  cbn [heap state browser context page shuttingDown calls
       set_heap set_browser set_context set_page set_shuttingDown issue log perform
       BrowserManager.isLaunched negb andb default from_option id
       cmd_headless cmd_viewport cmd_browser auto_launch].

Ltac run_steps := repeat run_step.

(** Case analysis on the outcome of the next call. *)
Ltac oracle_case o :=
  match goal with
  | |- context [match o ?n ?op with _ => _ end] => destruct (o n op)
  end.

Section Acquire.
Context `{Protocol}.

(** The body of the loop for a command that is neither launch nor close. *)
Lemma process_action_line (c : conn) (line : string) (cmd : Command) :
  JS.is_empty (JS.trim line) = false →
  parseCommand line = ParseOk cmd →
  cmd_action cmd ≠ "launch" → cmd_action cmd ≠ "close" →
  process_line c line =
    try_catch
      (h ← get;
       (if negb (BrowserManager.isLaunched h) && true && true
        then BrowserManager.launch auto_launch else Ret tt);;
       response ← try_catch
                    (p ← BrowserManager.getPage;
                     d ← await (RunAction cmd p);
                     Ret (successResponse (cmd_id cmd) d))
                    (λ message, Ret (errorResponse (cmd_id cmd) message));
       effect (SocketWrite c (frame response));;
       Ret Continue)
      (λ message,
         effect (SocketWrite c (frame (errorResponse "error" message)));;
         Ret Continue).
Proof.
  intros Hblank Hparse Hl Hc. unfold process_line, executeCommand.
  rewrite Hblank, Hparse.
  rewrite !(bool_decide_eq_true_2 (_ ≠ _)) by assumption.
  rewrite !(bool_decide_eq_false_2 (_ = _)) by assumption.
  reflexivity.
Qed.

(** With a browser held, such a command launches nothing and keeps the
    browser. *)
Lemma action_line_when_launched (o : Oracle) (c : conn) (line : string) (cmd : Command)
    (m : Machine) (b : handle) :
  JS.is_empty (JS.trim line) = false →
  parseCommand line = ParseOk cmd →
  cmd_action cmd ≠ "launch" → cmd_action cmd ≠ "close" →
  browser (state (heap m)) = Some b →
  let m' := snd (run o (process_line c line) m) in
  browser (state (heap m')) = Some b ∧
  ∃ after, trace m' = trace m ++ after ∧ count is_launch after = 0%nat.
Proof.
  intros Hblank Hparse Hl Hc Hb.
  rewrite (process_action_line c line cmd) by assumption.
  destruct_machine m. cbn in Hb. subst b0. cbv zeta.
  run_steps.
  destruct p as [p|]; run_steps.
  - oracle_case o; run_steps; unfold_machine;
      (split; [reflexivity|]); eexists;
      (split; [rewrite <- ?app_assoc; reflexivity|]); reflexivity.
  - unfold_machine. split; [reflexivity|]. eexists. split; reflexivity.
Qed.

(** Without a browser, such a command first launches the default engine,
    headless, and opens a context with the default viewport; it launches
    once. *)
Lemma action_line_when_absent (o : Oracle) (c : conn) (line : string) (cmd : Command)
    (m : Machine) (b : handle) :
  JS.is_empty (JS.trim line) = false →
  parseCommand line = ParseOk cmd →
  cmd_action cmd ≠ "launch" → cmd_action cmd ≠ "close" →
  browser (state (heap m)) = None →
  o (calls m) (LauncherLaunch Chromium true) = Resolved b →
  let m' := snd (run o (process_line c line) m) in
  browser (state (heap m')) = Some b ∧
  ∃ after,
    trace m' = trace m ++
               Called (LauncherLaunch Chromium true) ::
               Called (NewContext b BrowserManager.default_viewport) :: after ∧
    count is_launch after = 0%nat.
Proof.
  intros Hblank Hparse Hl Hc Hb Ho.
  rewrite (process_action_line c line cmd) by assumption.
  destruct_machine m. cbn in Hb, Ho. subst b0. cbv zeta.
  run_steps. unfold BrowserManager.launch. run_steps.
  rewrite launcher_auto_launch, Ho. run_steps.
  oracle_case o; run_steps.
  - oracle_case o; run_steps.
    + oracle_case o; run_steps; unfold_machine;
        (split; [reflexivity|]); eexists;
        (split; [rewrite <- !app_assoc; reflexivity|]); reflexivity.
    + unfold_machine. split; [reflexivity|]. eexists.
      split; [rewrite <- !app_assoc; reflexivity|]. reflexivity.
  - unfold_machine. split; [reflexivity|]. eexists.
    split; [rewrite <- !app_assoc; reflexivity|]. reflexivity.
Qed.

Lemma dispatch_continue (o : Oracle) (c : conn) (l : string) (ls : list string)
    (m : Machine) :
  is_close l = false →
  dispatch o c (l :: ls) m = dispatch o c ls (snd (run o (process_line c l) m)).
Proof.
  intros Hl. cbn [dispatch].
  destruct (run_process_line o c l m) as [m' ->]. rewrite Hl. reflexivity.
Qed.

(** A read that consists of whole lines which are not close commands. *)
Lemma on_data_whole_lines (o : Oracle) (c : conn) (ls : list string) (m : Machine) :
  Forall newline_free ls →
  Forall (λ l, is_close l = false) ls →
  on_data o c (unlines ls) (EmptyString, m) = (EmptyString, dispatch_all o c ls m).
Proof.
  intros Hfree Hnone. unfold on_data. cbn [fst snd]. rewrite app_empty_l.
  rewrite <- (app_empty_r (unlines ls)) at 2.
  rewrite drain_dispatch; [|assumption|reflexivity|rewrite app_empty_r; lia].
  clear Hfree. revert m. induction Hnone as [|l ls Hl Hls IH]; intros m; [reflexivity|].
  rewrite dispatch_continue by assumption. apply IH.
Qed.

Lemma action_line_not_close (line : string) (cmd : Command) :
  parseCommand line = ParseOk cmd → cmd_action cmd ≠ "close" → is_close line = false.
Proof.
  intros Hparse Hc. unfold is_close. rewrite Hparse.
  rewrite bool_decide_eq_false_2 by assumption. apply andb_false_r.
Qed.

(** Commands handled one after the other.  A command that is neither
    launch nor close and finds no browser
    makes the daemon launch one first, with the default options (the
    default engine, headless, the default viewport) and before anything
    else is done for the command; when that launch succeeds, a second
    such command that follows launches nothing: after both commands there
    has been exactly one launch, whether they come in one read or in two
    reads handled one after the other. *)
Theorem implicit_acquisition_once (o : Oracle) (c : conn) (line1 line2 : string)
    (cmd1 cmd2 : Command) (m : Machine) (b : handle) :
  JS.is_empty (JS.trim line1) = false → JS.is_empty (JS.trim line2) = false →
  newline_free line1 → newline_free line2 →
  parseCommand line1 = ParseOk cmd1 → parseCommand line2 = ParseOk cmd2 →
  cmd_action cmd1 ≠ "launch" → cmd_action cmd1 ≠ "close" →
  cmd_action cmd2 ≠ "launch" → cmd_action cmd2 ≠ "close" →
  browser (state (heap m)) = None →
  o (calls m) (LauncherLaunch Chromium true) = Resolved b →
  let m1 := snd (run o (process_line c line1) m) in
  let m2 := snd (run o (process_line c line2) m1) in
  (∃ after,
     trace m1 = trace m ++
                Called (LauncherLaunch Chromium true) ::
                Called (NewContext b BrowserManager.default_viewport) :: after ∧
     count is_launch after = 0%nat) ∧
  count is_launch (trace m1) = S (count is_launch (trace m)) ∧
  count is_launch (trace m2) = S (count is_launch (trace m)) ∧
  on_data o c (unlines [line1; line2]) (EmptyString, m) = (EmptyString, m2) ∧
  on_reads o c [unlines [line1]; unlines [line2]] (EmptyString, m) = (EmptyString, m2).
Proof.
  intros Hb1 Hb2 Hf1 Hf2 Hp1 Hp2 Hl1 Hc1 Hl2 Hc2 Hnone Ho m1 m2.
  destruct (action_line_when_absent o c line1 cmd1 m b Hb1 Hp1 Hl1 Hc1 Hnone Ho)
    as (Hheld & after1 & Htr1 & Hcount1).
  fold m1 in Hheld, Htr1.
  destruct (action_line_when_launched o c line2 cmd2 m1 b Hb2 Hp2 Hl2 Hc2 Hheld)
    as (_ & after2 & Htr2 & Hcount2).
  fold m2 in Htr2.
  pose proof (action_line_not_close line1 cmd1 Hp1 Hc1) as Hn1.
  pose proof (action_line_not_close line2 cmd2 Hp2 Hc2) as Hn2.
  assert (count is_launch (trace m1) = S (count is_launch (trace m))) as Hone.
  { rewrite Htr1, count_app. cbn. rewrite Hcount1. lia. }
  repeat split.
  - exists after1. split; assumption.
  - exact Hone.
  - rewrite Htr2, count_app, Hcount2, Hone. lia.
  - rewrite on_data_whole_lines by (repeat constructor; assumption). reflexivity.
  - unfold on_reads. cbn [foldl].
    rewrite on_data_whole_lines by (repeat constructor; assumption).
    rewrite on_data_whole_lines by (repeat constructor; assumption). reflexivity.
Qed.

End Acquire.

Lemma implicit_acquisition_once_witness :
  let line1 := Codec.navigate "a1" "https://example.com" in
  let line2 := Codec.request "s3" "snapshot" in
  let m1 := snd (run all_succeed (process_line (H := Codec.protocol) 7%nat line1) idle_machine) in
  let m2 := snd (run all_succeed (process_line (H := Codec.protocol) 7%nat line2) m1) in
  (∃ after,
     trace m1 = trace idle_machine ++
                Called (LauncherLaunch Chromium true) ::
                Called (NewContext 0%nat BrowserManager.default_viewport) :: after ∧
     count is_launch after = 0%nat) ∧
  count is_launch (trace m1) = S (count is_launch (trace idle_machine)) ∧
  count is_launch (trace m2) = S (count is_launch (trace idle_machine)) ∧
  on_data (H := Codec.protocol) all_succeed 7%nat (unlines [line1; line2])
    (EmptyString, idle_machine) = (EmptyString, m2) ∧
  on_reads (H := Codec.protocol) all_succeed 7%nat [unlines [line1]; unlines [line2]]
    (EmptyString, idle_machine) = (EmptyString, m2).
Proof.
  apply (implicit_acquisition_once (H := Codec.protocol) all_succeed 7%nat
           (Codec.navigate "a1" "https://example.com") (Codec.request "s3" "snapshot")
           {| cmd_id := "a1"; cmd_action := "navigate"; cmd_browser := None;
              cmd_headless := None; cmd_viewport := None;
              cmd_params := [("id", JStr "a1"); ("action", JStr "navigate");
                             ("url", JStr "https://example.com")] |}
           {| cmd_id := "s3"; cmd_action := "snapshot"; cmd_browser := None;
              cmd_headless := None; cmd_viewport := None;
              cmd_params := [("id", JStr "s3"); ("action", JStr "snapshot")] |}
           idle_machine 0%nat);
    try reflexivity; try (vm_compute; discriminate).
Defined.

(** ** The close command *)

Section Close.
Context `{Protocol}.

(** The body of the loop for a close command. *)
Lemma process_close_line (c : conn) (line : string) (cmd : Command) :
  JS.is_empty (JS.trim line) = false →
  parseCommand line = ParseOk cmd →
  cmd_action cmd = "close" →
  process_line c line =
    try_catch
      (h ← get;
       (if negb (BrowserManager.isLaunched h) && true && false
        then BrowserManager.launch auto_launch else Ret tt);;
       response ← try_catch
                    (BrowserManager.close;;
                     Ret (successResponse (cmd_id cmd) (JObj [("closed", JBool true)])))
                    (λ message, Ret (errorResponse (cmd_id cmd) message));
       effect (SocketWrite c (frame response));;
       h ← get;
       (if negb (shuttingDown h) then
          modify (set_shuttingDown true);; effect (SetTimeout 100)
        else Ret tt);;
       Ret Return)
      (λ message,
         effect (SocketWrite c (frame (errorResponse "error" message)));;
         Ret Continue).
Proof.
  intros Hblank Hparse Hclose. unfold process_line, executeCommand.
  rewrite Hblank, Hparse, Hclose. reflexivity.
Qed.

(** The close command run to completion: release, response, grace timer. *)
Lemma run_close_line (o : Oracle) (c : conn) (line : string) (cmd : Command)
    (m : Machine) :
  JS.is_empty (JS.trim line) = false →
  parseCommand line = ParseOk cmd →
  cmd_action cmd = "close" →
  shuttingDown (heap m) = false →
  run o (process_line c line) m =
    (Returned Return,
     {| heap := {| state := BrowserManager.initial; shuttingDown := true |};
        os := os m; listening := listening m; timers := S (timers m);
        exited := exited m;
        trace := trace m ++ (Called <$> closes_of (state (heap m))) ++
                 [Did (SocketWrite c (frame (successResponse (cmd_id cmd)
                                              (JObj [("closed", JBool true)]))));
                  Did (SetTimeout 100)];
        calls := (length (closes_of (state (heap m))) + calls m)%nat |}).
Proof.
  intros Hblank Hparse Hclose Hflag.
  rewrite (process_close_line c line cmd) by assumption.
  destruct_machine m. cbn in Hflag. subst sd.
  run_steps. rewrite andb_false_r. run_steps.
  unfold_machine. rewrite <- !app_assoc. reflexivity.
Qed.

(** The expiry of the grace timer in the event loop. *)
Lemma fire_grace_timer (w : World) (n : nat) :
  exited (machine w) = None →
  timers (machine w) = S n →
  ∃ w',
    fire TimerFire w = Some w' ∧
    trace (machine w') =
      trace (machine w) ++ [Did ServerClose; Did CleanupSocket; Exited 0] ∧
    listening (machine w') = false ∧
    exited (machine w') = Some 0 ∧
    files (os (machine w')) !! SOCKET_PATH = None ∧
    files (os (machine w')) !! PID_FILE = None.
Proof.
  intros Hrun Htimers. unfold fire. rewrite Hrun, Htimers.
  eexists. split; [reflexivity|]. cbn. rewrite <- !app_assoc. cbn.
  repeat split; apply cleanupSocket_removes.
Qed.

End Close.

(** ** The discipline of asynchronous code *)

Lemma count_snoc (f : Event → bool) (tr : list Event) (ev : Event) :
  count f (tr ++ [ev]) = (count f tr + if f ev then 1 else 0)%nat.
Proof. rewrite count_app. cbn. lia. Qed.

Lemma footprint_issue (op : ExtOp) (m : Machine) : footprint (issue op m) = footprint m.
Proof.
  unfold footprint, issue, log. cbn. rewrite !count_snoc. cbn. rewrite !Nat.add_0_r.
  reflexivity.
Qed.

Lemma footprint_write (c : conn) (s : string) (m : Machine) :
  footprint (perform (SocketWrite c s) m) = footprint m.
Proof.
  unfold footprint, perform, log. cbn. rewrite !count_snoc. cbn. rewrite !Nat.add_0_r.
  reflexivity.
Qed.

Lemma footprint_set_heap (h : Heap) (m : Machine) :
  shuttingDown h = shuttingDown (heap m) → footprint (set_heap h m) = footprint m.
Proof. intros Hflag. unfold footprint, set_heap. cbn. rewrite Hflag. reflexivity. Qed.

Section Discipline.
Context (P : Machine → Prop) (R X : Machine → Machine → Prop).

(** What a segment that obeys does when it is run. *)
Lemma obeys_advance {A} (c : Async A) (m0 m : Machine) :
  obeys P R X c m0 m →
  match advance c m with
  | (Finished _, m') | (Raised _, m') => R m0 m'
  | (Halted, m') => X m0 m'
  | (Blocked op k, m') => R m0 m' ∧ ∀ r m1, P m1 → obeys P R X (k r) m1 m1
  end.
Proof.
  revert m. induction c as [a|e|k IH|h k IH|e k IH|code|op k IH]; intros m; cbn;
    intros Hc; try assumption; try (apply IH; assumption).
Qed.

Lemma obeys_bind {A B} (c : Async A) (f : A → Async B) (m0 m : Machine) :
  (∀ a, safe P R X (f a)) → obeys P R X c m0 m → obeys P R X (c ≫= f) m0 m.
Proof.
  intros Hf. unfold mbind, Async_bind. revert m0 m.
  induction c as [a|e|k IH|h k IH|e k IH|code|op k IH]; intros m0 m; cbn; intros Hc;
    try assumption; try (apply IH; assumption).
  - apply Hf, Hc.
  - destruct Hc as [Hr Hk]. split; [assumption|]. intros r m1 Hm1. apply IH, Hk, Hm1.
Qed.

Lemma obeys_try_catch {A} (c : Async A) (handler : string → Async A) (m0 m : Machine) :
  (∀ e, safe P R X (handler e)) → obeys P R X c m0 m →
  obeys P R X (try_catch c handler) m0 m.
Proof.
  intros Hh. revert m0 m.
  induction c as [a|e|k IH|h k IH|e k IH|code|op k IH]; intros m0 m; cbn; intros Hc;
    try assumption; try (apply IH; assumption).
  - apply Hh, Hc.
  - destruct Hc as [Hr Hk]. split; [assumption|]. intros r m1 Hm1. apply IH, Hk, Hm1.
Qed.

Lemma safe_bind {A B} (c : Async A) (f : A → Async B) :
  safe P R X c → (∀ a, safe P R X (f a)) → safe P R X (c ≫= f).
Proof. intros Hc Hf m0 m Hr. apply obeys_bind; [assumption | apply Hc, Hr]. Qed.

Lemma safe_try_catch {A} (c : Async A) (handler : string → Async A) :
  safe P R X c → (∀ e, safe P R X (handler e)) → safe P R X (try_catch c handler).
Proof. intros Hc Hh m0 m Hr. apply obeys_try_catch; [assumption | apply Hc, Hr]. Qed.

Lemma safe_ret {A} (a : A) : safe P R X (Ret a).
Proof. intros m0 m Hr. exact Hr. Qed.

Lemma safe_throw {A} (e : string) : safe P R X (@Throw A e).
Proof. intros m0 m Hr. exact Hr. Qed.

Lemma safe_get {A} (k : Heap → Async A) : (∀ h, safe P R X (k h)) → safe P R X (Get k).
Proof. intros Hk m0 m Hr. cbn. apply Hk, Hr. Qed.

Lemma safe_if {A} (b : bool) (c1 c2 : Async A) :
  safe P R X c1 → safe P R X c2 → safe P R X (if b then c1 else c2).
Proof. destruct b; auto. Qed.

(** The steps that every discipline below allows. *)
Hypothesis R_refl : ∀ m, P m → R m m.
Hypothesis R_issue : ∀ op m0 m, R m0 m → R m0 (issue op m).
Hypothesis R_write : ∀ c s m0 m, R m0 m → R m0 (perform (SocketWrite c s) m).
Hypothesis R_state :
  ∀ h m0 m, shuttingDown h = shuttingDown (heap m) → R m0 m → R m0 (set_heap h m).

Lemma safe_await (op : ExtOp) : safe P R X (await op).
Proof.
  intros m0 m Hr. cbn. split.
  - apply R_issue, Hr.
  - intros [x|e] m1 Hm1; cbn; apply R_refl, Hm1.
Qed.

Lemma safe_await_caught (op : ExtOp) : safe P R X (await_caught op).
Proof.
  intros m0 m Hr. cbn. split.
  - apply R_issue, Hr.
  - intros r m1 Hm1; cbn; apply R_refl, Hm1.
Qed.

Lemma safe_write (c : conn) (s : string) : safe P R X (effect (SocketWrite c s)).
Proof.
  intros m0 m Hr. cbn. apply R_write, Hr.
Qed.

(** An update of the manager's state. *)
Lemma safe_modify (f : Heap → Heap) :
  (∀ h, shuttingDown (f h) = shuttingDown h) → safe P R X (modify f).
Proof.
  intros Hf m0 m Hr. cbn. apply R_state; [apply Hf | exact Hr].
Qed.

Lemma safe_getPage : safe P R X BrowserManager.getPage.
Proof.
  unfold BrowserManager.getPage. apply safe_bind; [apply safe_get, safe_ret|].
  intros h. destruct (page (state h)); [apply safe_ret | apply safe_throw].
Qed.

Lemma safe_close : safe P R X BrowserManager.close.
Proof.
  unfold BrowserManager.close.
  apply safe_bind; [apply safe_get, safe_ret|]. intros h1.
  apply safe_bind.
  { destruct (page (state h1)); [|apply safe_ret].
    apply safe_bind; [apply safe_await_caught|]. intros _. apply safe_modify. reflexivity. }
  intros _. apply safe_bind; [apply safe_get, safe_ret|]. intros h2.
  apply safe_bind.
  { destruct (context (state h2)); [|apply safe_ret].
    apply safe_bind; [apply safe_await_caught|]. intros _. apply safe_modify. reflexivity. }
  intros _. apply safe_bind; [apply safe_get, safe_ret|]. intros h3.
  destruct (browser (state h3)); [|apply safe_ret].
  apply safe_bind; [apply safe_await_caught|]. intros _. apply safe_modify. reflexivity.
Qed.

Lemma safe_launch (options : Command) : safe P R X (BrowserManager.launch options).
Proof.
  unfold BrowserManager.launch.
  apply safe_bind; [apply safe_get, safe_ret|]. intros h.
  apply safe_bind; [destruct (browser (state h)); [apply safe_close | apply safe_ret]|].
  intros _. apply safe_bind; [apply safe_await|]. intros b.
  apply safe_bind; [apply safe_modify; reflexivity|]. intros _.
  apply safe_bind; [apply safe_await|]. intros c.
  apply safe_bind; [apply safe_modify; reflexivity|]. intros _.
  apply safe_bind; [apply safe_await|]. intros p.
  apply safe_modify. reflexivity.
Qed.

Lemma safe_executeCommand (cmd : Command) : safe P R X (executeCommand cmd).
Proof.
  unfold executeCommand. apply safe_try_catch; [|intros e; apply safe_ret].
  destruct (bool_decide (cmd_action cmd = "launch")); [|destruct (bool_decide _)].
  - apply safe_bind; [apply safe_launch | intros _; apply safe_ret].
  - apply safe_bind; [apply safe_close | intros _; apply safe_ret].
  - apply safe_bind; [apply safe_getPage|]. intros p.
    apply safe_bind; [apply safe_await | intros d; apply safe_ret].
Qed.

End Discipline.

(** *** The handlers keep to their discipline *)

Lemma handler_step_refl (m : Machine) : always m → handler_step m m.
Proof. intros _. unfold handler_step. cbn. repeat split. left. repeat split. auto. Qed.

Lemma handler_step_footprint (m0 m m' : Machine) :
  footprint m' = footprint m → handler_step m0 m → handler_step m0 m'.
Proof. unfold handler_step. intros ->. auto. Qed.

Lemma handler_step_issue (op : ExtOp) (m0 m : Machine) :
  handler_step m0 m → handler_step m0 (issue op m).
Proof. apply handler_step_footprint, footprint_issue. Qed.

Lemma handler_step_write (c : conn) (s : string) (m0 m : Machine) :
  handler_step m0 m → handler_step m0 (perform (SocketWrite c s) m).
Proof. apply handler_step_footprint, footprint_write. Qed.

Lemma handler_step_state (h : Heap) (m0 m : Machine) :
  shuttingDown h = shuttingDown (heap m) → handler_step m0 m → handler_step m0 (set_heap h m).
Proof. intros Hflag. apply handler_step_footprint, footprint_set_heap, Hflag. Qed.

Lemma shutdown_step_refl (m : Machine) : flag_held m → shutdown_step m m.
Proof. intros Hm. unfold shutdown_step. cbn. repeat split. exact Hm. Qed.

Lemma shutdown_step_footprint (m0 m m' : Machine) :
  footprint m' = footprint m → shutdown_step m0 m → shutdown_step m0 m'.
Proof. unfold shutdown_step. intros ->. auto. Qed.

Lemma shutdown_step_issue (op : ExtOp) (m0 m : Machine) :
  shutdown_step m0 m → shutdown_step m0 (issue op m).
Proof. apply shutdown_step_footprint, footprint_issue. Qed.

Lemma shutdown_step_write (c : conn) (s : string) (m0 m : Machine) :
  shutdown_step m0 m → shutdown_step m0 (perform (SocketWrite c s) m).
Proof. apply shutdown_step_footprint, footprint_write. Qed.

Lemma shutdown_step_state (h : Heap) (m0 m : Machine) :
  shuttingDown h = shuttingDown (heap m) → shutdown_step m0 m → shutdown_step m0 (set_heap h m).
Proof. intros Hflag. apply shutdown_step_footprint, footprint_set_heap, Hflag. Qed.

(** The guarded arming of the grace timer in the close branch. *)
Lemma safe_arm_timer :
  safe always handler_step never
    (h ← get;
     (if negb (shuttingDown h) then
        modify (set_shuttingDown true);; effect (SetTimeout 100)
      else Ret tt);;
     Ret Return).
Proof.
  intros m0 m Hr. cbn. destruct (shuttingDown (heap m)) eqn:Hflag; cbn; [exact Hr|].
  unfold handler_step in *. cbn in *. rewrite !count_snoc. cbn. rewrite !Nat.add_0_r.
  destruct Hr as (He & Hc & Hl & Hx & Hcase). repeat split; try assumption.
  right. destruct Hcase as [(Ht & Hti & Hmono) | (_ & Hb & _)]; [|congruence].
  repeat split; try lia.
  destruct (shuttingDown (heap m0)); [|reflexivity]. rewrite Hmono in Hflag by reflexivity.
  discriminate.
Qed.

(** The tear-down at the end of the signal handler, and of the grace timer. *)
Lemma safe_teardown {A} :
  safe flag_held shutdown_step teardown_step
    (effect ServerClose;; effect CleanupSocket;; @Exit A 0).
Proof.
  intros m0 m Hr. cbn. unfold shutdown_step, teardown_step in *. cbn in *.
  rewrite !count_snoc. cbn.
  destruct Hr as (He & Hc & Hl & Hx & Ht & Hti & Hf).
  repeat split; try lia; [eexists; reflexivity | intros _; exact Hf].
Qed.

Lemma obeys_get_bind {A} P R X (f : Heap → Async A) (m0 m : Machine) :
  obeys P R X (f (heap m)) m0 m → obeys P R X (get ≫= f) m0 m.
Proof. intros Hf. exact Hf. Qed.

Lemma obeys_modify_bind {A} P R X (g : Heap → Heap) (f : unit → Async A) (m0 m : Machine) :
  obeys P R X (f tt) m0 (set_heap (g (heap m)) m) → obeys P R X (modify g ≫= f) m0 m.
Proof. intros Hf. exact Hf. Qed.

(** The signal handler, from any machine. *)
Lemma obeys_shutdown (m : Machine) :
  obeys flag_held shutdown_step teardown_step (shutdown;; Ret Return) m m.
Proof.
  apply obeys_bind; [intros a; apply safe_ret|].
  unfold shutdown. apply obeys_get_bind.
  destruct (shuttingDown (heap m)) eqn:Hflag.
  - apply shutdown_step_refl, Hflag.
  - apply obeys_modify_bind.
    apply (safe_bind flag_held shutdown_step teardown_step).
    + apply safe_close;
        [apply shutdown_step_refl | apply shutdown_step_issue | apply shutdown_step_state].
    + intros _. apply safe_teardown.
    + unfold shutdown_step. cbn. repeat split.
Qed.

Section HandlerDiscipline.
Context `{Protocol}.

Lemma safe_process_line (c : conn) (line : string) :
  safe always handler_step never (process_line c line).
Proof.
  pose proof handler_step_refl as Hrefl. pose proof handler_step_issue as Hissue.
  pose proof handler_step_write as Hwrite. pose proof handler_step_state as Hstate.
  unfold process_line. apply safe_if; [apply safe_ret|].
  apply safe_try_catch.
  - destruct (parseCommand line) as [command|id error].
    + apply safe_bind; [apply safe_get, safe_ret|]. intros h.
      apply safe_bind.
      { apply safe_if; [apply safe_launch; assumption | apply safe_ret]. }
      intros _. apply safe_if.
      * apply safe_bind; [apply safe_executeCommand; assumption|]. intros response.
        apply safe_bind; [apply safe_write; assumption|]. intros _.
        apply safe_arm_timer.
      * apply safe_bind; [apply safe_executeCommand; assumption|]. intros response.
        apply safe_bind; [apply safe_write; assumption | intros _; apply safe_ret].
    + apply safe_bind; [apply safe_write; assumption | intros _; apply safe_ret].
  - intros e. apply safe_bind; [apply safe_write; assumption | intros _; apply safe_ret].
Qed.

End HandlerDiscipline.

(** ** The invariant of the event loop *)

Lemma filter_delete {A} (f : A → bool) (l : list A) (i : nat) (x : A) :
  l !! i = Some x →
  length (List.filter f l) =
    ((if f x then 1 else 0) + length (List.filter f (delete i l)))%nat.
Proof.
  revert i. induction l as [|y l IH]; intros [|i] Hi; try discriminate.
  - cbn in Hi. injection Hi as ->. cbn. destruct (f x); cbn; lia.
  - change (l !! i = Some x) in Hi.
    change (delete (S i) (y :: l)) with (y :: delete i l).
    cbn [List.filter]. destruct (f y); cbn [length]; rewrite (IH i Hi); destruct (f x); lia.
Qed.

Section Loop.
Context `{Protocol}.

Ltac settle :=
  unfold settled, handler_step, shutdown_step, teardown_step in *; cbn in *.

Lemma settled_handler_step (w : World) (m' : Machine) :
  settled w → handler_step (machine w) m' → settled (set_machine m' w).
Proof.
  settle. intros (H1 & H2 & H3 & H4 & H5 & H6) (He & Hc & Hl & Hx & Hcase).
  rewrite He, Hc, Hl, Hx.
  destruct Hcase as [(Ht & Hti & Hmono) | (Ha & Hb & Ht & Hti)].
  - rewrite Ht, Hti. repeat split; try tauto; try lia.
  - rewrite Ht, Hti, Hb.
    assert (count is_timeout (trace (machine w))
            + length (List.filter is_shutdown_task (pool w)) = 0)%nat as Hzero.
    { destruct (Nat.eq_dec (count is_timeout (trace (machine w))
                            + length (List.filter is_shutdown_task (pool w))) 0) as [|Hn];
        [assumption|].
      rewrite H5 in Ha by lia. discriminate. }
    repeat split; try tauto; try lia.
Qed.

Lemma settled_set_buffer (c : conn) (b : string) (w : World) :
  settled w → settled (set_buffer c b w).
Proof. intros Hw. exact Hw. Qed.

Lemma settled_suspend_handler (w : World) (t : Task) :
  settled w → is_shutdown_task t = false → task_ok t → settled (suspend t w).
Proof.
  settle. intros (H1 & H2 & H3 & H4 & H5 & H6) Ht Hok.
  rewrite List.filter_app, length_app. cbn. rewrite Ht. cbn. rewrite Nat.add_0_r.
  repeat split; try tauto. apply Forall_app. split; [assumption|]. constructor; [assumption|constructor].
Qed.

(** A segment of a ['data'] handler, and the loop that may follow it. *)
Lemma pump_settled (fuel : nat) (c : conn) (w : World) :
  settled w → settled (pump fuel c w).
Proof.
  revert w. induction fuel as [|fuel IH]; intros w Hw; [exact Hw|].
  cbn [pump]. destruct (JS.includes JS.newline (buffer_of c w)); [|exact Hw].
  set (w1 := set_buffer c _ w).
  assert (settled w1) as Hw1 by apply settled_set_buffer, Hw.
  pose proof (obeys_advance always handler_step never
                (process_line c (JS.substring 0
                   (default 0%nat (JS.indexOf JS.newline (buffer_of c w))) (buffer_of c w)))
                (machine w1) (machine w1)
                (safe_process_line c _ _ _ (handler_step_refl _ I))) as Hadv.
  destruct (advance _ (machine w1)) as [[[]|e| |op k] m'].
  - apply IH, settled_handler_step; assumption.
  - apply settled_handler_step; assumption.
  - apply settled_handler_step; assumption.
  - contradiction.
  - destruct Hadv as [Hstep Hk].
    apply settled_suspend_handler; [apply settled_handler_step; assumption | reflexivity |].
    intros r m. apply Hk. exact I.
Qed.

Lemma continue_handler_settled (c : conn) (body : Async LoopCtl) (w : World) :
  settled w →
  obeys always handler_step never body (machine w) (machine w) →
  settled (continue (Handler c) (advance body (machine w)) w).
Proof.
  intros Hw Hbody.
  pose proof (obeys_advance always handler_step never body _ _ Hbody) as Hadv.
  unfold continue. destruct (advance body (machine w)) as [[[]|e| |op k] m'].
  - apply pump_settled, settled_handler_step; assumption.
  - apply settled_handler_step; assumption.
  - apply settled_handler_step; assumption.
  - contradiction.
  - destruct Hadv as [Hstep Hk].
    apply settled_suspend_handler; [apply settled_handler_step; assumption | reflexivity |].
    intros r m. apply Hk. exact I.
Qed.

(** A segment of the signal handler, when no other shutdown is in
    flight. *)
Lemma continue_shutdown_settled (body : Async LoopCtl) (w : World) :
  settled w →
  exited (machine w) = None →
  (count is_timeout (trace (machine w))
   + length (List.filter is_shutdown_task (pool w)) = 0)%nat →
  obeys flag_held shutdown_step teardown_step body (machine w) (machine w) →
  settled (continue Shutdown (advance body (machine w)) w).
Proof.
  intros Hw Hrun Hzero Hbody.
  pose proof (obeys_advance flag_held shutdown_step teardown_step body _ _ Hbody) as Hadv.
  unfold continue. destruct (advance body (machine w)) as [[[]|e| |op k] m'];
    settle; destruct Hw as (H1 & H2 & H3 & H4 & H5 & H6); specialize (H1 Hrun).
  1-3: destruct Hadv as (He & Hc & Hl & Hx & Ht & Hti & Hf);
       rewrite He, Hc, Hl, Hx, Ht, Hti, Hf; repeat split; try tauto; lia.
  - destruct Hadv as (He & Hc & Hl & Hx & Ht & Hti & Hf).
    rewrite Hl, Hx, Ht, Hti. destruct He as [code He]. rewrite He.
    repeat split; try lia; try tauto; discriminate.
  - destruct Hadv as [(He & Hc & Hl & Hx & Ht & Hti & Hf) Hk].
    rewrite He, Hc, Hl, Hx, Ht, Hti, Hf.
    rewrite List.filter_app, length_app. cbn.
    repeat split; try tauto; try lia.
    apply Forall_app. split; [assumption|]. constructor; [|constructor].
    intros r m Hm. apply Hk, Hm.
Qed.


Lemma set_machine_id (w : World) : set_machine (machine w) w = w.
Proof. destruct w. reflexivity. Qed.

(** The signal handler returns at once when a shutdown is under way. *)
Lemma advance_shutdown_held (m : Machine) :
  shuttingDown (heap m) = true →
  advance (shutdown;; Ret Return) m = (Finished Return, m).
Proof. intros Hflag. unfold shutdown. cbn. rewrite Hflag. reflexivity. Qed.

(** Every label preserves the invariant. *)
Lemma fire_settled (l : Label) (w w' : World) :
  settled w → fire l w = Some w' → settled w'.
Proof.
  intros Hw. unfold fire. destruct (exited (machine w)) eqn:Hrun; [discriminate|].
  destruct l as [c chunk|i r| | |message].
  - intros Hfire; injection Hfire as <-. apply pump_settled, settled_set_buffer, Hw.
  - destruct (pool w !! i) as [t|] eqn:Hi; cbn; [|discriminate].
    destruct (cast (pending t) r) as [r'|]; cbn; [|discriminate].
    intros Hfire; injection Hfire as <-.
    pose proof (filter_delete is_shutdown_task _ _ _ Hi) as Hcount.
    assert (task_ok t) as Hok.
    { destruct Hw as (_ & _ & _ & _ & _ & Hall).
      rewrite Forall_forall in Hall. apply Hall. eapply list_elem_of_lookup_2, Hi. }
    assert (settled (set_pool (delete i (pool w)) w)) as Hw1.
    { unfold settled in *. cbn in *. destruct Hw as (H1 & H2 & H3 & H4 & H5 & H6).
      destruct (is_shutdown_task t);
        repeat split; try tauto; try lia;
        try (intros Hge; apply H5; lia); apply Forall_delete, H6. }
    unfold task_ok in Hok. unfold is_shutdown_task in Hcount at 2.
    destruct (owner t) as [c|].
    + apply (continue_handler_settled c _ (set_pool (delete i (pool w)) w) Hw1), Hok.
    + destruct Hw as (H1 & H2 & H3 & H4 & H5 & H6). cbn in H4, H5.
      apply (continue_shutdown_settled _ (set_pool (delete i (pool w)) w) Hw1).
      * exact Hrun.
      * cbn. lia.
      * apply Hok. apply H5. lia.
  - destruct (shuttingDown (heap (machine w))) eqn:Hflag.
    + rewrite advance_shutdown_held by assumption. cbn [continue].
      rewrite set_machine_id. intros Hfire; injection Hfire as <-. exact Hw.
    + intros Hfire; injection Hfire as <-.
      apply continue_shutdown_settled; [assumption | assumption | | apply obeys_shutdown].
      destruct Hw as (H1 & H2 & H3 & H4 & H5 & H6). cbn in H5.
      destruct (Nat.eq_dec (count is_timeout (trace (machine w))
                            + length (List.filter is_shutdown_task (pool w))) 0) as [|Hn];
        [assumption|].
      rewrite H5 in Hflag by lia. discriminate.
  - destruct (timers (machine w)) as [|n] eqn:Htimers; [discriminate|].
    intros Hfire; injection Hfire as <-. unfold settled in *. cbn.
    destruct Hw as (H1 & H2 & H3 & H4 & H5 & H6). specialize (H1 Hrun). cbn in *.
    rewrite !count_snoc. cbn.
    repeat split; try lia; try tauto; try discriminate; intros Hge; apply H5; lia.
  - intros Hfire; injection Hfire as <-. unfold settled in *. cbn.
    destruct Hw as (H1 & H2 & H3 & H4 & H5 & H6). specialize (H1 Hrun). cbn in *.
    rewrite !count_snoc. cbn.
    repeat split; try lia; try tauto; try discriminate; intros Hge; apply H5; lia.
Qed.

Lemma startDaemon_settled (pid : Z) (os0 : OS) : settled (startDaemon pid os0).
Proof.
  rewrite startDaemon_always_binds. unfold settled. cbn.
  repeat split; try lia; try constructor.
Qed.

Lemma reachable_settled (pid : Z) (os0 : OS) (w : World) :
  reachable pid os0 w → settled w.
Proof.
  induction 1 as [|l w w' _ IH Hfire]; [apply startDaemon_settled|].
  eapply fire_settled; eassumption.
Qed.

Lemma reachable_fire_all (pid : Z) (os0 : OS) (ls : list Label) (w w' : World) :
  reachable pid os0 w → fire_all ls w = Some w' → reachable pid os0 w'.
Proof.
  revert w. induction ls as [|l ls IH]; intros w Hw; cbn.
  - intros [= <-]. exact Hw.
  - destruct (fire l w) as [w1|] eqn:Hfire; cbn; [|discriminate].
    apply IH. eapply reach_fire; eassumption.
Qed.

(** C6. In every state that a daemon can reach, by any interleaving of
    reads, settlements of pending calls, signals, timer expiries and
    server errors: the server was closed at most once, the artefacts were
    cleaned up at most once and the process exited at most once; the grace
    timer was armed at most once; at most one shutdown is in flight (a
    pending grace timer or a suspended signal handler), and while one is,
    the [shuttingDown] flag is set. *)
Theorem shutdown_at_most_once (pid : Z) (os0 : OS) (w : World) :
  reachable pid os0 w →
  (count is_server_close (trace (machine w)) ≤ 1)%nat ∧
  (count is_cleanup (trace (machine w)) ≤ 1)%nat ∧
  (count is_exit (trace (machine w)) ≤ 1)%nat ∧
  (count is_timeout (trace (machine w)) ≤ 1)%nat ∧
  (shutdowns_in_flight w ≤ 1)%nat ∧
  (1 ≤ shutdowns_in_flight w → shuttingDown (heap (machine w)) = true)%nat.
Proof.
  intros Hreach. apply reachable_settled in Hreach.
  unfold settled, shutdowns_in_flight in *. cbn in *.
  destruct Hreach as (H1 & H2 & H3 & H4 & H5 & H6).
  repeat split; try tauto; try lia. intros Hge. apply H5. lia.
Qed.

End Loop.

Lemma shutdown_at_most_once_witness :
  let w := after close_then_signal fresh_daemon in
  exited (machine w) = Some 0 ∧
  (count is_server_close (trace (machine w)) ≤ 1)%nat ∧
  (count is_cleanup (trace (machine w)) ≤ 1)%nat ∧
  (count is_exit (trace (machine w)) ≤ 1)%nat ∧
  (count is_timeout (trace (machine w)) ≤ 1)%nat ∧
  (shutdowns_in_flight w ≤ 1)%nat ∧
  (1 ≤ shutdowns_in_flight w → shuttingDown (heap (machine w)) = true)%nat.
Proof.
  split; [vm_compute; reflexivity|].
  apply (shutdown_at_most_once (H := Codec.protocol) 4242 clean_os).
  apply (reachable_fire_all (H := Codec.protocol) 4242 clean_os close_then_signal fresh_daemon).
  - apply reach_start.
  - vm_compute. reflexivity.
Defined.

(** ** The order of the trace *)

Lemma armed_from_snoc (prev : bool) (tr : list Event) (ev : Event) :
  armed_from prev (tr ++ [ev]) =
    armed_from prev tr &&
    (if is_timeout ev then last_is_write prev tr && is_grace ev else true).
Proof.
  revert prev. induction tr as [|ev' tr IH]; intros prev; cbn.
  - rewrite andb_true_r. reflexivity.
  - rewrite IH, andb_assoc. reflexivity.
Qed.

Lemma last_is_write_snoc (prev : bool) (tr : list Event) (ev : Event) :
  last_is_write prev (tr ++ [ev]) = is_write ev.
Proof. revert prev. induction tr as [|ev' tr IH]; intros prev; cbn; [reflexivity | apply IH]. Qed.

(** A trace in order in which a timer was armed shows the write and the
    timer side by side. *)
Lemma armed_from_timeout (prev : bool) (tr : list Event) :
  armed_from prev tr = true →
  (0 < count is_timeout tr)%nat →
  (prev = true ∧ ∃ post, tr = Did (SetTimeout 100) :: post) ∨
  ∃ pre c s post, tr = pre ++ Did (SocketWrite c s) :: Did (SetTimeout 100) :: post.
Proof.
  revert prev. induction tr as [|ev tr IH]; intros prev; cbn; [lia|].
  intros Harmed Hcount. apply andb_true_iff in Harmed as [Hev Htr].
  destruct (is_timeout ev) eqn:Htimeout.
  - left. apply andb_true_iff in Hev as [-> Hgrace].
    destruct ev as [op|[c s|message|ms| |]|code]; try discriminate.
    cbn in Hgrace. apply bool_decide_eq_true in Hgrace as ->. eauto.
  - right. destruct (IH (is_write ev) Htr) as [[Hwrite [post ->]] | (pre & c & s & post & ->)];
      [lia| |].
    + destruct ev as [op|[c s|message|ms| |]|code]; try discriminate.
      exists [], c, s, post. reflexivity.
    + exists (ev :: pre), c, s, post. reflexivity.
Qed.

Lemma in_order_refl (m : Machine) : always m → in_order m m.
Proof. intros _ Hm. exact Hm. Qed.

Lemma in_order_log (ev : Event) (m0 m : Machine) :
  is_timeout ev = false → in_order m0 m → in_order m0 (log ev m).
Proof.
  intros Hev Hr Hm0. unfold log. cbn. rewrite armed_from_snoc, Hev, andb_true_r.
  apply Hr, Hm0.
Qed.

Lemma in_order_issue (op : ExtOp) (m0 m : Machine) : in_order m0 m → in_order m0 (issue op m).
Proof. intros Hr Hm0. unfold issue. cbn. rewrite armed_from_snoc. cbn. rewrite andb_true_r. apply Hr, Hm0. Qed.

Lemma in_order_perform (e : Effect) (m0 m : Machine) :
  is_timeout (Did e) = false → in_order m0 m → in_order m0 (perform e m).
Proof.
  intros He Hr Hm0. specialize (Hr Hm0).
  assert (trace (perform e m) = trace m ++ [Did e]) as ->.
  { unfold perform. destruct e; reflexivity. }
  rewrite armed_from_snoc, He, andb_true_r. exact Hr.
Qed.

Lemma in_order_write (c : conn) (s : string) (m0 m : Machine) :
  in_order m0 m → in_order m0 (perform (SocketWrite c s) m).
Proof. apply in_order_perform. reflexivity. Qed.

Lemma in_order_state (h : Heap) (m0 m : Machine) : in_order m0 m → in_order m0 (set_heap h m).
Proof. intros Hr. exact Hr. Qed.

Lemma in_order_halt (code : Z) (m0 m : Machine) : in_order m0 m → in_order m0 (halt code m).
Proof.
  intros Hr Hm0. unfold halt. cbn. rewrite armed_from_snoc. cbn. rewrite andb_true_r.
  apply Hr, Hm0.
Qed.

(** The response and the guarded arming of the grace timer in the close
    branch: the timer directly follows the write. *)
Lemma safe_write_then_arm (c : conn) (s : string) :
  safe always in_order in_order
    (effect (SocketWrite c s);;
     h ← get;
     (if negb (shuttingDown h) then
        modify (set_shuttingDown true);; effect (SetTimeout 100)
      else Ret tt);;
     Ret Return).
Proof.
  intros m0 m Hr. cbn. destruct (shuttingDown (heap m)); cbn; intros Hm0; cbn.
  - rewrite armed_from_snoc. cbn. rewrite andb_true_r. apply Hr, Hm0.
  - rewrite armed_from_snoc, last_is_write_snoc, armed_from_snoc. cbn.
    rewrite bool_decide_eq_true_2 by reflexivity. rewrite !andb_true_r. apply Hr, Hm0.
Qed.

(** A tear-down arms no timer. *)
Lemma safe_teardown_in_order {A} (e : Effect) (code : Z) :
  is_timeout (Did e) = false →
  safe always in_order in_order (effect e;; effect CleanupSocket;; @Exit A code).
Proof.
  intros He m0 m Hr.
  change (in_order m0 (halt code (perform CleanupSocket (perform e m)))).
  apply in_order_halt, in_order_perform; [reflexivity|].
  apply in_order_perform; assumption.
Qed.

Lemma safe_shutdown_in_order : safe always in_order in_order (shutdown;; Ret Return).
Proof.
  intros m0 m Hr. apply obeys_bind; [intros a; apply safe_ret|].
  unfold shutdown. apply obeys_get_bind.
  destruct (shuttingDown (heap m)); [exact Hr|].
  apply obeys_modify_bind.
  apply (safe_bind always in_order in_order).
  - apply safe_close;
      [apply in_order_refl | apply in_order_issue | intros h a b _; apply in_order_state].
  - intros _. apply (safe_teardown_in_order ServerClose 0). reflexivity.
  - apply in_order_state, Hr.
Qed.

Lemma safe_grace_callback_in_order :
  safe always in_order in_order (grace_callback;; Ret Return).
Proof.
  apply safe_bind; [|intros a; apply safe_ret].
  apply (safe_teardown_in_order ServerClose 0). reflexivity.
Qed.

Lemma safe_server_error_in_order (message : string) :
  safe always in_order in_order (server_error message;; Ret Return).
Proof.
  apply safe_bind; [|intros a; apply safe_ret].
  apply (safe_teardown_in_order (ConsoleError message) 1). reflexivity.
Qed.

Section Ordered.
Context `{Protocol}.

Lemma safe_process_line_in_order (c : conn) (line : string) :
  safe always in_order in_order (process_line c line).
Proof.
  pose proof in_order_refl as Hrefl. pose proof in_order_issue as Hissue.
  pose proof in_order_write as Hwrite.
  assert (∀ h m0 m, shuttingDown h = shuttingDown (heap m) →
                    in_order m0 m → in_order m0 (set_heap h m)) as Hstate
    by (intros h m0 m _; apply in_order_state).
  unfold process_line. apply safe_if; [apply safe_ret|].
  apply safe_try_catch.
  - destruct (parseCommand line) as [command|id error].
    + apply safe_bind; [apply safe_get, safe_ret|]. intros h.
      apply safe_bind.
      { apply safe_if; [apply safe_launch; assumption | apply safe_ret]. }
      intros _. apply safe_if.
      * apply safe_bind; [apply safe_executeCommand; assumption|]. intros response.
        apply safe_write_then_arm.
      * apply safe_bind; [apply safe_executeCommand; assumption|]. intros response.
        apply safe_bind; [apply safe_write; assumption | intros _; apply safe_ret].
    + apply safe_bind; [apply safe_write; assumption | intros _; apply safe_ret].
  - intros e. apply safe_bind; [apply safe_write; assumption | intros _; apply safe_ret].
Qed.

Lemma ordered_set_machine (w : World) (m : Machine) :
  ordered w → in_order (machine w) m → ordered (set_machine m w).
Proof. intros [Htrace Hpool] Hstep. split; [apply Hstep, Htrace | exact Hpool]. Qed.

Lemma ordered_suspend (w : World) (t : Task) :
  ordered w → (∀ r m, obeys always in_order in_order (resume t r) m m) →
  ordered (suspend t w).
Proof.
  intros [Htrace Hpool] Ht. split; [exact Htrace|]. cbn.
  apply Forall_app. split; [exact Hpool|]. constructor; [exact Ht | constructor].
Qed.

Lemma pump_ordered (fuel : nat) (c : conn) (w : World) :
  ordered w → ordered (pump fuel c w).
Proof.
  revert w. induction fuel as [|fuel IH]; intros w Hw; [exact Hw|].
  cbn [pump]. destruct (JS.includes JS.newline (buffer_of c w)); [|exact Hw].
  set (w1 := set_buffer c _ w).
  assert (ordered w1) as Hw1 by exact Hw.
  pose proof (obeys_advance always in_order in_order
                (process_line c (JS.substring 0
                   (default 0%nat (JS.indexOf JS.newline (buffer_of c w))) (buffer_of c w)))
                (machine w1) (machine w1)
                (safe_process_line_in_order c _ _ _ (in_order_refl _ I))) as Hadv.
  destruct (advance _ (machine w1)) as [[[]|e| |op k] m'].
  - apply IH, ordered_set_machine; assumption.
  - apply ordered_set_machine; assumption.
  - apply ordered_set_machine; assumption.
  - apply ordered_set_machine; assumption.
  - destruct Hadv as [Hstep Hk].
    apply ordered_suspend; [apply ordered_set_machine; assumption|].
    intros r m. apply Hk. exact I.
Qed.

(** A segment of any handler, run from a machine that differs from the
    machine of the world in its timers at most. *)
Lemma continue_ordered (ow : Owner) (body : Async LoopCtl) (m : Machine) (w : World) :
  ordered w → trace m = trace (machine w) →
  obeys always in_order in_order body m m →
  ordered (continue ow (advance body m) w).
Proof.
  intros Hw Htrace Hbody.
  pose proof (obeys_advance always in_order in_order body _ _ Hbody) as Hadv.
  assert (∀ m', in_order m m' → ordered (set_machine m' w)) as Hset.
  { intros m' Hstep. destruct Hw as [Hw Hpool]. split; [|exact Hpool].
    apply Hstep. rewrite Htrace. exact Hw. }
  unfold continue. destruct (advance body m) as [[[]|e| |op k] m'].
  - destruct ow as [c|]; [apply pump_ordered|]; apply Hset, Hadv.
  - apply Hset, Hadv.
  - apply Hset, Hadv.
  - apply Hset, Hadv.
  - destruct Hadv as [Hstep Hk]. apply ordered_suspend; [apply Hset, Hstep|].
    intros r m1. apply Hk. exact I.
Qed.

(** Every label preserves the order. *)
Lemma fire_ordered (l : Label) (w w' : World) :
  ordered w → fire l w = Some w' → ordered w'.
Proof.
  intros Hw. unfold fire. destruct (exited (machine w)); [discriminate|].
  destruct l as [c chunk|i r| | |message].
  - intros Hfire; injection Hfire as <-. apply pump_ordered. exact Hw.
  - destruct (pool w !! i) as [t|] eqn:Hi; cbn; [|discriminate].
    destruct (cast (pending t) r) as [r'|]; cbn; [|discriminate].
    intros Hfire; injection Hfire as <-.
    destruct Hw as [Htrace Hpool].
    apply continue_ordered; [split; [exact Htrace | apply Forall_delete, Hpool] | reflexivity |].
    rewrite Forall_forall in Hpool. apply Hpool. eapply list_elem_of_lookup_2, Hi.
  - intros Hfire; injection Hfire as <-.
    apply continue_ordered; [exact Hw | reflexivity |].
    apply safe_shutdown_in_order, in_order_refl. exact I.
  - destruct (timers (machine w)) as [|n]; [discriminate|].
    intros Hfire. apply (inj Some) in Hfire. subst w'.
    apply continue_ordered; [exact Hw | reflexivity |].
    apply safe_grace_callback_in_order, in_order_refl. exact I.
  - intros Hfire. apply (inj Some) in Hfire. subst w'.
    apply continue_ordered; [exact Hw | reflexivity |].
    apply safe_server_error_in_order, in_order_refl. exact I.
Qed.

Lemma reachable_ordered (pid : Z) (os0 : OS) (w : World) :
  reachable pid os0 w → ordered w.
Proof.
  induction 1 as [|l w w' _ IH Hfire]; [|eapply fire_ordered; eassumption].
  rewrite startDaemon_always_binds. split; [reflexivity | constructor].
Qed.

(** In every state that a daemon can reach, a grace timer that can expire
    was armed directly after a write to a socket, and nothing has been
    torn down. *)
Lemma timer_follows_response (pid : Z) (os0 : OS) (w : World) (n : nat) :
  reachable pid os0 w →
  exited (machine w) = None →
  timers (machine w) = S n →
  (∃ pre c s post,
     trace (machine w) = pre ++ Did (SocketWrite c s) :: Did (SetTimeout 100) :: post) ∧
  count is_server_close (trace (machine w)) = 0%nat ∧
  count is_cleanup (trace (machine w)) = 0%nat ∧
  count is_exit (trace (machine w)) = 0%nat.
Proof.
  intros Hreach Hrun Htimers.
  pose proof (reachable_ordered _ _ _ Hreach) as [Harmed _].
  apply reachable_settled in Hreach.
  destruct Hreach as (H1 & _ & H3 & _). cbn in H1, H3. specialize (H1 Hrun).
  split; [|exact H1].
  destruct (armed_from_timeout false _ Harmed) as [[Hfalse _]|Hsplit];
    [lia | discriminate | exact Hsplit].
Qed.

End Ordered.

(** ** The close command and the shutdown that follows *)

Section CloseOrder.
Context `{Protocol}.

(** C4. A close command, processed while no shutdown is under way, first
    releases the resource (the close calls of the handles that are set),
    then writes the success Response to the socket, then arms the grace
    timer of 100 ms, and returns from the handler; nothing is torn down
    before the timer expires.  The timer cannot expire unless it was
    armed.  In every state that a daemon can reach, by any interleaving,
    in which the timer can expire: the timer was armed directly after a
    write to a socket, nothing has been torn down yet, and the expiry
    stops the server, removes the socket and the marker and exits with
    status 0, in that order. *)
Theorem close_responds_then_shuts_down (o : Oracle) (c : conn) (line : string)
    (cmd : Command) (m : Machine) :
  JS.is_empty (JS.trim line) = false →
  parseCommand line = ParseOk cmd →
  cmd_action cmd = "close" →
  shuttingDown (heap m) = false →
  let response := successResponse (cmd_id cmd) (JObj [("closed", JBool true)]) in
  let r := run o (process_line c line) m in
  (fst r = Returned Return ∧
   trace (snd r) =
     trace m ++ (Called <$> closes_of (state (heap m))) ++
     [Did (SocketWrite c (frame response)); Did (SetTimeout 100)] ∧
   state (heap (snd r)) = BrowserManager.initial ∧
   shuttingDown (heap (snd r)) = true ∧
   timers (snd r) = S (timers m) ∧
   exited (snd r) = exited m ∧ listening (snd r) = listening m ∧ os (snd r) = os m) ∧
  (∀ w, timers (machine w) = 0%nat → fire TimerFire w = None) ∧
  (∀ pid os0 w n,
     reachable pid os0 w →
     exited (machine w) = None → timers (machine w) = S n →
     ∃ pre c' s post w',
       trace (machine w) =
         pre ++ Did (SocketWrite c' s) :: Did (SetTimeout 100) :: post ∧
       count is_server_close (trace (machine w)) = 0%nat ∧
       count is_cleanup (trace (machine w)) = 0%nat ∧
       count is_exit (trace (machine w)) = 0%nat ∧
       fire TimerFire w = Some w' ∧
       trace (machine w') =
         trace (machine w) ++ [Did ServerClose; Did CleanupSocket; Exited 0] ∧
       listening (machine w') = false ∧
       exited (machine w') = Some 0 ∧
       files (os (machine w')) !! SOCKET_PATH = None ∧
       files (os (machine w')) !! PID_FILE = None).
Proof.
  intros Hblank Hparse Hclose Hflag response r. subst r.
  rewrite (run_close_line o c line cmd m) by assumption. cbn [fst snd].
  split; [|split].
  - cbn. repeat split.
  - intros w Hnone. unfold fire. rewrite Hnone.
    destruct (exited (machine w)); reflexivity.
  - intros pid os0 w n Hreach Hrun Htimers.
    destruct (timer_follows_response pid os0 w n Hreach Hrun Htimers)
      as ((pre & c' & s & post & Htrace) & Hclosed & Hcleaned & Hexits).
    destruct (fire_grace_timer w n Hrun Htimers) as (w' & Hfire).
    exists pre, c', s, post, w'. tauto.
Qed.

End CloseOrder.

Lemma close_responds_then_shuts_down_witness :
  let line := Codec.request "b2" "close" in
  let r := run all_succeed (process_line (H := Codec.protocol) 7%nat line) launched_machine in
  let w := after [Data 7%nat close_frame; TimerFire] fresh_daemon in
  trace (snd r) =
    trace launched_machine ++
    [Called (PageClose 2%nat); Called (ContextClose 1%nat); Called (BrowserClose 0%nat);
     Did (SocketWrite 7%nat closed_response); Did (SetTimeout 100)] ∧
  written 7%nat (trace (snd r)) =
    ["{" +:+ Codec.q "id" +:+ ":" +:+ Codec.q "b2" +:+ "," +:+
     Codec.q "success" +:+ ":true," +:+
     Codec.q "data" +:+ ":{" +:+ Codec.q "closed" +:+ ":true}}" +:+ newline_str] ∧
  trace (machine w) =
    [Did (SocketWrite 7%nat closed_response); Did (SetTimeout 100);
     Did ServerClose; Did CleanupSocket; Exited 0] ∧
  exited (machine w) = Some 0.
Proof.
  pose proof (close_responds_then_shuts_down (H := Codec.protocol) all_succeed 7%nat
                (Codec.request "b2" "close")
                {| cmd_id := "b2"; cmd_action := "close"; cmd_browser := None;
                   cmd_headless := None; cmd_viewport := None;
                   cmd_params := [("id", JStr "b2"); ("action", JStr "close")] |}
                launched_machine) as Hclose.
  cbv zeta in Hclose.
  destruct Hclose as [(_ & Htrace & _) _]; try (vm_compute; reflexivity).
  split; [exact Htrace | vm_compute; repeat split].
Defined.

(** ** A command during the grace delay *)

(** C5 (evaluation). A close command is answered and the grace timer is armed;
    a command that arrives on the same connection in a later read, before
    the timer expires, is dispatched like any other and answered with a
    success Response after the Response of the close command, while the
    process has not exited: a second close command at once, a navigate
    command after the daemon has launched a new browser for it.  When both
    commands arrive in one read, the second one is not dispatched. *)
Theorem command_during_grace_is_served :
  let w1 := after close_then_close fresh_daemon in
  let w2 := after close_then_command fresh_daemon in
  let w3 := after [Data 7%nat (close_frame +:+ navigate_frame)] fresh_daemon in
  (exited (machine w1) = None ∧ timers (machine w1) = 1%nat ∧
   written 7%nat (trace (machine w1)) = [closed_response; closed_again_response]) ∧
  (exited (machine w2) = None ∧ timers (machine w2) = 1%nat ∧
   shuttingDown (heap (machine w2)) = true ∧
   BrowserManager.isLaunched (heap (machine w2)) = true ∧
   count is_launch (trace (machine w2)) = 1%nat ∧
   written 7%nat (trace (machine w2)) = [closed_response; navigated_response]) ∧
  (written 7%nat (trace (machine w3)) = [closed_response] ∧
   buffer_of 7%nat w3 = navigate_frame).
Proof.
  vm_compute. repeat split.
Qed.

(** ** Commands that overlap *)

(** C3 (evaluation). Two action commands reach a fresh daemon in two reads,
    the second while the launch for the first is pending: each handler
    finds no browser and launches one.  Two browsers are launched; when the
    launches settle, the manager holds the second and the first is never
    closed.  When both commands arrive in one read, one browser is
    launched. *)
Theorem overlapping_commands_launch_twice :
  let w := after overlapping_commands fresh_daemon in
  let w' := after (overlapping_commands ++ launches_settle) fresh_daemon in
  let one := after [Data 7%nat (navigate_frame +:+ snapshot_frame)] fresh_daemon in
  trace (machine w) =
    [Called (LauncherLaunch Chromium true); Called (LauncherLaunch Chromium true)] ∧
  count is_launch (trace (machine w)) = 2%nat ∧
  trace (machine w') =
    [Called (LauncherLaunch Chromium true); Called (LauncherLaunch Chromium true);
     Called (NewContext 20%nat BrowserManager.default_viewport);
     Called (NewContext 30%nat BrowserManager.default_viewport)] ∧
  browser (state (heap (machine w'))) = Some 30%nat ∧
  count is_launch (trace (machine one)) = 1%nat.
Proof.
  vm_compute. repeat split.
Qed.

(** Reads that overlap are not answered in the order of the stream: the
    malformed line of the second read is answered while the command of the
    first read waits for its launch. *)
Lemma overlapping_reads_answered_out_of_order :
  let w := after overlapping_reads fresh_daemon in
  written 7%nat (trace (machine w)) =
    [frame (H := Codec.protocol)
       (errorResponse "unknown" "Invalid JSON: the frame is malformed")] ∧
  length (pool w) = 1%nat.
Proof.
  vm_compute. repeat split.
Qed.

(** * Further properties of the code *)

(** ** The artefacts and the instance marker *)

(** X1. [cleanupSocket] is a best effort.  When both artefacts can be
    unlinked (or are absent) both paths are free afterwards.  When the socket
    can be unlinked and the marker cannot, only the socket goes.  When the
    socket cannot be unlinked nothing changes: the marker is left too, even
    one that could be unlinked, since one [try] holds both calls.  In every
    case no other path, no process and no process group is touched, nothing
    is thrown, and a second run changes nothing more. *)
Theorem cleanupSocket_is_best_effort (s : Unix.State) :
  let s' := Artefacts.cleanupSocket s in
  (Unix.clearable SOCKET_PATH s = true → Unix.clearable PID_FILE s = true →
     Unix.entries s' !! SOCKET_PATH = None ∧ Unix.entries s' !! PID_FILE = None) ∧
  (Unix.clearable SOCKET_PATH s = true → Unix.clearable PID_FILE s = false →
     Unix.entries s' !! SOCKET_PATH = None ∧
     Unix.entries s' !! PID_FILE = Unix.entries s !! PID_FILE) ∧
  (Unix.clearable SOCKET_PATH s = false → s' = s) ∧
  (∀ p, p ≠ SOCKET_PATH → p ≠ PID_FILE → Unix.entries s' !! p = Unix.entries s !! p) ∧
  Unix.processes s' = Unix.processes s ∧
  Unix.groups s' = Unix.groups s ∧
  Artefacts.cleanupSocket s' = s'.
Proof.
  cbv zeta. rewrite (cleanupSocket_outcome s).
  destruct (Unix.clearable SOCKET_PATH s) eqn:Hs;
    [destruct (Unix.clearable PID_FILE s) eqn:Hp|].
  - repeat split; try discriminate.
    + cbn. rewrite lookup_delete_ne by (symmetry; apply paths_distinct).
      apply lookup_delete_eq.
    + cbn. apply lookup_delete_eq.
    + intros p H1 H2. cbn. rewrite !lookup_delete_ne by congruence. reflexivity.
    + rewrite cleanupSocket_clears.
      * cbn. unfold Unix.with_entries. cbn. f_equal.
        rewrite (delete_id (delete PID_FILE _) SOCKET_PATH).
        -- apply delete_id, lookup_delete_eq.
        -- rewrite lookup_delete_ne by (symmetry; apply paths_distinct).
           apply lookup_delete_eq.
      * unfold Unix.clearable. cbn.
        rewrite lookup_delete_ne by (symmetry; apply paths_distinct).
        rewrite lookup_delete_eq. reflexivity.
      * unfold Unix.clearable. cbn. rewrite lookup_delete_eq. reflexivity.
  - repeat split; try discriminate.
    + cbn. apply lookup_delete_eq.
    + cbn. apply lookup_delete_ne, paths_distinct.
    + intros p H1 H2. cbn. rewrite !lookup_delete_ne by congruence. reflexivity.
    + rewrite cleanupSocket_marker_stuck.
      * cbn. rewrite delete_id by apply lookup_delete_eq. reflexivity.
      * unfold Unix.clearable. cbn. rewrite lookup_delete_eq. reflexivity.
      * rewrite clearable_after_unlink by (symmetry; apply paths_distinct). exact Hp.
  - repeat split; try discriminate.
    apply cleanupSocket_socket_stuck, Hs.
Qed.

Lemma cleanupSocket_is_best_effort_witness :
  (Unix.entries (Artefacts.cleanupSocket own_stale) !! SOCKET_PATH = None ∧
   Unix.entries (Artefacts.cleanupSocket own_stale) !! PID_FILE = None) ∧
  (Unix.entries (Artefacts.cleanupSocket directory_marker) !! SOCKET_PATH = None ∧
   Unix.entries (Artefacts.cleanupSocket directory_marker) !! PID_FILE =
     Unix.entries directory_marker !! PID_FILE) ∧
  Artefacts.cleanupSocket foreign_socket = foreign_socket.
Proof.
  split; [|split].
  - apply (proj1 (cleanupSocket_is_best_effort own_stale)); reflexivity.
  - apply (proj1 (proj2 (cleanupSocket_is_best_effort directory_marker))); reflexivity.
  - apply (proj1 (proj2 (proj2 (cleanupSocket_is_best_effort foreign_socket)))).
    reflexivity.
Defined.

(** X2. A marker that exists but gives no process id, because its path
    holds a directory or a socket, because the caller may not read it, or
    because its content is no number ([parseInt] gives [NaN]), is taken for
    stale: the answer is false after [cleanupSocket].  A directory at the
    marker path is not removed by it and is found again by every later
    query. *)
Theorem unreadable_marker_is_taken_for_stale (s : Unix.State) (e : Unix.Entry) :
  Unix.entries s !! PID_FILE = Some e →
  match Unix.kind e with
  | Unix.Regular content =>
      Unix.readable e = false ∨ JS.parseInt (JS.trim content) = None
  | Unix.Socket | Unix.Directory => True
  end →
  Artefacts.isDaemonRunning s = (false, Artefacts.cleanupSocket s) ∧
  (Unix.kind e = Unix.Directory →
     Unix.entries (Artefacts.cleanupSocket s) !! PID_FILE = Some e).
Proof.
  intros E Hbad. split.
  - destruct (Unix.kind e) as [content| |] eqn:Hkind.
    + destruct Hbad as [Hread|Hnan].
      * apply (isDaemonRunning_unreadable s e E).
        unfold Unix.readFileSync. rewrite E, Hkind, Hread. reflexivity.
      * destruct (Unix.readable e) eqn:Hread.
        -- rewrite (isDaemonRunning_readable s e content E Hkind Hread), Hnan.
           reflexivity.
        -- apply (isDaemonRunning_unreadable s e E).
           unfold Unix.readFileSync. rewrite E, Hkind, Hread. reflexivity.
    + apply (isDaemonRunning_unreadable s e E).
      unfold Unix.readFileSync. rewrite E, Hkind. reflexivity.
    + apply (isDaemonRunning_unreadable s e E).
      unfold Unix.readFileSync. rewrite E, Hkind. reflexivity.
  - intros Hdir. rewrite cleanupSocket_outcome.
    assert (Unix.clearable PID_FILE s = false) as ->.
    { unfold Unix.clearable. rewrite E, Hdir. reflexivity. }
    destruct (Unix.clearable SOCKET_PATH s); [|exact E].
    cbn. rewrite lookup_delete_ne by apply paths_distinct. exact E.
Qed.

Lemma unreadable_marker_is_taken_for_stale_witness :
  Artefacts.isDaemonRunning directory_marker =
    (false, Artefacts.cleanupSocket directory_marker) ∧
  (Unix.kind (own Unix.Directory) = Unix.Directory →
   Unix.entries (Artefacts.cleanupSocket directory_marker) !! PID_FILE =
     Some (own Unix.Directory)).
Proof.
  apply (unreadable_marker_is_taken_for_stale directory_marker (own Unix.Directory)).
  - reflexivity.
  - exact I.
Defined.

(** X3. The query is stable: asked again on the file system it leaves, it
    gives the same answer and changes nothing. *)
Theorem isDaemonRunning_stable (os : OS) :
  isDaemonRunning (snd (isDaemonRunning os)) = isDaemonRunning os.
Proof.
  destruct (isDaemonRunning os) as [answer os'] eqn:Hfirst. cbn [snd].
  unfold isDaemonRunning in Hfirst.
  destruct (negb (existsSync PID_FILE os)) eqn:Hex.
  - injection Hfirst as <- <-. unfold isDaemonRunning. rewrite Hex. reflexivity.
  - destruct (readFileSync PID_FILE os ≫= _) as [[]|] eqn:Hprobe;
      injection Hfirst as <- <-.
    + unfold isDaemonRunning. rewrite Hex, Hprobe. reflexivity.
    + unfold isDaemonRunning.
      rewrite (existsSync_false PID_FILE (cleanupSocket os))
        by apply cleanupSocket_removes.
      reflexivity.
Qed.

(** ** The marker round trip: [pid.toString()] read back by [parseInt] *)

Lemma digit_pretty_N_char (d : N) :
  (d < 10)%N → JS.digit (pretty_N_char d) = Some (Z.of_N d).
Proof.
  intros Hd.
  assert (d = 0 ∨ d = 1 ∨ d = 2 ∨ d = 3 ∨ d = 4 ∨ d = 5 ∨ d = 6 ∨ d = 7 ∨ d = 8 ∨ d = 9)%N
    as Hcases by lia.
  repeat (destruct Hcases as [->|Hcases]; [reflexivity|]). subst d. reflexivity.
Qed.

Lemma is_space_pretty_N_char (d : N) : JS.is_space (pretty_N_char d) = false.
Proof. unfold pretty_N_char. repeat case_match; reflexivity. Qed.

(** The digits written for [x] in front of [s] are read back as [x],
    appended to what was read before. *)
Lemma digits_pretty_N_go (x : N) :
  (0 < x)%N →
  ∃ k : nat, ∀ acc s,
    JS.digits acc (pretty_N_go x s) =
      JS.digits (Some (default 0 acc * 10 ^ Z.of_nat k + Z.of_N x)) s.
Proof.
  induction (N.lt_wf_0 x) as [x _ IH]. intros Hpos.
  assert (JS.digit (pretty_N_char (x `mod` 10)) = Some (Z.of_N (x `mod` 10))) as Hdigit
    by (apply digit_pretty_N_char, N.mod_lt; lia).
  assert (Z.of_N x = 10 * Z.of_N (x `div` 10) + Z.of_N (x `mod` 10)) as Hx.
  { rewrite (N.div_mod x 10) at 1 by lia. lia. }
  destruct (decide (x `div` 10 = 0)%N) as [Hzero|Hmore].
  - exists 1%nat. intros acc s. rewrite pretty_N_go_step by assumption.
    rewrite Hzero, pretty_N_go_0. cbn [JS.digits]. rewrite Hdigit.
    f_equal. f_equal. rewrite Hx, Hzero. lia.
  - destruct (IH (x `div` 10)%N) as [k Hk]; [apply N.div_lt; lia | apply N.neq_0_lt_0, Hmore |].
    exists (S k). intros acc s. rewrite pretty_N_go_step by assumption.
    rewrite Hk. cbn [JS.digits default]. rewrite Hdigit. f_equal. f_equal.
    rewrite Nat2Z.inj_succ, Z.pow_succ_r by lia. rewrite Hx. unfold id. ring.
Qed.

(** The text of a positive number starts with a digit. *)
Lemma pretty_N_go_head (x : N) (s : string) :
  (0 < x)%N → ∃ d r, pretty_N_go x s = String (pretty_N_char d) r.
Proof.
  revert s. induction (N.lt_wf_0 x) as [x _ IH]. intros s Hpos.
  rewrite pretty_N_go_step by assumption.
  destruct (decide (x `div` 10 = 0)%N) as [Hzero|Hmore].
  - rewrite Hzero, pretty_N_go_0. eauto.
  - apply IH; [apply N.div_lt; lia | apply N.neq_0_lt_0, Hmore].
Qed.

Lemma trimStart_spaceless (s : string) : spaceless s = true → JS.trimStart s = s.
Proof.
  destruct s as [|a r]; [reflexivity|]. cbn. intros Hs.
  apply andb_true_iff in Hs as [Ha _]. apply negb_true_iff in Ha. rewrite Ha. reflexivity.
Qed.

Lemma spaceless_rev_app (s t : string) :
  spaceless s = true → spaceless t = true → spaceless (String.rev_app s t) = true.
Proof.
  revert t. induction s as [|a s IH]; intros t Hs Ht; [exact Ht|].
  cbn in *. apply andb_true_iff in Hs as [Ha Hs]. apply IH; [exact Hs|].
  cbn. rewrite Ha, Ht. reflexivity.
Qed.

Lemma rev_app_rev_app (s t u : string) :
  String.rev_app (String.rev_app s t) u = String.rev_app t (s +:+ u).
Proof.
  revert t u. induction s as [|a s IH]; intros t u; [reflexivity|].
  cbn. rewrite IH. reflexivity.
Qed.

Lemma trim_spaceless (s : string) : spaceless s = true → JS.trim s = s.
Proof.
  intros Hs. unfold JS.trim, JS.trimEnd. rewrite (trimStart_spaceless s Hs).
  unfold String.rev. rewrite trimStart_spaceless by (apply spaceless_rev_app; [exact Hs | reflexivity]).
  rewrite rev_app_rev_app. cbn. apply app_empty_r.
Qed.

Lemma spaceless_pretty_N_go (x : N) (s : string) :
  spaceless s = true → spaceless (pretty_N_go x s) = true.
Proof.
  revert s. induction (N.lt_wf_0 x) as [x _ IH]. intros s Hs.
  destruct (decide (0 < x)%N) as [Hpos|Hzero].
  - rewrite pretty_N_go_step by assumption. apply IH; [apply N.div_lt; lia|].
    cbn. rewrite is_space_pretty_N_char, Hs. reflexivity.
  - assert (x = 0%N) as -> by lia. rewrite pretty_N_go_0. exact Hs.
Qed.

(** A text that starts with a digit is read from its first character. *)
Lemma parseInt_digit_head (a : ascii) (r : string) :
  is_Some (JS.digit a) → JS.parseInt (String a r) = JS.digits None (String a r).
Proof.
  intros [d Hd].
  destruct a as [[] [] [] [] [] [] [] []]; try discriminate Hd; reflexivity.
Qed.

Lemma digits_pretty_pos (p : positive) :
  JS.digits None (pretty_N_go (N.pos p) "") = Some (Z.pos p).
Proof.
  destruct (digits_pretty_N_go (N.pos p)) as [k Hk]; [lia|].
  rewrite (Hk None ""). cbn. reflexivity.
Qed.

Lemma parseInt_pretty_pos (p : positive) :
  JS.parseInt (pretty_N_go (N.pos p) "") = Some (Z.pos p).
Proof.
  rewrite <- digits_pretty_pos.
  destruct (pretty_N_go_head (N.pos p) "") as (d & r & Hhead); [lia|].
  rewrite Hhead. apply parseInt_digit_head.
  unfold pretty_N_char. repeat case_match; eexists; reflexivity.
Qed.

(** [parseInt(pid.toString().trim(), 10)] is [pid]. *)
Lemma parseInt_pretty (pid : Z) : JS.parseInt (JS.trim (pretty pid)) = Some pid.
Proof.
  destruct pid as [|p|p]; [reflexivity| |].
  - unfold pretty, pretty_Z, pretty, pretty_positive, pretty, pretty_N.
    rewrite decide_False by discriminate.
    rewrite trim_spaceless by (apply spaceless_pretty_N_go; reflexivity).
    apply parseInt_pretty_pos.
  - unfold pretty, pretty_Z, pretty, pretty_positive, pretty, pretty_N.
    rewrite decide_False by discriminate.
    change ("-" +:+ pretty_N_go (N.pos p) "") with (String "-" (pretty_N_go (N.pos p) "")).
    rewrite trim_spaceless
      by (cbn [spaceless JS.is_space negb andb]; apply spaceless_pretty_N_go; reflexivity).
    unfold JS.parseInt. cbn [JS.trimStart JS.is_space].
    rewrite digits_pretty_pos. reflexivity.
Qed.

(** X4. A daemon that has started is seen as running: the marker written by
    [startDaemon] holds the decimal text of its process id, [isDaemonRunning]
    reads the id back, finds the process and answers true, and leaves the
    artefacts of the daemon in place. *)
Theorem started_daemon_is_running `{Protocol} (pid : Z) (os0 : OS) :
  pid ∈ procs os0 →
  let os1 := os (machine (startDaemon pid os0)) in
  files os1 !! PID_FILE = Some (Regular (pretty pid)) ∧
  files os1 !! SOCKET_PATH = Some (Socket pid) ∧
  isDaemonRunning os1 = (true, os1).
Proof.
  intros Hlive. rewrite startDaemon_always_binds. cbn [machine serving boot os].
  set (os1 := with_files _ os0). cbv zeta.
  assert (files os1 !! PID_FILE = Some (Regular (pretty pid))) as Hmarker.
  { unfold os1. cbn. rewrite lookup_insert_ne by apply paths_distinct.
    apply lookup_insert_eq. }
  split; [exact Hmarker|]. split; [apply lookup_insert_eq|].
  unfold isDaemonRunning.
  rewrite (existsSync_true _ _ _ Hmarker). unfold readFileSync.
  rewrite Hmarker. cbn. rewrite parseInt_pretty. cbn.
  rewrite bool_decide_eq_true_2 by assumption. reflexivity.
Qed.

Lemma started_daemon_is_running_witness :
  let os1 := os (machine (startDaemon (H := Codec.protocol) 5000 live_os)) in
  files os1 !! PID_FILE = Some (Regular "5000") ∧
  files os1 !! SOCKET_PATH = Some (Socket 5000) ∧
  isDaemonRunning os1 = (true, os1).
Proof.
  apply (started_daemon_is_running (H := Codec.protocol) 5000 live_os).
  vm_compute. reflexivity.
Defined.

(** X5. A daemon that was killed is detected.  After [startDaemon] by process
    [pid] and the death of that process without any clean-up,
    [isDaemonRunning] reads the id back from the marker, finds no such
    process, answers false and removes the socket and the marker; every
    other path is as it was before the daemon started. *)
Theorem killed_daemon_is_detected `{Protocol} (pid : Z) (os0 : OS) :
  let os1 := kill pid (os (machine (startDaemon pid os0))) in
  let r := isDaemonRunning os1 in
  fst r = false ∧
  files (snd r) !! SOCKET_PATH = None ∧
  files (snd r) !! PID_FILE = None ∧
  (∀ p, p ≠ SOCKET_PATH → p ≠ PID_FILE → files (snd r) !! p = files os0 !! p).
Proof.
  cbv zeta. rewrite startDaemon_always_binds. cbn [machine serving boot os].
  set (os1 := kill pid _).
  assert (files os1 !! PID_FILE = Some (Regular (pretty pid))) as Hmarker.
  { unfold os1. cbn. rewrite lookup_insert_ne by apply paths_distinct.
    apply lookup_insert_eq. }
  assert (isDaemonRunning os1 = (false, cleanupSocket os1)) as ->.
  { unfold isDaemonRunning.
    rewrite (existsSync_true _ _ _ Hmarker). unfold readFileSync.
    rewrite Hmarker. cbn. rewrite parseInt_pretty. cbn.
    rewrite bool_decide_eq_false_2; [reflexivity|].
    unfold os1, kill. cbn [procs]. intros Hin.
    apply elem_of_difference in Hin as [_ Hnot]. apply Hnot, elem_of_singleton. reflexivity. }
  cbn [fst snd]. destruct (cleanupSocket_removes os1) as [Hs Hp].
  repeat split; try assumption.
  intros p Hsock Hpid. rewrite cleanupSocket_other by assumption.
  unfold os1. cbn. rewrite !lookup_insert_ne, !lookup_delete_ne by congruence. reflexivity.
Qed.

(** ** The life cycle of the browser *)

(** X7. [launch] on a manager that holds nothing, followed by [getPage]: when
    the three creating calls succeed, nothing is closed, the engine is
    launched, a context and a page are created, and [getPage] returns that
    page. *)
Theorem launch_then_getPage (o : Oracle) (m : Machine) (options : Command)
    (b c p : handle) :
  let engine := BrowserManager.launcher options in
  let headless := default true (cmd_headless options) in
  let viewport := default BrowserManager.default_viewport (cmd_viewport options) in
  browser (state (heap m)) = None →
  o (calls m) (LauncherLaunch engine headless) = Resolved b →
  o (S (calls m)) (NewContext b viewport) = Resolved c →
  o (S (S (calls m))) (NewPage c) = Resolved p →
  let r := run o (BrowserManager.launch options;; BrowserManager.getPage) m in
  fst r = Returned p ∧
  trace (snd r) = trace m ++ [Called (LauncherLaunch engine headless);
                              Called (NewContext b viewport);
                              Called (NewPage c)] ∧
  state (heap (snd r)) = {| browser := Some b; context := Some c; page := Some p |} ∧
  BrowserManager.isLaunched (heap (snd r)) = true.
Proof.
  destruct_machine m. cbv zeta. unfold_machine. intros Hnone H1 H2 H3. subst b0.
  unfold BrowserManager.launch. run_steps.
  rewrite H1. run_steps. rewrite H2. run_steps. rewrite H3. run_steps.
  unfold_machine. repeat split. rewrite <- !app_assoc. reflexivity.
Qed.

Lemma launch_then_getPage_witness :
  let r := run all_succeed
             (BrowserManager.launch auto_launch;; BrowserManager.getPage) idle_machine in
  fst r = Returned 2%nat ∧
  trace (snd r) = trace idle_machine ++
                  [Called (LauncherLaunch Chromium true);
                   Called (NewContext 0%nat BrowserManager.default_viewport);
                   Called (NewPage 1%nat)] ∧
  state (heap (snd r)) = {| browser := Some 0%nat; context := Some 1%nat; page := Some 2%nat |} ∧
  BrowserManager.isLaunched (heap (snd r)) = true.
Proof.
  apply (launch_then_getPage all_succeed idle_machine auto_launch 0%nat 1%nat 2%nat);
    reflexivity.
Defined.

(** X8. After [close], whatever the manager held and whatever the outcome of
    the close calls, [getPage] throws the not-launched error and
    [getBrowser] and [getContext] answer null. *)
Theorem getPage_after_close_throws (o : Oracle) (m : Machine) :
  let r := run o (BrowserManager.close;; BrowserManager.getPage) m in
  fst r = Thrown "Browser not launched. Call launch first." ∧
  BrowserManager.getBrowser (heap (snd r)) = None ∧
  BrowserManager.getContext (heap (snd r)) = None ∧
  trace (snd r) = trace m ++ (Called <$> closes_of (state (heap m))).
Proof.
  cbv zeta. run_steps. repeat split.
Qed.

(** [launch] up to its first creating call: what was held is closed when
    there is a browser, and the engine is asked to launch. *)
Lemma run_launch (o : Oracle) (m : Machine) (options : Command) :
  let engine := BrowserManager.launcher options in
  let headless := default true (cmd_headless options) in
  let viewport := default BrowserManager.default_viewport (cmd_viewport options) in
  let m1 := match browser (state (heap m)) with
            | Some _ => snd (run o BrowserManager.close m)
            | None => m
            end in
  run o (BrowserManager.launch options) m =
    match o (calls m1) (LauncherLaunch engine headless) with
    | Rejected e => (Thrown e, issue (LauncherLaunch engine headless) m1)
    | Resolved b =>
        let m2 := set_heap (set_browser (Some b) (heap m1))
                    (issue (LauncherLaunch engine headless) m1) in
        match o (calls m2) (NewContext b viewport) with
        | Rejected e => (Thrown e, issue (NewContext b viewport) m2)
        | Resolved c =>
            let m3 := set_heap (set_context (Some c) (heap m2))
                        (issue (NewContext b viewport) m2) in
            match o (calls m3) (NewPage c) with
            | Rejected e => (Thrown e, issue (NewPage c) m3)
            | Resolved p =>
                (Returned tt,
                 set_heap (set_page (Some p) (heap m3)) (issue (NewPage c) m3))
            end
        end
    end.
Proof.
  cbv zeta. unfold BrowserManager.launch.
  rewrite run_bind, run_get. cbv beta iota.
  rewrite run_bind.
  assert (run o (match browser (state (heap m)) with
                 | Some _ => BrowserManager.close
                 | None => Ret tt
                 end) m =
          (Returned tt, match browser (state (heap m)) with
                        | Some _ => snd (run o BrowserManager.close m)
                        | None => m
                        end)) as ->.
  { destruct (browser (state (heap m))); [rewrite run_close|]; reflexivity. }
  cbv beta iota.
  generalize (match browser (state (heap m)) with
              | Some _ => snd (run o BrowserManager.close m)
              | None => m
              end). intros m1.
  destruct_machine m1. run_steps.
  oracle_case o; run_steps; [|reflexivity].
  oracle_case o; run_steps; [|reflexivity].
  oracle_case o; run_steps; reflexivity.
Qed.

(** The machine in which [launch] makes its first creating call. *)
Lemma launch_after_close (o : Oracle) (m : Machine) :
  (browser (state (heap m)) = None → state (heap m) = BrowserManager.initial) →
  match browser (state (heap m)) with
  | Some _ => snd (run o BrowserManager.close m)
  | None => m
  end =
  {| heap := {| state := BrowserManager.initial; shuttingDown := shuttingDown (heap m) |};
     os := os m; listening := listening m; timers := timers m; exited := exited m;
     trace := trace m ++ (Called <$> closes_of (state (heap m)));
     calls := (length (closes_of (state (heap m))) + calls m)%nat |}.
Proof.
  intros Hconsistent. destruct (browser (state (heap m))) as [old|] eqn:Hb.
  - rewrite run_close. reflexivity.
  - specialize (Hconsistent eq_refl). destruct_machine m. cbn in Hconsistent.
    injection Hconsistent as Hb' Hc Hp. subst. cbn. rewrite app_nil_r. reflexivity.
Qed.

(** X9. A [launch] that fails part-way.  What the manager held has been closed
    already.  When the engine cannot be launched the manager holds nothing.
    When the context cannot be created it holds the new browser alone, and
    when the page cannot be created the browser and the context: in both
    cases [isLaunched] answers true while [getPage] throws.  The error is
    that of the failed call. *)
Theorem launch_failure_leaves_partial_state (o : Oracle) (m : Machine) (options : Command) :
  let engine := BrowserManager.launcher options in
  let headless := default true (cmd_headless options) in
  let viewport := default BrowserManager.default_viewport (cmd_viewport options) in
  let n := (length (closes_of (state (heap m))) + calls m)%nat in
  let r := run o (BrowserManager.launch options) m in
  let not_launched := Thrown "Browser not launched. Call launch first." in
  (browser (state (heap m)) = None → state (heap m) = BrowserManager.initial) →
  (∀ e, o n (LauncherLaunch engine headless) = Rejected e →
        fst r = Thrown e ∧
        state (heap (snd r)) = BrowserManager.initial ∧
        BrowserManager.isLaunched (heap (snd r)) = false ∧
        trace (snd r) = trace m ++ (Called <$> closes_of (state (heap m))) ++
                        [Called (LauncherLaunch engine headless)]) ∧
  (∀ b e, o n (LauncherLaunch engine headless) = Resolved b →
          o (S n) (NewContext b viewport) = Rejected e →
          fst r = Thrown e ∧
          state (heap (snd r)) = {| browser := Some b; context := None; page := None |} ∧
          BrowserManager.isLaunched (heap (snd r)) = true ∧
          fst (run o BrowserManager.getPage (snd r)) = not_launched) ∧
  (∀ b c e, o n (LauncherLaunch engine headless) = Resolved b →
            o (S n) (NewContext b viewport) = Resolved c →
            o (S (S n)) (NewPage c) = Rejected e →
            fst r = Thrown e ∧
            state (heap (snd r)) = {| browser := Some b; context := Some c; page := None |} ∧
            BrowserManager.isLaunched (heap (snd r)) = true ∧
            fst (run o BrowserManager.getPage (snd r)) = not_launched).
Proof.
  cbv zeta. intros Hconsistent.
  rewrite run_launch. cbv zeta. rewrite (launch_after_close o m Hconsistent).
  cbn [calls heap set_heap issue log set_browser set_context state shuttingDown
       browser context page].
  split; [|split].
  - intros e ->. cbn. repeat split. rewrite <- app_assoc. reflexivity.
  - intros b e -> ->. cbn. repeat split.
  - intros b c e -> -> ->. cbn. repeat split.
Qed.

Lemma launch_failure_leaves_partial_state_witness :
  let r := run context_fails (BrowserManager.launch auto_launch) launched_machine in
  fst r = Thrown "no context" ∧
  state (heap (snd r)) = {| browser := Some 6%nat; context := None; page := None |} ∧
  BrowserManager.isLaunched (heap (snd r)) = true ∧
  fst (run context_fails BrowserManager.getPage (snd r)) =
    Thrown "Browser not launched. Call launch first.".
Proof.
  cbv zeta.
  apply (proj1 (proj2 (launch_failure_leaves_partial_state _ launched_machine auto_launch
                         ltac:(discriminate))) 6%nat "no context"); reflexivity.
Defined.

(** ** One Response per line *)

Lemma written_snoc (c : conn) (tr : list Event) (ev : Event) :
  written c (tr ++ [ev]) =
    written c tr ++
    match ev with
    | Did (SocketWrite c' s) => if bool_decide (c' = c) then [s] else []
    | _ => []
    end.
Proof.
  unfold written. rewrite omap_app. f_equal. cbn.
  destruct ev as [op|[c' s|message|ms| |]|code]; try reflexivity.
  destruct (bool_decide (c' = c)); reflexivity.
Qed.

Lemma written_issue (c : conn) (op : ExtOp) (m : Machine) :
  written c (trace (issue op m)) = written c (trace m).
Proof. unfold issue, log. cbn [trace]. rewrite written_snoc. apply app_nil_r. Qed.

Lemma trace_perform (e : Effect) (m : Machine) : trace (perform e m) = trace m ++ [Did e].
Proof. destruct e; reflexivity. Qed.

Lemma exited_perform (e : Effect) (m : Machine) : exited (perform e m) = exited m.
Proof. destruct e; reflexivity. Qed.

Lemma wrote_refl (c : conn) (w : bool) (m : Machine) : wrote c w w m m.
Proof. repeat split. left. split; reflexivity. Qed.

(** A step that writes nothing, before a run. *)
Lemma wrote_after_quiet (c : conn) (w w' : bool) (m m1 m' : Machine) :
  (∀ c', written c' (trace m1) = written c' (trace m)) →
  exited m1 = exited m →
  wrote c w w' m1 m' → wrote c w w' m m'.
Proof.
  intros Hquiet Hex (Hother & Hexit & Hown). unfold wrote.
  rewrite <- Hex, <- !Hquiet. repeat split; [|assumption..].
  intros c' Hc'. rewrite <- Hquiet. apply Hother, Hc'.
Qed.

Section Responds.
Context {A : Type} (c : conn).

Lemma responds_mono (T T' : bool → Prop) (Q Q' : bool → A → Prop) (w : bool)
    (body : Async A) :
  (∀ w, T w → T' w) → (∀ w a, Q w a → Q' w a) →
  responds c T Q w body → responds c T' Q' w body.
Proof.
  intros HT HQ. revert w.
  induction body as [a|e|k IH|h k IH|e k IH|code|op k IH]; intros w; cbn; auto.
  destruct e; auto. intros (Hc & Hw & Hk). auto.
Qed.

Lemma responds_try_catch (T T' : bool → Prop) (Q : bool → A → Prop) (w : bool)
    (body : Async A) (handler : string → Async A) :
  (∀ e w', T w' → responds c T' Q w' (handler e)) →
  responds c T Q w body → responds c T' Q w (try_catch body handler).
Proof.
  intros Hh. revert w.
  induction body as [a|e|k IH|h k IH|e k IH|code|op k IH]; intros w; cbn; auto.
  destruct e; auto. intros (Hc & Hw & Hk). auto.
Qed.

(** What [run] makes of code that responds. *)
Lemma responds_run (T : bool → Prop) (Q : bool → A → Prop) (w : bool) (body : Async A)
    (o : Oracle) (m : Machine) :
  responds c T Q w body →
  match run o body m with
  | (Returned a, m') => ∃ w', Q w' a ∧ wrote c w w' m m'
  | (Thrown e, m') => ∃ w', T w' ∧ wrote c w w' m m'
  | (Terminated, _) => False
  end.
Proof.
  revert w m.
  induction body as [a|e|k IH|h k IH|e k IH|code|op k IH]; intros w m; cbn.
  - intros HQ. exists w. split; [exact HQ | apply wrote_refl].
  - intros HT. exists w. split; [exact HT | apply wrote_refl].
  - intros Hk. apply IH, Hk.
  - intros Hk. specialize (IH w (set_heap h m) Hk).
    destruct (run o k _) as [[a|e|] m']; [| |exact IH];
      destruct IH as (w' & Hw' & Hwrote); exists w'; (split; [exact Hw'|]);
      (eapply wrote_after_quiet; [| |exact Hwrote]; [|reflexivity]);
      intros c'; reflexivity.
  - destruct e as [c' s|message|ms| |].
    + intros (-> & -> & Hk). specialize (IH true (perform (SocketWrite c s) m) Hk).
      destruct (run o k _) as [[a|e|] m']; [| |exact IH];
        destruct IH as (w' & Hw' & Hother & Hexit & Hown); exists w';
        (split; [exact Hw'|]);
        (destruct Hown as [[-> Hown]|[Hfalse _]]; [|discriminate]);
        (repeat split;
         [intros c' Hc'; rewrite (Hother c' Hc'), trace_perform, written_snoc;
          rewrite bool_decide_eq_false_2 by congruence; apply app_nil_r
         | exact Hexit
         | right; repeat split; eexists; rewrite Hown, trace_perform, written_snoc;
           rewrite bool_decide_eq_true_2 by reflexivity; reflexivity]).
    + intros Hk. specialize (IH w (perform (ConsoleError message) m) Hk).
      destruct (run o k _) as [[a|e|] m']; [| |exact IH];
        destruct IH as (w' & Hw' & Hwrote); exists w'; (split; [exact Hw'|]);
        (eapply wrote_after_quiet; [| |exact Hwrote]; [|reflexivity]);
        intros c'; rewrite trace_perform, written_snoc; apply app_nil_r.
    + intros Hk. specialize (IH w (perform (SetTimeout ms) m) Hk).
      destruct (run o k _) as [[a|e|] m']; [| |exact IH];
        destruct IH as (w' & Hw' & Hwrote); exists w'; (split; [exact Hw'|]);
        (eapply wrote_after_quiet; [| |exact Hwrote]; [|reflexivity]);
        intros c'; rewrite trace_perform, written_snoc; apply app_nil_r.
    + intros Hk. specialize (IH w (perform ServerClose m) Hk).
      destruct (run o k _) as [[a|e|] m']; [| |exact IH];
        destruct IH as (w' & Hw' & Hwrote); exists w'; (split; [exact Hw'|]);
        (eapply wrote_after_quiet; [| |exact Hwrote]; [|reflexivity]);
        intros c'; rewrite trace_perform, written_snoc; apply app_nil_r.
    + intros Hk. specialize (IH w (perform CleanupSocket m) Hk).
      destruct (run o k _) as [[a|e|] m']; [| |exact IH];
        destruct IH as (w' & Hw' & Hwrote); exists w'; (split; [exact Hw'|]);
        (eapply wrote_after_quiet; [| |exact Hwrote]; [|reflexivity]);
        intros c'; rewrite trace_perform, written_snoc; apply app_nil_r.
  - intros [].
  - intros Hk. specialize (IH (o (calls m) op) w (issue op m) (Hk _)).
    destruct (run o (k _) _) as [[a|e|] m']; [| |exact IH];
      destruct IH as (w' & Hw' & Hwrote); exists w'; (split; [exact Hw'|]);
      (eapply wrote_after_quiet; [| |exact Hwrote]; [|reflexivity]);
      intros c'; apply written_issue.
Qed.

End Responds.

Lemma responds_bind {A B} (c : conn) (T : bool → Prop) (Q : bool → B → Prop) (w : bool)
    (body : Async A) (f : A → Async B) :
  responds c T (λ w a, responds c T Q w (f a)) w body →
  responds c T Q w (body ≫= f).
Proof.
  unfold mbind, Async_bind. revert w.
  induction body as [a|e|k IH|h k IH|e k IH|code|op k IH]; intros w; cbn; auto.
  destruct e; auto. intros (Hc & Hw & Hk). auto.
Qed.

(** The manager and the execution of a command write to no socket. *)
Lemma responds_close (c : conn) (T : bool → Prop) (Q : bool → unit → Prop) (w : bool) :
  Q w tt → responds c T Q w BrowserManager.close.
Proof.
  intros HQ. unfold BrowserManager.close. cbn. intros h.
  destruct (page (state h)); cbn; intros; repeat (case_match; cbn; intros); assumption.
Qed.

Lemma responds_launch (c : conn) (T : bool → Prop) (Q : bool → unit → Prop) (w : bool)
    (options : Command) :
  T w → Q w tt → responds c T Q w (BrowserManager.launch options).
Proof.
  intros HT HQ. unfold BrowserManager.launch.
  apply responds_bind. cbn. intros h. apply responds_bind.
  assert (responds c T
            (λ w' _, responds c T Q w'
               (b ← await (LauncherLaunch (BrowserManager.launcher options)
                              (default true (cmd_headless options)));
                modify (set_browser (Some b));;
                c0 ← await (NewContext b
                              (default BrowserManager.default_viewport (cmd_viewport options)));
                modify (set_context (Some c0));;
                p ← await (NewPage c0);
                modify (set_page (Some p)))) w (Ret tt)) as Hrest.
  { cbn. intros [b|e]; cbn; [|exact HT].
    intros h1 [c0|e]; cbn; [|exact HT]. intros h2 [p|e]; cbn; [|exact HT].
    intros h3. exact HQ. }
  destruct (browser (state h)); [|exact Hrest].
  apply responds_close. exact Hrest.
Qed.

Lemma responds_executeCommand (c : conn) (T : bool → Prop) (Q : bool → Response → Prop)
    (w : bool) (cmd : Command) :
  (∀ response, Q w response) → responds c T Q w (executeCommand cmd).
Proof.
  intros HQ. unfold executeCommand.
  apply (responds_try_catch c (λ w', w' = w)); [intros e w' ->; apply HQ|].
  destruct (bool_decide (cmd_action cmd = "launch"));
    [|destruct (bool_decide (cmd_action cmd = "close"))].
  - apply responds_bind, responds_launch; [reflexivity | apply HQ].
  - apply responds_bind, responds_close. apply HQ.
  - apply responds_bind. cbn. intros h. destruct (page (state h)); cbn; [|reflexivity].
    intros [d|e]; cbn; [apply HQ | reflexivity].
Qed.

Section OneResponse.
Context `{Protocol}.

(** The body of the loop, for a line that is not blank: on every path it
    writes once, to its own connection, and then returns. *)
Lemma responds_process_line (c : conn) (line : string) :
  JS.is_empty (JS.trim line) = false →
  responds c no_throw answered false (process_line c line).
Proof.
  intros Hblank. unfold process_line. rewrite Hblank.
  apply (responds_try_catch c unanswered).
  { intros e w' ->. cbn. repeat split. }
  destruct (parseCommand line) as [command|id error]; [|cbn; repeat split].
  apply responds_bind. cbn [responds get]. intros h. apply responds_bind.
  assert (∀ ctl : LoopCtl,
            responds c unanswered answered false
              (executeCommand command ≫= λ response,
                 effect (SocketWrite c (frame response));;
                 h ← get;
                 (if negb (shuttingDown h) then
                    modify (set_shuttingDown true);; effect (SetTimeout 100)
                  else Ret tt);;
                 Ret ctl)) as Hclose.
  { intros ctl. apply responds_bind, responds_executeCommand. intros response.
    cbn. repeat split. intros h'. destruct (shuttingDown h'); cbn; reflexivity. }
  assert (responds c unanswered answered false
            (executeCommand command ≫= λ response,
               effect (SocketWrite c (frame response));; Ret Continue)) as Hother.
  { apply responds_bind, responds_executeCommand. intros response. cbn. repeat split. }
  assert (responds c unanswered answered false
            (if bool_decide (cmd_action command = "close")
             then executeCommand command ≫= λ response,
                    effect (SocketWrite c (frame response));;
                    h ← get;
                    (if negb (shuttingDown h) then
                       modify (set_shuttingDown true);; effect (SetTimeout 100)
                     else Ret tt);;
                    Ret Return
             else executeCommand command ≫= λ response,
                    effect (SocketWrite c (frame response));; Ret Continue)) as Hrest.
  { destruct (bool_decide (cmd_action command = "close")); [apply Hclose | apply Hother]. }
  destruct (negb (BrowserManager.isLaunched h) && _ && _).
  - apply responds_launch; [reflexivity | exact Hrest].
  - exact Hrest.
Qed.

(** X11. Every line that is not blank is answered exactly once: whatever the
    command, the state of the daemon and the outcomes of the calls, the body
    of the loop returns after it has written exactly one frame to the socket
    of its connection; it writes to no other connection and does not exit.
    This holds on every path, also when other handlers run while it is
    suspended. *)
Theorem one_response_per_line (o : Oracle) (c : conn) (line : string) (m : Machine) :
  JS.is_empty (JS.trim line) = false →
  responds c no_throw answered false (process_line c line) ∧
  ∃ ctl m' frame,
    run o (process_line c line) m = (Returned ctl, m') ∧
    written c (trace m') = written c (trace m) ++ [frame] ∧
    (∀ c', c' ≠ c → written c' (trace m') = written c' (trace m)) ∧
    exited m' = exited m.
Proof.
  intros Hblank. pose proof (responds_process_line c line Hblank) as Hresponds.
  split; [exact Hresponds|].
  pose proof (responds_run c no_throw answered false _ o m Hresponds) as Hrun.
  destruct (run o (process_line c line) m) as [[ctl|e|] m'].
  - destruct Hrun as (w' & Hw' & Hother & Hexit & Hown). unfold answered in Hw'. subst w'.
    destruct Hown as [[Hfalse _]|(_ & _ & frame & Hown)]; [discriminate|].
    exists ctl, m', frame. repeat split; assumption.
  - destruct Hrun as (w' & [] & _).
  - destruct Hrun.
Qed.

End OneResponse.

Lemma one_response_per_line_witness :
  ∃ ctl m' frame,
    run all_succeed (process_line (H := Codec.protocol) 7%nat "not json") idle_machine
      = (Returned ctl, m') ∧
    written 7%nat (trace m') = written 7%nat (trace idle_machine) ++ [frame] ∧
    (∀ c', c' ≠ 7%nat → written c' (trace m') = written c' (trace idle_machine)) ∧
    exited m' = exited idle_machine.
Proof.
  apply (one_response_per_line (H := Codec.protocol) all_succeed 7%nat "not json" idle_machine).
  reflexivity.
Defined.

(** ** Lines and commands at the edges *)

Section Edges.
Context `{Protocol}.

Lemma dispatch_blank (o : Oracle) (c : conn) (ls : list string) (m : Machine) :
  Forall (λ l, JS.is_empty (JS.trim l) = true) ls → dispatch o c ls m = ([], m).
Proof.
  induction 1 as [|l ls Hl _ IH]; [reflexivity|].
  cbn [dispatch]. unfold process_line at 1. rewrite Hl. cbn [run]. exact IH.
Qed.

(** X10. Blank lines are skipped: a read that brings only lines that are empty
    after trimming (empty lines, white space, a lone carriage return),
    followed by the beginning of a frame, is answered by nothing and changes
    nothing; the beginning of the frame stays in the buffer. *)
Theorem blank_lines_are_skipped (o : Oracle) (c : conn) (ls : list string) (part : string)
    (m : Machine) :
  Forall newline_free ls →
  Forall (λ l, JS.is_empty (JS.trim l) = true) ls →
  newline_free part →
  on_data o c (unlines ls +:+ part) (EmptyString, m) = (part, m).
Proof.
  intros Hfree Hblank Hpart. unfold on_data. cbn [fst snd]. rewrite app_empty_l.
  rewrite drain_dispatch by (try assumption; lia).
  rewrite dispatch_blank by assumption. cbn. rewrite app_empty_l. reflexivity.
Qed.

(** X12. A failed implicit launch.  When a command that is neither launch nor
    close finds no browser and the implicit launch fails, at the launch of
    the engine, at the creation of the context or at that of the page, the
    command is not executed; the daemon answers once, with the serialised
    failure that carries the message of the failed call under the id
    [error], not the id of the command, and the loop continues.  The manager
    then holds nothing, the browser alone, or the browser and the
    context. *)
Theorem failed_auto_launch_is_answered_as_error (o : Oracle) (c : conn) (line : string)
    (cmd : Command) (m : Machine) (e : string) :
  JS.is_empty (JS.trim line) = false →
  parseCommand line = ParseOk cmd →
  cmd_action cmd ≠ "launch" → cmd_action cmd ≠ "close" →
  state (heap m) = BrowserManager.initial →
  let r := run o (process_line c line) m in
  let launch := LauncherLaunch Chromium true in
  let answer :=
    Did (SocketWrite c
           (serializeResponse
              {| resp_id := "error"; success := false; data := None; error := Some e |}
            +:+ newline_str)) in
  (o (calls m) launch = Rejected e →
     fst r = Returned Continue ∧
     trace (snd r) = trace m ++ [Called launch; answer] ∧
     state (heap (snd r)) = BrowserManager.initial ∧
     exited (snd r) = exited m) ∧
  (∀ b,
     o (calls m) launch = Resolved b →
     o (S (calls m)) (NewContext b BrowserManager.default_viewport) = Rejected e →
     fst r = Returned Continue ∧
     trace (snd r) =
       trace m ++ [Called launch;
                   Called (NewContext b BrowserManager.default_viewport); answer] ∧
     state (heap (snd r)) = {| browser := Some b; context := None; page := None |} ∧
     exited (snd r) = exited m) ∧
  (∀ b ctx,
     o (calls m) launch = Resolved b →
     o (S (calls m)) (NewContext b BrowserManager.default_viewport) = Resolved ctx →
     o (S (S (calls m))) (NewPage ctx) = Rejected e →
     fst r = Returned Continue ∧
     trace (snd r) =
       trace m ++ [Called launch;
                   Called (NewContext b BrowserManager.default_viewport);
                   Called (NewPage ctx); answer] ∧
     state (heap (snd r)) = {| browser := Some b; context := Some ctx; page := None |} ∧
     exited (snd r) = exited m).
Proof.
  intros Hblank Hparse Hl Hc Hinit.
  rewrite (process_action_line c line cmd) by assumption.
  destruct_machine m. cbn in Hinit. injection Hinit as -> -> ->. cbv zeta.
  cbn [calls]. split; [|split].
  - intros Ho. run_steps. unfold BrowserManager.launch. run_steps.
    rewrite launcher_auto_launch, Ho. run_steps. unfold_machine.
    repeat split. rewrite <- app_assoc. reflexivity.
  - intros b' Ho Hctx. run_steps. unfold BrowserManager.launch. run_steps.
    rewrite launcher_auto_launch, Ho. run_steps. cbn [calls issue log].
    rewrite Hctx. run_steps. unfold_machine.
    repeat split. rewrite <- !app_assoc. reflexivity.
  - intros b' ctx Ho Hctx Hpage. run_steps. unfold BrowserManager.launch. run_steps.
    rewrite launcher_auto_launch, Ho. run_steps. cbn [calls issue log].
    rewrite Hctx. run_steps. cbn [calls issue log].
    rewrite Hpage. run_steps. unfold_machine.
    repeat split. rewrite <- !app_assoc. reflexivity.
Qed.

(** X13. A close command while a shutdown is under way (a second close during
    the grace delay, or a close after a signal): the resource is released
    and the command is answered, but no second grace timer is armed; the
    handler returns. *)
Theorem close_while_shutting_down (o : Oracle) (c : conn) (line : string)
    (cmd : Command) (m : Machine) :
  JS.is_empty (JS.trim line) = false →
  parseCommand line = ParseOk cmd →
  cmd_action cmd = "close" →
  shuttingDown (heap m) = true →
  let response := successResponse (cmd_id cmd) (JObj [("closed", JBool true)]) in
  let r := run o (process_line c line) m in
  fst r = Returned Return ∧
  trace (snd r) = trace m ++ (Called <$> closes_of (state (heap m))) ++
                  [Did (SocketWrite c (frame response))] ∧
  timers (snd r) = timers m ∧
  count is_timeout (trace (snd r)) = count is_timeout (trace m) ∧
  shuttingDown (heap (snd r)) = true ∧
  exited (snd r) = exited m.
Proof.
  intros Hblank Hparse Hclose Hflag.
  rewrite (process_close_line c line cmd) by assumption.
  destruct_machine m. cbn in Hflag. subst sd. cbv zeta.
  run_steps. rewrite andb_false_r. run_steps. unfold_machine.
  repeat split.
  - rewrite <- !app_assoc. reflexivity.
  - rewrite !count_app. destruct b, c0, p; cbn; lia.
Qed.

End Edges.

Lemma blank_lines_are_skipped_witness :
  on_data (H := Codec.protocol) all_succeed 7%nat
    (unlines blank_lines +:+ "{") (EmptyString, idle_machine) = ("{", idle_machine).
Proof.
  apply (blank_lines_are_skipped (H := Codec.protocol) all_succeed 7%nat blank_lines "{"
           idle_machine).
  - repeat constructor.
  - repeat constructor.
  - reflexivity.
Defined.

Lemma failed_auto_launch_is_answered_as_error_witness :
  let r := run launch_fails
             (process_line (H := Codec.protocol) 7%nat (Codec.request "s3" "snapshot"))
             idle_machine in
  let answer :=
    "{" +:+ Codec.q "id" +:+ ":" +:+ Codec.q "error" +:+ ","
        +:+ Codec.q "success" +:+ ":false,"
        +:+ Codec.q "error" +:+ ":" +:+ Codec.q "Executable not found" +:+ "}" in
  fst r = Returned Continue ∧
  trace (snd r) =
    trace idle_machine ++
    [Called (LauncherLaunch Chromium true);
     Did (SocketWrite 7%nat (answer +:+ newline_str))] ∧
  state (heap (snd r)) = BrowserManager.initial ∧
  exited (snd r) = exited idle_machine.
Proof.
  apply (proj1 (failed_auto_launch_is_answered_as_error (H := Codec.protocol)
                  launch_fails 7%nat (Codec.request "s3" "snapshot")
                  (snapshot_command "s3") idle_machine "Executable not found"
                  eq_refl eq_refl ltac:(discriminate) ltac:(discriminate) eq_refl)).
  reflexivity.
Defined.

Lemma close_while_shutting_down_witness :
  let response := successResponse "c3" (JObj [("closed", JBool true)]) in
  let r := run all_succeed
             (process_line (H := Codec.protocol) 7%nat (Codec.request "c3" "close"))
             closing_machine in
  fst r = Returned Return ∧
  trace (snd r) = trace closing_machine ++ (Called <$> closes_of (state (heap closing_machine))) ++
                  [Did (SocketWrite 7%nat (frame (H := Codec.protocol) response))] ∧
  timers (snd r) = timers closing_machine ∧
  count is_timeout (trace (snd r)) = count is_timeout (trace closing_machine) ∧
  shuttingDown (heap (snd r)) = true ∧
  exited (snd r) = exited closing_machine.
Proof.
  apply (close_while_shutting_down (H := Codec.protocol) all_succeed 7%nat
           (Codec.request "c3" "close") (close_command "c3") closing_machine);
    vm_compute; reflexivity.
Defined.

(** ** The shutdown paths *)

(** X14. The signal handler run to its end.  When no shutdown is under way it
    sets the flag, closes what the manager holds (whatever the outcome of
    the close calls), then stops the server, removes the socket and the
    marker and exits with status 0, in that order.  When a shutdown is
    under way it returns at once and does nothing. *)
Theorem signal_shutdown_sequence (o : Oracle) (m : Machine) :
  (shuttingDown (heap m) = false →
   let r := run o shutdown m in
   fst r = Terminated ∧
   trace (snd r) = trace m ++ (Called <$> closes_of (state (heap m))) ++
                   [Did ServerClose; Did CleanupSocket; Exited 0] ∧
   exited (snd r) = Some 0 ∧
   listening (snd r) = false ∧
   state (heap (snd r)) = BrowserManager.initial ∧
   files (os (snd r)) !! SOCKET_PATH = None ∧
   files (os (snd r)) !! PID_FILE = None) ∧
  (shuttingDown (heap m) = true → run o shutdown m = (Returned tt, m)).
Proof.
  split.
  - intros Hflag. destruct_machine m. cbn in Hflag. subst sd. cbv zeta.
    unfold shutdown. run_steps. cbn [run]. unfold_machine.
    repeat split; try apply cleanupSocket_removes.
    rewrite <- !app_assoc. reflexivity.
  - intros Hflag. unfold shutdown. run_steps. rewrite Hflag. reflexivity.
Qed.

Lemma signal_shutdown_sequence_witness :
  let r := run all_succeed shutdown launched_machine in
  fst r = Terminated ∧
  trace (snd r) = trace launched_machine ++
                  (Called <$> closes_of (state (heap launched_machine))) ++
                  [Did ServerClose; Did CleanupSocket; Exited 0] ∧
  exited (snd r) = Some 0 ∧
  listening (snd r) = false ∧
  state (heap (snd r)) = BrowserManager.initial ∧
  files (os (snd r)) !! SOCKET_PATH = None ∧
  files (os (snd r)) !! PID_FILE = None.
Proof.
  apply (proj1 (signal_shutdown_sequence all_succeed launched_machine)). reflexivity.
Defined.


(** ** The artefacts while the daemon runs *)

Lemma untouched_refl (m : Machine) : always m → untouched m m.
Proof. intros _. repeat split. Qed.

Lemma untouched_issue (op : ExtOp) (m0 m : Machine) :
  untouched m0 m → untouched m0 (issue op m).
Proof. intros Hr. exact Hr. Qed.

Lemma untouched_write (c : conn) (s : string) (m0 m : Machine) :
  untouched m0 m → untouched m0 (perform (SocketWrite c s) m).
Proof. intros Hr. exact Hr. Qed.

Lemma untouched_state (h : Heap) (m0 m : Machine) :
  shuttingDown h = shuttingDown (heap m) → untouched m0 m → untouched m0 (set_heap h m).
Proof. intros _ Hr. exact Hr. Qed.

(** Every tear-down ends in an exit. *)
Lemma safe_teardown_gone {A} (e : Effect) (code : Z) :
  safe always untouched gone (effect e;; effect CleanupSocket;; @Exit A code).
Proof. intros m0 m Hr. cbn. eexists. reflexivity. Qed.

Lemma safe_shutdown_gone : safe always untouched gone (shutdown;; Ret Return).
Proof.
  intros m0 m Hr. apply obeys_bind; [intros a; apply safe_ret|].
  unfold shutdown. apply obeys_get_bind.
  destruct (shuttingDown (heap m)); [exact Hr|].
  apply obeys_modify_bind.
  apply (safe_bind always untouched gone).
  - apply safe_close; [apply untouched_refl | apply untouched_issue | apply untouched_state].
  - intros _. apply (safe_teardown_gone ServerClose 0).
  - exact Hr.
Qed.

Section Service.
Context `{Protocol}.

Lemma safe_process_line_untouched (c : conn) (line : string) :
  safe always untouched gone (process_line c line).
Proof.
  pose proof untouched_refl as Hrefl. pose proof untouched_issue as Hissue.
  pose proof untouched_write as Hwrite. pose proof untouched_state as Hstate.
  unfold process_line. apply safe_if; [apply safe_ret|].
  apply safe_try_catch.
  - destruct (parseCommand line) as [command|id error].
    + apply safe_bind; [apply safe_get, safe_ret|]. intros h.
      apply safe_bind.
      { apply safe_if; [apply safe_launch; assumption | apply safe_ret]. }
      intros _. apply safe_if.
      * apply safe_bind; [apply safe_executeCommand; assumption|]. intros response.
        apply safe_bind; [apply safe_write; assumption|]. intros _.
        intros m0 m Hr. cbn. destruct (shuttingDown (heap m)); exact Hr.
      * apply safe_bind; [apply safe_executeCommand; assumption|]. intros response.
        apply safe_bind; [apply safe_write; assumption | intros _; apply safe_ret].
    + apply safe_bind; [apply safe_write; assumption | intros _; apply safe_ret].
  - intros e. apply safe_bind; [apply safe_write; assumption | intros _; apply safe_ret].
Qed.

Lemma in_service_set_machine (os1 : OS) (w : World) (m : Machine) :
  in_service os1 w → exited (machine w) = None → untouched (machine w) m →
  in_service os1 (set_machine m w).
Proof.
  intros [Hos Hpool] Hrun (Ho & Hl & He). split; [|exact Hpool].
  intros _. cbn. rewrite Ho, Hl. apply Hos, Hrun.
Qed.

Lemma in_service_gone (os1 : OS) (w : World) (m : Machine) :
  in_service os1 w → is_Some (exited m) → in_service os1 (set_machine m w).
Proof.
  intros [_ Hpool] [code Hcode]. split; [|exact Hpool].
  cbn. rewrite Hcode. discriminate.
Qed.

Lemma in_service_suspend (os1 : OS) (w : World) (t : Task) :
  in_service os1 w → (∀ r m, obeys always untouched gone (resume t r) m m) →
  in_service os1 (suspend t w).
Proof.
  intros [Hos Hpool] Ht. split; [exact Hos|]. cbn.
  apply Forall_app. split; [exact Hpool|]. constructor; [exact Ht | constructor].
Qed.

Lemma pump_in_service (os1 : OS) (fuel : nat) (c : conn) (w : World) :
  in_service os1 w → exited (machine w) = None → in_service os1 (pump fuel c w).
Proof.
  revert w. induction fuel as [|fuel IH]; intros w Hw Hrun; [exact Hw|].
  cbn [pump]. destruct (JS.includes JS.newline (buffer_of c w)); [|exact Hw].
  set (w1 := set_buffer c _ w).
  assert (in_service os1 w1) as Hw1 by exact Hw.
  pose proof (obeys_advance always untouched gone
                (process_line c (JS.substring 0
                   (default 0%nat (JS.indexOf JS.newline (buffer_of c w))) (buffer_of c w)))
                (machine w1) (machine w1)
                (safe_process_line_untouched c _ _ _ (untouched_refl _ I))) as Hadv.
  destruct (advance _ (machine w1)) as [[[]|e| |op k] m'].
  - apply IH; [apply in_service_set_machine; assumption|].
    destruct Hadv as (_ & _ & He). cbn. rewrite He. exact Hrun.
  - apply in_service_set_machine; assumption.
  - apply in_service_set_machine; assumption.
  - apply in_service_gone; assumption.
  - destruct Hadv as [Hstep Hk].
    apply in_service_suspend; [apply in_service_set_machine; assumption|].
    intros r m. apply Hk. exact I.
Qed.

(** A segment of any handler, run from a machine that differs from the
    machine of the world in its timers at most. *)
Lemma continue_in_service (os1 : OS) (ow : Owner) (body : Async LoopCtl) (m : Machine)
    (w : World) :
  in_service os1 w → exited (machine w) = None →
  os m = os (machine w) → listening m = listening (machine w) →
  exited m = exited (machine w) →
  obeys always untouched gone body m m →
  in_service os1 (continue ow (advance body m) w).
Proof.
  intros Hw Hrun Ho Hl He Hbody.
  pose proof (obeys_advance always untouched gone body _ _ Hbody) as Hadv.
  assert (∀ m', untouched m m' → in_service os1 (set_machine m' w)) as Hset.
  { intros m' (Ho' & Hl' & He'). destruct Hw as [Hos Hpool]. split; [|exact Hpool].
    intros _. cbn. rewrite Ho', Hl', Ho, Hl. apply Hos, Hrun. }
  unfold continue. destruct (advance body m) as [[[]|e| |op k] m'].
  - destruct ow as [c|]; [|apply Hset, Hadv].
    apply pump_in_service; [apply Hset, Hadv|].
    destruct Hadv as (_ & _ & He'). cbn. rewrite He', He. exact Hrun.
  - apply Hset, Hadv.
  - apply Hset, Hadv.
  - apply in_service_gone; assumption.
  - destruct Hadv as [Hstep Hk]. apply in_service_suspend; [apply Hset, Hstep|].
    intros r m1. apply Hk. exact I.
Qed.

Lemma fire_in_service (os1 : OS) (l : Label) (w w' : World) :
  in_service os1 w → fire l w = Some w' → in_service os1 w'.
Proof.
  intros Hw. unfold fire. destruct (exited (machine w)) eqn:Hrun; [discriminate|].
  destruct l as [c chunk|i r| | |message].
  - intros Hfire. apply (inj Some) in Hfire. subst w'.
    apply pump_in_service; [exact Hw | exact Hrun].
  - destruct (pool w !! i) as [t|] eqn:Hi; cbn; [|discriminate].
    destruct (cast (pending t) r) as [r'|]; cbn; [|discriminate].
    intros Hfire. apply (inj Some) in Hfire. subst w'.
    destruct Hw as [Hos Hpool].
    apply continue_in_service; try reflexivity; try exact Hrun.
    + split; [exact Hos | apply Forall_delete, Hpool].
    + rewrite Forall_forall in Hpool. apply Hpool. eapply list_elem_of_lookup_2, Hi.
  - intros Hfire. apply (inj Some) in Hfire. subst w'.
    apply continue_in_service; try reflexivity; try assumption.
    apply safe_shutdown_gone, untouched_refl. exact I.
  - destruct (timers (machine w)) as [|n]; [discriminate|].
    intros Hfire. apply (inj Some) in Hfire. subst w'.
    apply continue_in_service;
      [exact Hw | exact Hrun | reflexivity | reflexivity | symmetry; exact Hrun |].
    apply safe_bind; [|intros a; apply safe_ret|apply untouched_refl; exact I].
    apply (safe_teardown_gone ServerClose 0).
  - intros Hfire. apply (inj Some) in Hfire. subst w'.
    apply continue_in_service; try reflexivity; try assumption.
    apply safe_bind; [|intros a; apply safe_ret|apply untouched_refl; exact I].
    apply (safe_teardown_gone (ConsoleError message) 1).
Qed.

(** X6. While the daemon runs, its artefacts stay in place.  In every state that
    a daemon started by process [pid] can reach, by any interleaving of
    reads, settlements, signals, timer expiries and server errors, and in
    which the process has not exited: the server listens, the socket is the
    one bound by [pid], the marker holds the text of [pid], and every other
    path is as [startDaemon] found it.  The daemon removes its artefacts
    only on the way to its exit. *)
Theorem artefacts_stay_while_running (pid : Z) (os0 : OS) (w : World) :
  reachable pid os0 w →
  exited (machine w) = None →
  listening (machine w) = true ∧
  files (os (machine w)) !! SOCKET_PATH = Some (Socket pid) ∧
  files (os (machine w)) !! PID_FILE = Some (Regular (pretty pid)) ∧
  (∀ p, p ≠ SOCKET_PATH → p ≠ PID_FILE →
        files (os (machine w)) !! p = files os0 !! p) ∧
  procs (os (machine w)) = procs os0.
Proof.
  intros Hreach.
  assert (in_service (os (machine (startDaemon pid os0))) w) as [Hos _].
  { induction Hreach as [|l w w' _ IH Hfire]; [|eapply fire_in_service; eassumption].
    rewrite startDaemon_always_binds. split; [|constructor].
    intros _. split; reflexivity. }
  intros Hrun.
  destruct (Hos Hrun) as [-> ->]. rewrite startDaemon_always_binds. cbn.
  repeat split.
  - apply lookup_insert_eq.
  - rewrite lookup_insert_ne by apply paths_distinct. apply lookup_insert_eq.
  - intros p Hs Hp. rewrite !lookup_insert_ne, !lookup_delete_ne by congruence. reflexivity.
Qed.

End Service.

Lemma artefacts_stay_while_running_witness :
  let w := after close_then_command fresh_daemon in
  listening (machine w) = true ∧
  files (os (machine w)) !! SOCKET_PATH = Some (Socket 4242) ∧
  files (os (machine w)) !! PID_FILE = Some (Regular (pretty 4242)) ∧
  (∀ p, p ≠ SOCKET_PATH → p ≠ PID_FILE →
        files (os (machine w)) !! p = files clean_os !! p) ∧
  procs (os (machine w)) = procs clean_os.
Proof.
  apply (artefacts_stay_while_running (H := Codec.protocol) 4242 clean_os).
  - apply (reachable_fire_all (H := Codec.protocol) 4242 clean_os close_then_command
             fresh_daemon); [apply reach_start | vm_compute; reflexivity].
  - vm_compute. reflexivity.
Defined.

(** ** The command line client *)

(** X16. The exit status of the client.  It is 0 exactly when the help screen was
    asked for, or when a command was sent and answered and either [--json]
    is given or the Response is a success that carries data.  So with
    [--json] a Response that reports a failure is printed and the status is
    0 all the same; the status is 1 for a usage error, for a failed
    transport, and without [--json] for a failure Response. *)
Theorem exit_status_of_main (args : list string) (id : string)
    (send : Cli.Cmd → Outcome Response) :
  let r := Cli.main args id send in
  (Cli.status r = 0 ∨ Cli.status r = 1) ∧
  (Cli.status r = 0 ↔
   Cli.parse args id = Cli.Help ∨
   ∃ cmd response,
     Cli.parse args id = Cli.Send cmd ∧ send cmd = Resolved response ∧
     (Cli.jsonMode args = true ∨
      (success response = true ∧ ∃ d, data response = Some d ∧ d ≠ JNull))).
Proof.
  cbv zeta. unfold Cli.main.
  destruct (Cli.parse args id) as [|errors|cmd]; cbn [Cli.status].
  - split; [left; reflexivity|]. split; [left; reflexivity | reflexivity].
  - split; [right; reflexivity|]. split; [discriminate|].
    intros [Hhelp|(cmd & response & Hsend & _)]; discriminate.
  - destruct (send cmd) as [response|message] eqn:Hsend; cbn [Cli.status].
    + unfold Cli.printResponse.
      destruct (Cli.jsonMode args) eqn:Hjson; cbn [Cli.status].
      { split; [left; reflexivity|]. split; [|reflexivity].
        intros _. right. exists cmd, response. auto. }
      destruct (success response) eqn:Hsuccess; cbn [negb Cli.status].
      * destruct (data response) as [d|] eqn:Hdata; cbn [Cli.status].
        -- destruct d as [|b|n|s|items|ms]; cbn [Cli.status].
           ++ split; [right; reflexivity|]. split; [discriminate|].
              intros [Hhelp|(cmd' & response' & Hcmd & Hresp & Hok)]; [discriminate|].
              injection Hcmd as <-. rewrite Hsend in Hresp. injection Hresp as <-.
              destruct Hok as [Hok|(_ & d & Hd & Hnull)]; [discriminate|].
              rewrite Hdata in Hd. injection Hd as <-. contradiction.
           ++ split; [left; reflexivity|]. split; [|reflexivity].
              intros _; right; exists cmd, response.
              split; [reflexivity|]. split; [exact Hsend|]. right.
              split; [exact Hsuccess|]. eexists. split; [exact Hdata | discriminate].
           ++ split; [left; reflexivity|]. split; [|reflexivity].
              intros _; right; exists cmd, response.
              split; [reflexivity|]. split; [exact Hsend|]. right.
              split; [exact Hsuccess|]. eexists. split; [exact Hdata | discriminate].
           ++ split; [left; reflexivity|]. split; [|reflexivity].
              intros _; right; exists cmd, response.
              split; [reflexivity|]. split; [exact Hsend|]. right.
              split; [exact Hsuccess|]. eexists. split; [exact Hdata | discriminate].
           ++ split; [left; reflexivity|]. split; [|reflexivity].
              intros _; right; exists cmd, response.
              split; [reflexivity|]. split; [exact Hsend|]. right.
              split; [exact Hsuccess|]. eexists. split; [exact Hdata | discriminate].
           ++ split; [left; reflexivity|]. split; [|reflexivity].
              intros _; right; exists cmd, response.
              split; [reflexivity|]. split; [exact Hsend|]. right.
              split; [exact Hsuccess|]. eexists. split; [exact Hdata | discriminate].
        -- split; [right; reflexivity|]. split; [discriminate|].
           intros [Hhelp|(cmd' & response' & Hcmd & Hresp & Hok)]; [discriminate|].
           injection Hcmd as <-. rewrite Hsend in Hresp. injection Hresp as <-.
           destruct Hok as [Hok|(_ & d & Hd & _)]; [discriminate|].
           rewrite Hdata in Hd. discriminate.
      * split; [right; reflexivity|]. split; [discriminate|].
        intros [Hhelp|(cmd' & response' & Hcmd & Hresp & Hok)]; [discriminate|].
        injection Hcmd as <-. rewrite Hsend in Hresp. injection Hresp as <-.
        destruct Hok as [Hok|(Hok & _)]; [discriminate|]. rewrite Hsuccess in Hok. discriminate.
    + split; [right; reflexivity|]. split; [discriminate|].
      intros [Hhelp|(cmd' & response' & Hcmd & Hresp & _)]; [discriminate|].
      injection Hcmd as <-. rewrite Hsend in Hresp. discriminate.
Qed.

(** *** The positional arguments *)

Lemma cleanArgs_from_prev (prev prev' : option string) (args : list string) :
  from_option Cli.is_selector_flag false prev = from_option Cli.is_selector_flag false prev' →
  Cli.cleanArgs_from prev args = Cli.cleanArgs_from prev' args.
Proof. intros Hprev. destruct args as [|a rest]; [reflexivity|]. cbn. rewrite Hprev. reflexivity. Qed.

Lemma cleanArgs_from_app (prev : option string) (l1 l2 : list string) :
  Cli.cleanArgs_from prev (l1 ++ l2) =
    Cli.cleanArgs_from prev l1 ++
    Cli.cleanArgs_from (match last l1 with Some a => Some a | None => prev end) l2.
Proof.
  revert prev. induction l1 as [|a l1 IH]; intros prev; [reflexivity|].
  cbn [app Cli.cleanArgs_from]. rewrite IH, <- app_assoc. do 2 f_equal.
  destruct l1 as [|b l1]; [reflexivity|].
  change (last (a :: b :: l1)) with (last (b :: l1)).
  destruct (last (b :: l1)) eqn:Hlast; [reflexivity|].
  apply last_None in Hlast. discriminate.
Qed.

Lemma cleanArgs_from_no_dash (prev : option string) (args : list string) :
  Forall (λ a, Cli.startsWith "-" a = false) (Cli.cleanArgs_from prev args).
Proof.
  revert prev. induction args as [|a rest IH]; intros prev; [constructor|].
  cbn [Cli.cleanArgs_from]. apply Forall_app. split; [|apply IH].
  destruct (Cli.startsWith "-" a) eqn:Hdash; [constructor|].
  destruct (from_option _ _ _); constructor; [assumption | constructor].
Qed.

(** X17. The positional arguments of the client.  No positional argument starts
    with a dash, so a negative number or a text that starts with a dash
    cannot be given as an operand.  A flag other than [--selector] and
    [-s] may be put anywhere, and [--selector] with its value too, without
    changing the positional arguments, except directly after [--selector]
    or [-s], where it is taken for the value. *)
Theorem positional_arguments (args : list string) :
  Forall (λ a, Cli.startsWith "-" a = false) (Cli.cleanArgs args) ∧
  (∀ before flag after,
     args = before ++ flag :: after →
     Cli.startsWith "-" flag = true →
     Cli.is_selector_flag flag = false →
     from_option Cli.is_selector_flag false (last before) = false →
     Cli.cleanArgs args = Cli.cleanArgs (before ++ after)) ∧
  (∀ before flag value after,
     args = before ++ flag :: value :: after →
     Cli.is_selector_flag flag = true →
     Cli.is_selector_flag value = false →
     from_option Cli.is_selector_flag false (last before) = false →
     Cli.cleanArgs args = Cli.cleanArgs (before ++ after)).
Proof.
  split; [apply cleanArgs_from_no_dash|]. split.
  - intros before flag after -> Hdash Hflag Hlast. unfold Cli.cleanArgs.
    rewrite !cleanArgs_from_app. f_equal. cbn [Cli.cleanArgs_from]. rewrite Hdash.
    cbn [app]. apply cleanArgs_from_prev. cbn. rewrite Hflag.
    destruct (last before); [exact (eq_sym Hlast) | reflexivity].
  - intros before flag value after -> Hflag Hvalue Hlast. unfold Cli.cleanArgs.
    rewrite !cleanArgs_from_app. f_equal. cbn [Cli.cleanArgs_from].
    assert (Cli.startsWith "-" flag = true) as ->.
    { unfold Cli.is_selector_flag in Hflag. apply orb_true_iff in Hflag as [Hf|Hf];
        apply bool_decide_eq_true in Hf; subst flag; reflexivity. }
    cbn [from_option]. rewrite Hflag.
    assert ((if Cli.startsWith "-" value then [] else @nil string) = []) as ->
      by (destruct (Cli.startsWith "-" value); reflexivity).
    cbn [app]. apply cleanArgs_from_prev. cbn. rewrite Hvalue.
    destruct (last before); [exact (eq_sym Hlast) | reflexivity].
Qed.

(** *** The commands *)

(** Case analysis on the [switch] of [main]: every test is decided. *)
Ltac switch_cases H :=
  unfold Cli.parse in H;
  match type of H with
  | (if ?b then _ else _) = _ => destruct b eqn:?; [discriminate H|]
  end;
  unfold Cli.command_of, Cli.required in H; cbv zeta in H;
  repeat case_match; simplify_eq.

(** X18. Every command that the client sends carries the id drawn for it and one
    of thirteen actions; [launch] is not among them: the client never asks
    for a launch and relies on the daemon to launch the browser. *)
Theorem client_commands (args : list string) (id : string) (cmd : Cli.Cmd) :
  Cli.parse args id = Cli.Send cmd →
  Cli.get "id" cmd = Cli.Str id ∧
  ∃ action, Cli.get "action" cmd = Cli.Str action ∧
            action ∈ cli_actions ∧ action ≠ "launch".
Proof.
  intros Hparse. switch_cases Hparse.
  all: split; [reflexivity|]; eexists; split; [reflexivity|];
       split; [apply list_elem_of_In; cbn; tauto | discriminate].
Qed.

Lemma client_commands_witness :
  let cmd := [("id", Cli.Str "k3x9"); ("action", Cli.Str "navigate");
              ("url", Cli.Str "https://example.com")] in
  Cli.parse ["open"; "example.com"; "--json"] "k3x9" = Cli.Send cmd ∧
  Cli.get "id" cmd = Cli.Str "k3x9" ∧
  ∃ action, Cli.get "action" cmd = Cli.Str action ∧
            action ∈ cli_actions ∧ action ≠ "launch".
Proof.
  cbv zeta. split; [reflexivity|].
  apply (client_commands ["open"; "example.com"; "--json"] "k3x9"). reflexivity.
Defined.

(** X19. The URL of a navigate command always starts with [http]: the operand is
    sent as it is when it starts with [http] (whatever follows), and behind
    [https://] otherwise, also when it names another scheme or has [HTTP] in
    capitals. *)
Theorem navigate_url_starts_with_http (args : list string) (id : string) (cmd : Cli.Cmd) :
  Cli.parse args id = Cli.Send cmd →
  Cli.get "action" cmd = Cli.Str "navigate" →
  ∃ operand url,
    Cli.cleanArgs args !! 1%nat = Some operand ∧
    Cli.get "url" cmd = Cli.Str url ∧
    Cli.startsWith "http" url = true ∧
    url = (if Cli.startsWith "http" operand then operand else "https://" +:+ operand).
Proof.
  intros Hparse Haction.
  switch_cases Hparse; try (vm_compute in Haction; discriminate Haction).
  - destruct (Cli.cleanArgs args !! 1%nat) as [operand|]; [|discriminate].
    cbn [from_option Datatypes.id] in *. exists operand, operand.
    match goal with Hs : Cli.startsWith "http" operand = _ |- _ => rewrite Hs end.
    repeat split.
  - destruct (Cli.cleanArgs args !! 1%nat) as [operand|]; [|discriminate].
    cbn [from_option Datatypes.id] in *. exists operand, ("https://" +:+ operand).
    match goal with Hs : Cli.startsWith "http" operand = _ |- _ => rewrite Hs end.
    repeat split.
Qed.

Lemma navigate_url_starts_with_http_witness :
  let cmd := [("id", Cli.Str "k3x9"); ("action", Cli.Str "navigate");
              ("url", Cli.Str "https://ftp://host/file")] in
  Cli.parse ["goto"; "ftp://host/file"] "k3x9" = Cli.Send cmd ∧
  ∃ operand url,
    Cli.cleanArgs ["goto"; "ftp://host/file"] !! 1%nat = Some operand ∧
    Cli.get "url" cmd = Cli.Str url ∧
    Cli.startsWith "http" url = true ∧
    url = (if Cli.startsWith "http" operand then operand else "https://" +:+ operand).
Proof.
  cbv zeta. split; [reflexivity|].
  apply (navigate_url_starts_with_http ["goto"; "ftp://host/file"] "k3x9"); reflexivity.
Defined.

Lemma digits_Some (acc : Z) (s : string) : is_Some (JS.digits (Some acc) s).
Proof.
  revert acc. induction s as [|a s IH]; intros acc; cbn; [eauto|].
  destruct (JS.digit a); [apply IH | eauto].
Qed.

Lemma parseInt_leading_digit (a : ascii) (r : string) :
  is_Some (JS.digit a) → is_Some (JS.parseInt (String a r)).
Proof.
  intros Hdigit. rewrite parseInt_digit_head by assumption.
  destruct Hdigit as [d Hd]. cbn. rewrite Hd. apply digits_Some.
Qed.

Lemma digit_nonneg (a : ascii) (d : Z) : JS.digit a = Some d → 0 ≤ d.
Proof.
  unfold JS.digit. cbv zeta.
  destruct (48 <=? Z.of_N (N_of_ascii a)) eqn:Hlo; cbn [andb]; [|discriminate].
  destruct (Z.of_N (N_of_ascii a) <=? 57); [|discriminate].
  intros [= <-]. apply Z.leb_le in Hlo. lia.
Qed.

Lemma digits_nonneg (s : string) (acc v : Z) :
  0 ≤ acc → JS.digits (Some acc) s = Some v → 0 ≤ v.
Proof.
  revert acc. induction s as [|a s IH]; intros acc Hacc; cbn.
  - intros [= <-]. exact Hacc.
  - destruct (JS.digit a) as [d|] eqn:Hd.
    + apply IH. pose proof (digit_nonneg a d Hd). lia.
    + intros [= <-]. exact Hacc.
Qed.

(** X20. A wait whose operand starts with a digit is a wait for a duration: the
    leading digits are taken for milliseconds whatever follows them, and
    also when [--text] is given.  The command carries their value as long
    as a JavaScript number holds it exactly, that is up to [2 ^ 53]. *)
Theorem wait_operand_with_leading_digit (args : list string) (id : string)
    (a : ascii) (rest : string) :
  bool_decide (args = []) || Cli.includes "--help" args || Cli.includes "-h" args = false →
  Cli.cleanArgs args !! 0%nat = Some "wait" →
  Cli.cleanArgs args !! 1%nat = Some (String a rest) →
  is_Some (JS.digit a) →
  ∃ ms, JS.parseInt (String a rest) = Some ms ∧ 0 ≤ ms ∧
        (ms ≤ 2 ^ 53 →
         Cli.parse args id =
           Cli.Send [("id", Cli.Str id); ("action", Cli.Str "wait");
                     ("timeout", Cli.Num ms)]).
Proof.
  intros Hhelp Hcommand Htarget Hdigit.
  destruct (parseInt_leading_digit a rest Hdigit) as [ms Hms].
  exists ms. split; [exact Hms|]. split.
  - rewrite parseInt_digit_head in Hms by assumption.
    destruct Hdigit as [d Hd]. cbn in Hms. rewrite Hd in Hms.
    apply (digits_nonneg rest (10 * 0 + d) ms); [|exact Hms].
    pose proof (digit_nonneg a d Hd). lia.
  - intros _.
    unfold Cli.parse. rewrite Hhelp. unfold Cli.command_of. cbv zeta.
    rewrite Hcommand, Htarget. cbn [from_option Datatypes.id Cli.falsy JS.is_empty].
    rewrite Hms. reflexivity.
Qed.

Lemma wait_operand_with_leading_digit_witness :
  ∃ ms, JS.parseInt "2nd place" = Some ms ∧ 0 ≤ ms ∧
        (ms ≤ 2 ^ 53 →
         Cli.parse ["wait"; "--text"; "2nd place"] "k3x9" =
           Cli.Send [("id", Cli.Str "k3x9"); ("action", Cli.Str "wait");
                     ("timeout", Cli.Num ms)]).
Proof.
  apply (wait_operand_with_leading_digit ["wait"; "--text"; "2nd place"] "k3x9"
           "2"%char "nd place"); try reflexivity.
  eexists. reflexivity.
Defined.

Lemma or_300_nonzero (x : option string) : Cli.or_300 x ≠ 0.
Proof.
  unfold Cli.or_300. destruct (JS.parseInt _) as [n|]; [|discriminate].
  destruct (bool_decide (n = 0)) eqn:Hn; [discriminate|].
  apply bool_decide_eq_false in Hn. exact Hn.
Qed.

(** X21. The distance of a scroll command is never zero: an amount that is
    missing, not a number, or zero is replaced by 300.  With one of the four
    directions the command carries the direction and an amount; otherwise it
    carries a vertical offset. *)
Theorem scroll_distance_is_never_zero (args : list string) (id : string) (cmd : Cli.Cmd) :
  Cli.parse args id = Cli.Send cmd →
  Cli.get "action" cmd = Cli.Str "scroll" →
  ∃ n, n ≠ 0 ∧
       ((Cli.get "amount" cmd = Cli.Num n ∧ Cli.get "y" cmd = Cli.Undefined ∧
         ∃ d, Cli.get "direction" cmd = Cli.Str d ∧ d ∈ ["up"; "down"; "left"; "right"]) ∨
        (Cli.get "y" cmd = Cli.Num n ∧ Cli.get "amount" cmd = Cli.Undefined ∧
         Cli.get "direction" cmd = Cli.Undefined)).
Proof.
  intros Hparse Haction.
  switch_cases Hparse; try (vm_compute in Haction; discriminate Haction).
  - eexists. split; [apply or_300_nonzero|]. left.
    destruct (Cli.cleanArgs args !! 1%nat) as [d|]; [|discriminate].
    cbn [from_option] in *.
    match goal with Hd : bool_decide _ = true |- _ => apply bool_decide_eq_true in Hd end.
    repeat split; try reflexivity. exists d. split; [reflexivity | assumption].
  - eexists. split; [apply or_300_nonzero|]. right. repeat split; reflexivity.
Qed.

Lemma scroll_distance_is_never_zero_witness :
  let cmd := [("id", Cli.Str "k3x9"); ("action", Cli.Str "scroll");
              ("direction", Cli.Str "down"); ("amount", Cli.Num 300);
              ("selector", Cli.Undefined)] in
  Cli.parse ["scroll"; "down"; "0"] "k3x9" = Cli.Send cmd ∧
  Cli.parse ["scroll"; "down"; "-50"] "k3x9" = Cli.Send cmd ∧
  ∃ n, n ≠ 0 ∧
       ((Cli.get "amount" cmd = Cli.Num n ∧ Cli.get "y" cmd = Cli.Undefined ∧
         ∃ d, Cli.get "direction" cmd = Cli.Str d ∧ d ∈ ["up"; "down"; "left"; "right"]) ∨
        (Cli.get "y" cmd = Cli.Num n ∧ Cli.get "amount" cmd = Cli.Undefined ∧
         Cli.get "direction" cmd = Cli.Undefined)).
Proof.
  cbv zeta. split; [reflexivity|]. split; [reflexivity|].
  apply (scroll_distance_is_never_zero ["scroll"; "down"; "0"] "k3x9"); reflexivity.
Defined.

(** X22. A command that needs an operand and gets none is not sent: the client
    prints one error line and exits with status 1. *)
Theorem missing_operand_is_a_usage_error (args : list string) (id : string)
    (send : Cli.Cmd → Outcome Response) (name : string) :
  bool_decide (args = []) || Cli.includes "--help" args || Cli.includes "-h" args = false →
  Cli.cleanArgs args = [name] →
  name ∈ ["open"; "goto"; "navigate"; "click"; "type"; "press"; "wait"; "eval"; "js";
          "hover"; "select"] →
  ∃ message,
    Cli.parse args id = Cli.Usage [[Cli.c Cli.Red "Error:"; message]] ∧
    Cli.sent (Cli.main args id send) = None ∧
    Cli.status (Cli.main args id send) = 1 ∧
    Cli.outs (Cli.main args id send) =
      [Cli.Err [[Cli.Text (Cli.c Cli.Red "Error:")]; [Cli.Text message]]].
Proof.
  intros Hhelp Hclean Hname.
  assert (∃ message, Cli.parse args id = Cli.Usage [[Cli.c Cli.Red "Error:"; message]])
    as [message Hparse].
  { unfold Cli.parse. rewrite Hhelp. unfold Cli.command_of. cbv zeta. rewrite Hclean.
    apply list_elem_of_In in Hname. cbn in Hname.
    repeat (destruct Hname as [<-|Hname]; [eexists; reflexivity|]). destruct Hname. }
  exists message. split; [exact Hparse|]. unfold Cli.main. rewrite Hparse. repeat split.
Qed.

Lemma missing_operand_is_a_usage_error_witness :
  ∃ message,
    Cli.parse ["click"; "--json"] "k3x9" = Cli.Usage [[Cli.c Cli.Red "Error:"; message]] ∧
    Cli.sent (Cli.main ["click"; "--json"] "k3x9" (λ _, Rejected "unused")) = None ∧
    Cli.status (Cli.main ["click"; "--json"] "k3x9" (λ _, Rejected "unused")) = 1 ∧
    Cli.outs (Cli.main ["click"; "--json"] "k3x9" (λ _, Rejected "unused")) =
      [Cli.Err [[Cli.Text (Cli.c Cli.Red "Error:")]; [Cli.Text message]]].
Proof.
  apply (missing_operand_is_a_usage_error ["click"; "--json"] "k3x9" _ "click").
  - reflexivity.
  - reflexivity.
  - apply list_elem_of_In. cbn. tauto.
Defined.

(** X23. With [--json], a command that is sent produces exactly one line on
    standard output and nothing on standard error: the Response as it came
    when [send] answers, whether it reports success or failure, and a
    failure Response with the id of the command and the message of the
    error when [send] fails. *)
Theorem json_mode_prints_one_response (args : list string) (id : string)
    (send : Cli.Cmd → Outcome Response) (cmd : Cli.Cmd) :
  Cli.jsonMode args = true →
  Cli.parse args id = Cli.Send cmd →
  let r := Cli.main args id send in
  Cli.sent r = Some cmd ∧
  Cli.outs r =
    [Cli.Log [[Cli.StringifiedResponse
                 match send cmd with
                 | Resolved response => response
                 | Rejected message =>
                     {| resp_id := id; success := false; data := None;
                        error := Some message |}
                 end]]].
Proof.
  intros Hjson Hparse. cbv zeta. unfold Cli.main. rewrite Hparse.
  destruct (send cmd) as [response|message].
  - unfold Cli.printResponse. rewrite Hjson. split; reflexivity.
  - unfold Cli.failed. rewrite Hjson. split; reflexivity.
Qed.

Lemma json_mode_prints_one_response_witness :
  let args := ["close"; "--json"] in
  let answer := {| resp_id := "k3x9"; success := false; data := None;
                   error := Some "Browser not launched. Call launch first." |} in
  let r := Cli.main args "k3x9" (λ _, Resolved answer) in
  Cli.status r = 0 ∧
  Cli.sent r = Some [("id", Cli.Str "k3x9"); ("action", Cli.Str "close")] ∧
  Cli.outs r = [Cli.Log [[Cli.StringifiedResponse answer]]].
Proof.
  cbv zeta. split; [reflexivity|].
  exact (json_mode_prints_one_response ["close"; "--json"] "k3x9"
           (λ _, Resolved {| resp_id := "k3x9"; success := false; data := None;
                             error := Some "Browser not launched. Call launch first." |})
           [("id", Cli.Str "k3x9"); ("action", Cli.Str "close")] eq_refl eq_refl).
Defined.
